(** * Ovation: clap detection and the clap-pattern switch

    A shallow embedding of [src/utils/audio-utils.js],
    [src/utils/event-emitter.js], [src/audio-processor.js],
    [src/state-manager.js] and [src/index.js] (class [ClapSwitch]), and the
    properties of the clap classifier, of the clap-pattern machine, of the
    event emitter and of the switch as a whole.

    Conventions of the embedding.
    - A JavaScript number that holds a measurement (a sample, a magnitude, a
      threshold, a frequency) is modelled twice.  In the processor and its
      life cycle it is a real number of [R]: [+], [*], [/], [Math.sqrt] and
      [Math.log10] are exact there, which the source's are not, so what is
      proved of these functions is proved of the arithmetic without rounding
      and without NaN.  The functions whose result depends on rounding
      ([calculateRMS], [getAttackTime], [calculateDominantFrequency] and the
      decision of a tick) are given a second time on binary64 numbers, with
      the suffix [64], each operation rounded as the source's is; there
      [Math.log10], which ECMAScript leaves to the implementation, is any
      function.  The analyser's buffers have [frequencyBinCount = 512]
      entries, so the [0 / 0] of an empty buffer does not arise in a run.
    - A JavaScript number that holds a count or a time in milliseconds
      ([_clapCount], [Date.now()], timer delays) is an integer of [Z].
    - An object that is mutated is a record that is passed in and returned; the
      notifications it sends through [EventEmitter.emit] are returned as a list,
      oldest first.
    - The browser (timers, [localStorage], the microphone, the clock) is
      explicit state or an explicit answer given to the function that asks;
      [localStorage] may be absent, and its [getItem] and [setItem] may throw.
    - The listeners of an emitter are a table from event names to lists of
      functions, the own properties of [this.events]; under a name that the
      object inherits from [Object.prototype] the methods of the emitter throw
      a TypeError, which is [None].  A function is known by its identity, and
      the functions of a caller are taken not to call back into the emitter
      while they run.  The pattern machine is first modelled by what it hands
      to [emit]; the wired switch then delivers these emissions through the
      tables.
    - [console.log] under [debug] is left out. *)

From stdpp Require Import base option list gmap strings sorting.
From Stdlib Require Import ZArith Lia Reals Lra.
From Stdlib Require PrimFloat Uint63 Floats.

(** ** Notifications *)

(** What a [ClapSwitch] or its [StateManager] hands to [emit]: the event name
    with its payload. *)
Inductive Emitted : Type :=
| EmitStart
| EmitStop
| EmitClap (count : Z)
| EmitPattern (count : Z)
| EmitPatternCanceled (count : Z)
| EmitToggle (isOn : bool)
| EmitError (message : string).

Definition isPattern (e : Emitted) : bool :=
  match e with EmitPattern _ => true | _ => false end.
Definition isPatternCanceled (e : Emitted) : bool :=
  match e with EmitPatternCanceled _ => true | _ => false end.
Definition isToggle (e : Emitted) : bool :=
  match e with EmitToggle _ => true | _ => false end.

(** ** state-manager.js *)

Record StateManagerOptions : Type := {
  sm_statePersistence : bool;
  sm_storageKey : string;
  sm_initialState : bool
}.

Record StateManager : Type := {
  sm_options : StateManagerOptions;
  _state : bool
}.

(** [window.localStorage] as the state manager meets it.  [ls_present] is the
    test [typeof window !== 'undefined' && window.localStorage]; [getItem] and
    [setItem] may throw (private browsing, a full quota), for the key and for
    the key and value that [getItem_throws] and [setItem_throws] tell; and
    [ls_items] are the stored strings. *)
Record Storage : Type := {
  ls_present : bool;
  getItem_throws : string -> bool;
  setItem_throws : string -> string -> bool;
  ls_items : gmap string string
}.

(** A working [localStorage] that holds nothing. *)
#[global] Instance Storage_empty : Empty Storage :=
  {| ls_present := true;
     getItem_throws := fun _ => false;
     setItem_throws := fun _ _ => false;
     ls_items := ∅ |}.

(** [localStorage.setItem(key, value)] where it does not throw. *)
Definition setItem (key value : string) (localStorage : Storage) : Storage :=
  {| ls_present := ls_present localStorage;
     getItem_throws := getItem_throws localStorage;
     setItem_throws := setItem_throws localStorage;
     ls_items := <[key := value]> (ls_items localStorage) |}.

Definition String_of_bool (b : bool) : string :=
  if b then "true"%string else "false"%string.

(** [_getInitialState()]: the persisted value when persistence is on, the
    storage is there, [getItem] does not throw and the key is present; the
    configured initial state otherwise (what [getItem] throws is caught). *)
Definition _getInitialState
    (o : StateManagerOptions) (localStorage : Storage) : bool :=
  if sm_statePersistence o && ls_present localStorage then
    if getItem_throws localStorage (sm_storageKey o) then sm_initialState o
    else
      match ls_items localStorage !! sm_storageKey o with
      | Some savedState => bool_decide (savedState = "true"%string)
      | None => sm_initialState o
      end
  else sm_initialState o.

(** The options object a caller may pass: a missing key is [None]. *)
Record StateManagerOptionsArg : Type := {
  arg_sm_statePersistence : option bool;
  arg_sm_storageKey : option string;
  arg_sm_initialState : option bool
}.

Definition StateManager_constructor
    (a : StateManagerOptionsArg) (localStorage : Storage) : StateManager :=
  let o := {| sm_statePersistence := default false (arg_sm_statePersistence a);
              sm_storageKey := default "ovation_state"%string (arg_sm_storageKey a);
              sm_initialState := default false (arg_sm_initialState a) |} in
  {| sm_options := o; _state := _getInitialState o localStorage |}.

(** [_persistState()]: with persistence on and the storage there, the state
    is written as a string; what [setItem] throws is caught, and nothing is
    stored then. *)
Definition _persistState
    (sm : StateManager) (localStorage : Storage) : Storage :=
  if sm_statePersistence (sm_options sm) && ls_present localStorage then
    if setItem_throws localStorage (sm_storageKey (sm_options sm))
                      (String_of_bool (_state sm))
    then localStorage
    else setItem (sm_storageKey (sm_options sm)) (String_of_bool (_state sm))
                 localStorage
  else localStorage.

(** [setState(state)]: the result, the manager, the storage, the emissions. *)
Definition StateManager_setState
    (newState : bool) (sm : StateManager) (localStorage : Storage)
  : bool * StateManager * Storage * list Emitted :=
  if bool_decide (newState = _state sm) then (false, sm, localStorage, [])
  else
    let sm' := {| sm_options := sm_options sm; _state := newState |} in
    (true, sm', _persistState sm' localStorage, [EmitToggle newState]).

(** [toggle()]. *)
Definition StateManager_toggle
    (sm : StateManager) (localStorage : Storage)
  : bool * StateManager * Storage * list Emitted :=
  let newState := negb (_state sm) in
  let '(_, sm', ls', out) := StateManager_setState newState sm localStorage in
  (newState, sm', ls', out).

(** ** utils/audio-utils.js *)

#[global] Instance Rgt_decision (a b : R) : Decision (a > b)%R := Rgt_dec a b.
#[global] Instance Rlt_decision (a b : R) : Decision (a < b)%R := Rlt_dec a b.
#[global] Instance Rge_decision (a b : R) : Decision (a >= b)%R := Rge_dec a b.
#[global] Instance Rle_decision (a b : R) : Decision (a <= b)%R := Rle_dec a b.

(** *** With exact arithmetic

    The functions on real numbers: what the source computes when no operation
    rounds.  [calculateRMS] and [amplitudeToDecibels] differ from the source
    by its rounding (and by its [Math.log10]); [getAttackTime] and the search
    of [calculateDominantFrequency] only compare. *)

Section AudioUtils.
#[local] Open Scope R_scope.

(** The accumulation loop of [calculateRMS], from the running [sum]. *)
Definition sumSquares (buffer : list R) (sum : R) : R :=
  fold_left (fun sum x => sum + x * x) buffer sum.

Definition calculateRMS (buffer : list R) : R :=
  sqrt (sumSquares buffer 0 / INR (length buffer)).

Definition Math_log10 (x : R) : R := ln x / ln 10.

Definition amplitudeToDecibels (amplitude : R) : R :=
  if decide (amplitude < 0.0000001) then -100
  else 20 * Math_log10 amplitude.

(** The loop of [calculateDominantFrequency] from index [i] on, with the
    running [maxIndex] and [maxValue]. *)
Fixpoint dominantLoop (frequencyData : list R) (i maxIndex : nat) (maxValue : R)
  : nat * R :=
  match frequencyData with
  | [] => (maxIndex, maxValue)
  | x :: rest =>
      if decide (x > maxValue) then dominantLoop rest (S i) i x
      else dominantLoop rest (S i) maxIndex maxValue
  end.

Definition calculateDominantFrequency
    (frequencyData : list R) (sampleRate fftSize : R) : R :=
  let maxIndex := fst (dominantLoop frequencyData 0 0 0) in
  INR maxIndex * sampleRate / fftSize.

(** The peak search of [getAttackTime] from index [i] on. *)
Fixpoint peakLoop (buffer : list R) (i peakIndex : nat) (peakValue : R)
  : nat * R :=
  match buffer with
  | [] => (peakIndex, peakValue)
  | x :: rest =>
      let abs := Rabs x in
      if decide (abs > peakValue) then peakLoop rest (S i) i abs
      else peakLoop rest (S i) peakIndex peakValue
  end.

(** The backward walk of [getAttackTime]:
    [while (attackIndex > 0 && Math.abs(buffer[attackIndex]) > startThreshold)
       attackIndex--]. *)
Fixpoint attackLoop (buffer : list R) (startThreshold : R) (attackIndex : nat)
  : nat :=
  match attackIndex with
  | O => O
  | S previous =>
      if decide (Rabs (nth attackIndex buffer 0) > startThreshold)
      then attackLoop buffer startThreshold previous
      else attackIndex
  end.

Definition getAttackTime (buffer : list R) (threshold : R) : Z :=
  let '(peakIndex, peakValue) := peakLoop buffer 0 0 0 in
  if decide (peakValue < threshold) then (-1)%Z
  else
    let startThreshold := threshold * 0.1 in
    let attackIndex := attackLoop buffer startThreshold peakIndex in
    (Z.of_nat peakIndex - Z.of_nat attackIndex)%Z.
End AudioUtils.

(** *** With the numbers of the source

    [calculateRMS], [getAttackTime] and [calculateDominantFrequency] on
    binary64 numbers, each operation rounded as the source's is: [+], [*],
    [/] and [Math.sqrt] to the nearest number, [Math.abs] and the comparisons
    exact.  A sample read from a [Float32Array] is a binary64 number. *)

Section AudioUtils64.
Import PrimFloat.

Definition sumSquares64 (buffer : list float) (sum : float) : float :=
  fold_left (fun sum x => PrimFloat.add sum (PrimFloat.mul x x)) buffer sum.

(** [buffer.length] as a number. *)
Definition length64 (buffer : list float) : float :=
  PrimFloat.of_uint63 (Uint63.of_Z (Z.of_nat (length buffer))).

Definition calculateRMS64 (buffer : list float) : float :=
  PrimFloat.sqrt (PrimFloat.div (sumSquares64 buffer 0%float) (length64 buffer)).

Fixpoint peakLoop64 (buffer : list float) (i peakIndex : nat) (peakValue : float)
  : nat * float :=
  match buffer with
  | [] => (peakIndex, peakValue)
  | x :: rest =>
      let abs := PrimFloat.abs x in
      if PrimFloat.ltb peakValue abs then peakLoop64 rest (S i) i abs
      else peakLoop64 rest (S i) peakIndex peakValue
  end.

Fixpoint attackLoop64 (buffer : list float) (startThreshold : float) (attackIndex : nat)
  : nat :=
  match attackIndex with
  | O => O
  | S previous =>
      if PrimFloat.ltb startThreshold (PrimFloat.abs (nth attackIndex buffer 0%float))
      then attackLoop64 buffer startThreshold previous
      else attackIndex
  end.

(** [0.1] is the binary64 number nearest to one tenth. *)
Definition getAttackTime64 (buffer : list float) (threshold : float) : Z :=
  let '(peakIndex, peakValue) := peakLoop64 buffer 0 0 0%float in
  if PrimFloat.ltb peakValue threshold then (-1)%Z
  else
    let startThreshold := PrimFloat.mul threshold 0x1.999999999999ap-4%float in
    let attackIndex := attackLoop64 buffer startThreshold peakIndex in
    (Z.of_nat peakIndex - Z.of_nat attackIndex)%Z.

Fixpoint dominantLoop64 (frequencyData : list float) (i maxIndex : nat)
    (maxValue : float) : nat * float :=
  match frequencyData with
  | [] => (maxIndex, maxValue)
  | x :: rest =>
      if PrimFloat.ltb maxValue x then dominantLoop64 rest (S i) i x
      else dominantLoop64 rest (S i) maxIndex maxValue
  end.

(** An integer as a number: exact for the indexes of a buffer and for -1. *)
Definition number64 (z : Z) : float :=
  match z with
  | Z0 => 0%float
  | Zpos _ => PrimFloat.of_uint63 (Uint63.of_Z z)
  | Zneg p => PrimFloat.opp (PrimFloat.of_uint63 (Uint63.of_Z (Zpos p)))
  end.

Definition calculateDominantFrequency64
    (frequencyData : list float) (sampleRate fftSize : float) : float :=
  let maxIndex := fst (dominantLoop64 frequencyData 0 0 0%float) in
  PrimFloat.div (PrimFloat.mul (number64 (Z.of_nat maxIndex)) sampleRate) fftSize.
End AudioUtils64.

(** ** audio-processor.js: class AudioProcessor *)

(** What an [AudioProcessor] hands to [emit]. *)
Inductive ProcessorEvent : Type :=
| ProcStart
| ProcStop
| ProcClap
| ProcError (message : string).

(** A completed call: it returned, or it threw (a rejected promise is a throw
    at the [await]). *)
Inductive Completion (A : Type) : Type :=
| Returned (value : A)
| Threw (name message : string).
Arguments Returned {A} value.
Arguments Threw {A} name message.

Record ProcessorOptions : Type := {
  threshold : R;
  minDecibels : R;
  frequencyRange : R * R;
  minAttackTime : R;
  maxAttackTime : R;
  debug : bool
}.

(** The options object a caller may pass: a missing key is [None]. *)
Record ProcessorOptionsArg : Type := {
  arg_threshold : option R;
  arg_minDecibels : option R;
  arg_frequencyRange : option (R * R);
  arg_minAttackTime : option R;
  arg_maxAttackTime : option R;
  arg_debug : option bool
}.

Inductive ContextState : Type := suspended | running.

Record AudioContext : Type := {
  ctx_state : ContextState;
  sampleRate : R
}.

Record AnalyserNode : Type := {
  fftSize : nat;
  smoothingTimeConstant : R
}.

Definition frequencyBinCount (a : AnalyserNode) : nat := Nat.div (fftSize a) 2.

(** A granted microphone stream and the source node made from it, by handle. *)
Record MediaStream : Type := { stream_id : nat }.
Record MediaStreamSource : Type := { source_of : MediaStream; connectedTo : option AnalyserNode }.

Record AudioProcessor : Type := {
  options : ProcessorOptions;
  _isListening : bool;
  _audioContext : option AudioContext;
  _analyser : option AnalyserNode;
  _microphone : option MediaStreamSource;
  _mediaStream : option MediaStream;
  _lastClapTime : Z;
  _cooldownPeriod : Z;
  _analyserBufferLength : nat;
  _timeData : option (list R);
  _frequencyData : option (list R);
  _animationFrame : option positive
}.

Definition AudioProcessor_constructor (o : ProcessorOptionsArg) : AudioProcessor :=
  {| options :=
       {| threshold := default 0.3%R (arg_threshold o);
          minDecibels := default (-45)%R (arg_minDecibels o);
          frequencyRange := default (2000%R, 4000%R) (arg_frequencyRange o);
          minAttackTime := default 5%R (arg_minAttackTime o);
          maxAttackTime := default 20%R (arg_maxAttackTime o);
          debug := default false (arg_debug o) |};
     _isListening := false;
     _audioContext := None;
     _analyser := None;
     _microphone := None;
     _mediaStream := None;
     _lastClapTime := 0%Z;
     _cooldownPeriod := 300%Z;
     _analyserBufferLength := 0;
     _timeData := None;
     _frequencyData := None;
     _animationFrame := None |}.

(** *** start() *)

(** What the browser answers during one call of [start()]. *)
Record StartAnswers : Type := {
  ans_createAudioContext : Completion AudioContext;
  ans_resume : Completion unit;
  ans_getUserMedia : Completion MediaStream;
  ans_createMediaStreamSource : Completion unit;
  ans_requestAnimationFrame : positive
}.

(** [requestMicrophoneAccess]: the stream, or an [Error] with a message chosen
    by the name of what [getUserMedia] rejected with. *)
Definition requestMicrophoneAccess (getUserMedia : Completion MediaStream)
  : Completion MediaStream :=
  match getUserMedia with
  | Returned stream => Returned stream
  | Threw name message =>
      if bool_decide (name = "NotAllowedError"%string) then
        Threw "Error" "Microphone access denied by user. Please allow microphone access to use clap detection."
      else if bool_decide (name = "NotFoundError"%string) then
        Threw "Error" "No microphone detected on this device."
      else Threw "Error" ("Failed to access microphone: " +:+ message)
  end.

Definition set_audioContext (c : option AudioContext) (ap : AudioProcessor) : AudioProcessor :=
  {| options := options ap; _isListening := _isListening ap;
     _audioContext := c; _analyser := _analyser ap;
     _microphone := _microphone ap; _mediaStream := _mediaStream ap;
     _lastClapTime := _lastClapTime ap; _cooldownPeriod := _cooldownPeriod ap;
     _analyserBufferLength := _analyserBufferLength ap;
     _timeData := _timeData ap; _frequencyData := _frequencyData ap;
     _animationFrame := _animationFrame ap |}.

Definition set_mediaStream (m : option MediaStream) (ap : AudioProcessor) : AudioProcessor :=
  {| options := options ap; _isListening := _isListening ap;
     _audioContext := _audioContext ap; _analyser := _analyser ap;
     _microphone := _microphone ap; _mediaStream := m;
     _lastClapTime := _lastClapTime ap; _cooldownPeriod := _cooldownPeriod ap;
     _analyserBufferLength := _analyserBufferLength ap;
     _timeData := _timeData ap; _frequencyData := _frequencyData ap;
     _animationFrame := _animationFrame ap |}.

(** [_setupAudioProcessing], once the source node exists. *)
Definition _setupAudioProcessing (stream : MediaStream) (ap : AudioProcessor) : AudioProcessor :=
  let analyser := {| fftSize := 1024; smoothingTimeConstant := 0.2%R |} in
  let len := frequencyBinCount analyser in
  {| options := options ap; _isListening := _isListening ap;
     _audioContext := _audioContext ap; _analyser := Some analyser;
     _microphone := Some {| source_of := stream; connectedTo := Some analyser |};
     _mediaStream := _mediaStream ap;
     _lastClapTime := _lastClapTime ap; _cooldownPeriod := _cooldownPeriod ap;
     _analyserBufferLength := len;
     _timeData := Some (replicate len 0%R);
     _frequencyData := Some (replicate len 0%R);
     _animationFrame := _animationFrame ap |}.

Definition set_isListening (l : bool) (ap : AudioProcessor) : AudioProcessor :=
  {| options := options ap; _isListening := l;
     _audioContext := _audioContext ap; _analyser := _analyser ap;
     _microphone := _microphone ap; _mediaStream := _mediaStream ap;
     _lastClapTime := _lastClapTime ap; _cooldownPeriod := _cooldownPeriod ap;
     _analyserBufferLength := _analyserBufferLength ap;
     _timeData := _timeData ap; _frequencyData := _frequencyData ap;
     _animationFrame := _animationFrame ap |}.

(** [_startAnalysis()]: the first tick is requested,
    [this._animationFrame = requestAnimationFrame(analyze)]. *)
Definition _startAnalysis (frame : positive) (ap : AudioProcessor) : AudioProcessor :=
  {| options := options ap; _isListening := _isListening ap;
     _audioContext := _audioContext ap; _analyser := _analyser ap;
     _microphone := _microphone ap; _mediaStream := _mediaStream ap;
     _lastClapTime := _lastClapTime ap; _cooldownPeriod := _cooldownPeriod ap;
     _analyserBufferLength := _analyserBufferLength ap;
     _timeData := _timeData ap; _frequencyData := _frequencyData ap;
     _animationFrame := Some frame |}.

(** The [catch] block of [start()]: emit ['error'] and rethrow. *)
Definition startFailed (ap : AudioProcessor) (name message : string)
  : Completion unit * AudioProcessor * list ProcessorEvent :=
  (Threw name message, ap, [ProcError message]).

(** [start()].  The result, the processor afterwards and what it emitted. *)
Definition AudioProcessor_start (b : StartAnswers) (ap : AudioProcessor)
  : Completion unit * AudioProcessor * list ProcessorEvent :=
  if _isListening ap then (Returned (), ap, [])
  else
    (* if (!this._audioContext) this._audioContext = createAudioContext(); *)
    let created :=
      match _audioContext ap with
      | Some ctx => Returned (ctx, ap)
      | None =>
          match ans_createAudioContext b with
          | Returned ctx => Returned (ctx, set_audioContext (Some ctx) ap)
          | Threw n m => Threw n m
          end
      end in
    match created with
    | Threw n m => startFailed ap n m
    | Returned (ctx, ap1) =>
        (* if (state === 'suspended') await this._audioContext.resume(); *)
        let resumed :=
          match ctx_state ctx with
          | suspended =>
              match ans_resume b with
              | Returned _ =>
                  Returned (set_audioContext
                              (Some {| ctx_state := running; sampleRate := sampleRate ctx |}) ap1)
              | Threw n m => Threw n m
              end
          | running => Returned ap1
          end in
        match resumed with
        | Threw n m => startFailed ap1 n m
        | Returned ap2 =>
            (* this._mediaStream = await requestMicrophoneAccess(); *)
            match requestMicrophoneAccess (ans_getUserMedia b) with
            | Threw n m => startFailed ap2 n m
            | Returned stream =>
                let ap3 := set_mediaStream (Some stream) ap2 in
                (* this._setupAudioProcessing(); *)
                match ans_createMediaStreamSource b with
                | Threw n m => startFailed ap3 n m
                | Returned _ =>
                    let ap4 := _setupAudioProcessing stream ap3 in
                    (* this._isListening = true; this._startAnalysis(); *)
                    let ap5 := set_isListening true ap4 in
                    (Returned (), _startAnalysis (ans_requestAnimationFrame b) ap5,
                     [ProcStart])
                end
            end
        end
    end.

(** *** stop() *)

(** [stop()]: the requested frame is cancelled, the source node disconnected,
    the tracks of the stream stopped, and ['stop'] is emitted; on an idle
    processor nothing happens. *)
Definition AudioProcessor_stop (ap : AudioProcessor) : AudioProcessor * list ProcessorEvent :=
  if negb (_isListening ap) then (ap, [])
  else
    ({| options := options ap; _isListening := false;
        _audioContext := _audioContext ap; _analyser := _analyser ap;
        _microphone := None; _mediaStream := None;
        _lastClapTime := _lastClapTime ap; _cooldownPeriod := _cooldownPeriod ap;
        _analyserBufferLength := _analyserBufferLength ap;
        _timeData := _timeData ap; _frequencyData := _frequencyData ap;
        _animationFrame := None |},
     [ProcStop]).

(** *** The analysis tick: the closure [analyze] of [_startAnalysis] *)

(** What the browser answers during one tick: the analyser's time-domain
    samples, its spectrum (read only if asked for), the clock, and the handle of
    the next requested frame. *)
Record Tick : Type := {
  tick_timeData : list R;
  tick_frequencyData : list R;
  tick_now : Z;
  tick_nextFrame : positive
}.

(** The calls one tick makes, in order. *)
Inductive Call : Type :=
| Call_getFloatTimeDomainData
| Call_calculateRMS
| Call_amplitudeToDecibels
| Call_getAttackTime
| Call_getFloatFrequencyData
| Call_calculateDominantFrequency
| Call_Date_now
| Call_onClapDetected
| Call_requestAnimationFrame.

(** The processor after a tick: the buffers hold what was read, the clap time
    is [lastClapTime] and the next frame is requested. *)
Definition afterTick (timeData : list R) (frequencyData : option (list R))
    (lastClapTime : Z) (frame : positive) (ap : AudioProcessor) : AudioProcessor :=
  {| options := options ap; _isListening := _isListening ap;
     _audioContext := _audioContext ap; _analyser := _analyser ap;
     _microphone := _microphone ap; _mediaStream := _mediaStream ap;
     _lastClapTime := lastClapTime; _cooldownPeriod := _cooldownPeriod ap;
     _analyserBufferLength := _analyserBufferLength ap;
     _timeData := Some timeData;
     _frequencyData := from_option Some (_frequencyData ap) frequencyData;
     _animationFrame := Some frame |}.

(** [db > minDecibels && rms > threshold]. *)
Definition loudEnough (o : ProcessorOptions) (timeData : list R) : bool :=
  let rms := calculateRMS timeData in
  let db := amplitudeToDecibels rms in
  bool_decide (db > minDecibels o)%R && bool_decide (rms > threshold o)%R.

Definition isInFrequencyRange (o : ProcessorOptions) (dominantFreq : R) : bool :=
  bool_decide (dominantFreq >= fst (frequencyRange o))%R
  && bool_decide (dominantFreq <= snd (frequencyRange o))%R.

Definition hasCorrectAttackTime (o : ProcessorOptions) (attackTime : Z) : bool :=
  bool_decide (IZR attackTime >= minAttackTime o)%R
  && bool_decide (IZR attackTime <= maxAttackTime o)%R.

(** One run of [analyze], with exact arithmetic; the decision with the numbers
    of the source is [detectsClap64] below.  [None] is the TypeError of
    reading a property of a [null] analyser or audio context; a listening
    processor has both. *)
Definition analyze (ap : AudioProcessor) (t : Tick)
  : option (AudioProcessor * list ProcessorEvent * list Call) :=
  if negb (_isListening ap) then Some (ap, [], [])
  else
    analyser ← _analyser ap;
    let timeData := tick_timeData t in
    if loudEnough (options ap) timeData then
      let attackTime := getAttackTime timeData (threshold (options ap)) in
      let frequencyData := tick_frequencyData t in
      context ← _audioContext ap;
      let dominantFreq :=
        calculateDominantFrequency frequencyData (sampleRate context)
                                   (INR (fftSize analyser)) in
      let now := tick_now t in
      let timeSinceLastClap := (now - _lastClapTime ap)%Z in
      if isInFrequencyRange (options ap) dominantFreq
         && hasCorrectAttackTime (options ap) attackTime
         && bool_decide (timeSinceLastClap > _cooldownPeriod ap)%Z
      then
        Some (afterTick timeData (Some frequencyData) now (tick_nextFrame t) ap,
              [ProcClap],
              [Call_getFloatTimeDomainData; Call_calculateRMS; Call_amplitudeToDecibels;
               Call_getAttackTime; Call_getFloatFrequencyData;
               Call_calculateDominantFrequency; Call_Date_now; Call_onClapDetected;
               Call_requestAnimationFrame])
      else
        Some (afterTick timeData (Some frequencyData) (_lastClapTime ap) (tick_nextFrame t) ap,
              [],
              [Call_getFloatTimeDomainData; Call_calculateRMS; Call_amplitudeToDecibels;
               Call_getAttackTime; Call_getFloatFrequencyData;
               Call_calculateDominantFrequency; Call_Date_now;
               Call_requestAnimationFrame])
    else
      Some (afterTick timeData None (_lastClapTime ap) (tick_nextFrame t) ap,
            [],
            [Call_getFloatTimeDomainData; Call_calculateRMS; Call_amplitudeToDecibels;
             Call_requestAnimationFrame]).

(** Ticks in arrival order; the emissions of each tick are kept apart. *)
Fixpoint analyzeAll (ap : AudioProcessor) (ticks : list Tick)
  : option (AudioProcessor * list (list ProcessorEvent)) :=
  match ticks with
  | [] => Some (ap, [])
  | t :: rest =>
      '(ap1, out, _) ← analyze ap t;
      '(ap2, outs) ← analyzeAll ap1 rest;
      Some (ap2, out :: outs)
  end.

(** *** The decision of a tick with the numbers of the source

    The conditions of [analyze] on binary64 numbers: the gate
    [db > minDecibels && rms > threshold] and, inside it, the test
    [isInFrequencyRange && hasCorrectAttackTime && timeSinceLastClap >
    cooldownPeriod] under which [_onClapDetected] is called. *)

Record ProcessorOptions64 : Type := {
  threshold64 : PrimFloat.float;
  minDecibels64 : PrimFloat.float;
  frequencyRange64 : PrimFloat.float * PrimFloat.float;
  minAttackTime64 : PrimFloat.float;
  maxAttackTime64 : PrimFloat.float
}.

Record Tick64 : Type := {
  tick64_timeData : list PrimFloat.float;
  tick64_frequencyData : list PrimFloat.float;
  tick64_now : Z
}.

Section Analysis64.
Import PrimFloat.

(** [Math.log10]: ECMAScript asks for an approximation that the implementation
    chooses. *)
Variable Math_log10_64 : float -> float.

(** [0.0000001], [-100] and [20] as binary64 numbers. *)
Definition amplitudeToDecibels64 (amplitude : float) : float :=
  if PrimFloat.ltb amplitude 0x1.ad7f29abcaf48p-24%float then PrimFloat.opp 100%float
  else PrimFloat.mul 20%float (Math_log10_64 amplitude).

Definition loudEnough64 (o : ProcessorOptions64) (timeData : list float) : bool :=
  let rms := calculateRMS64 timeData in
  let db := amplitudeToDecibels64 rms in
  PrimFloat.ltb (minDecibels64 o) db && PrimFloat.ltb (threshold64 o) rms.

Definition isInFrequencyRange64 (o : ProcessorOptions64) (dominantFreq : float) : bool :=
  PrimFloat.leb (fst (frequencyRange64 o)) dominantFreq
  && PrimFloat.leb dominantFreq (snd (frequencyRange64 o)).

Definition hasCorrectAttackTime64 (o : ProcessorOptions64) (attackTime : Z) : bool :=
  PrimFloat.leb (minAttackTime64 o) (number64 attackTime)
  && PrimFloat.leb (number64 attackTime) (maxAttackTime64 o).

(** Whether the tick [t] of a listening processor calls [_onClapDetected]. *)
Definition detectsClap64 (o : ProcessorOptions64) (sampleRate fftSize : float)
    (lastClapTime cooldownPeriod : Z) (t : Tick64) : bool :=
  if loudEnough64 o (tick64_timeData t) then
    let attackTime := getAttackTime64 (tick64_timeData t) (threshold64 o) in
    let dominantFreq :=
      calculateDominantFrequency64 (tick64_frequencyData t) sampleRate fftSize in
    let timeSinceLastClap := (tick64_now t - lastClapTime)%Z in
    isInFrequencyRange64 o dominantFreq
    && hasCorrectAttackTime64 o attackTime
    && bool_decide (timeSinceLastClap > cooldownPeriod)%Z
  else false.
End Analysis64.

(** ** index.js: class ClapSwitch *)

Record ClapSwitchOptions : Type := {
  requiredClaps : Z;
  clapTimeout : Z;
  clapInterval : Z;
  cs_threshold : R;
  cs_minDecibels : R;
  cs_frequencyRange : R * R;
  autoStart : bool;
  statePersistence : bool;
  cs_debug : bool
}.

(** The options object a caller may pass: a missing key is [None]. *)
Record ClapSwitchOptionsArg : Type := {
  arg_requiredClaps : option Z;
  arg_clapTimeout : option Z;
  arg_clapInterval : option Z;
  arg_cs_threshold : option R;
  arg_cs_minDecibels : option R;
  arg_cs_frequencyRange : option (R * R);
  arg_autoStart : option bool;
  arg_statePersistence : option bool;
  arg_cs_debug : option bool
}.

(** [{ requiredClaps: 2, clapTimeout: 1000, ..., ...options }]. *)
Definition mergeOptions (o : ClapSwitchOptionsArg) : ClapSwitchOptions :=
  {| requiredClaps := default 2%Z (arg_requiredClaps o);
     clapTimeout := default 1000%Z (arg_clapTimeout o);
     clapInterval := default 500%Z (arg_clapInterval o);
     cs_threshold := default 0.3%R (arg_cs_threshold o);
     cs_minDecibels := default (-45)%R (arg_cs_minDecibels o);
     cs_frequencyRange := default (2000%R, 4000%R) (arg_cs_frequencyRange o);
     autoStart := default false (arg_autoStart o);
     statePersistence := default false (arg_statePersistence o);
     cs_debug := default false (arg_cs_debug o) |}.

Record ClapSwitch : Type := {
  cs_options : ClapSwitchOptions;
  _audioProcessor : AudioProcessor;
  _stateManager : StateManager;
  _clapCount : Z;
  _clapTimer : option positive
}.

(** What the constructor has made when it comes to its listeners: an instance
    with its components, or, where the Web Audio API is missing, the early
    [return] with only the options set. *)
Inductive Constructed : Type :=
| Ready (cs : ClapSwitch)
| Unsupported (o : ClapSwitchOptions).

(** The constructor up to its call of [_setupEventListeners()]: the options,
    the check for the Web Audio API, the two components and the fields of the
    pattern machine; the instance so far and what was emitted.  The whole
    constructor is [ClapSwitch_new] below. *)
Definition ClapSwitch_components
    (isAudioSupported : bool) (localStorage : Storage) (o : ClapSwitchOptionsArg)
  : Constructed * list Emitted :=
  let opts := mergeOptions o in
  if negb isAudioSupported then
    (Unsupported opts,
     [EmitError "Web Audio API is not supported in this browser."])
  else
    let processor :=
      AudioProcessor_constructor
        {| arg_threshold := Some (cs_threshold opts);
           arg_minDecibels := Some (cs_minDecibels opts);
           arg_frequencyRange := Some (cs_frequencyRange opts);
           arg_minAttackTime := None;
           arg_maxAttackTime := None;
           arg_debug := Some (cs_debug opts) |} in
    let manager :=
      StateManager_constructor
        {| arg_sm_statePersistence := Some (statePersistence opts);
           arg_sm_storageKey := None;
           arg_sm_initialState := None |} localStorage in
    (Ready {| cs_options := opts;
              _audioProcessor := processor;
              _stateManager := manager;
              _clapCount := 0%Z;
              _clapTimer := None |},
     []).

(** *** The pattern machine in its browser *)

(** The switch together with the browser state its pattern logic touches:
    [localStorage], and the table of pending [setTimeout] callbacks set by
    [_handleClap] (handle to due time).  Handles are positive, hence truthy,
    and are never handed out twice. *)
Record World : Type := {
  switch : ClapSwitch;
  localStorage : Storage;
  timers : gmap positive Z;
  nextTimer : positive
}.

Definition initialWorld (cs : ClapSwitch) (ls : Storage) (firstTimer : positive) : World :=
  {| switch := cs; localStorage := ls; timers := ∅; nextTimer := firstTimer |}.

(** [if (this._clapTimer) clearTimeout(this._clapTimer)]: clearing a handle
    that has fired or was cleared does nothing. *)
Definition clearClapTimer (clapTimer : option positive) (pending : gmap positive Z)
  : gmap positive Z :=
  match clapTimer with
  | Some id => delete id pending
  | None => pending
  end.

(** [_handleClap()], called at time [now]. *)
Definition _handleClap (now : Z) (w : World) : World * list Emitted :=
  let cs := switch w in
  let clapCount := (_clapCount cs + 1)%Z in
  let pending := clearClapTimer (_clapTimer cs) (timers w) in
  if bool_decide (clapCount >= requiredClaps (cs_options cs))%Z then
    let '(_, manager, storage, toggled) :=
      StateManager_toggle (_stateManager cs) (localStorage w) in
    ({| switch := {| cs_options := cs_options cs;
                     _audioProcessor := _audioProcessor cs;
                     _stateManager := manager;
                     _clapCount := 0%Z;
                     _clapTimer := _clapTimer cs |};
        localStorage := storage;
        timers := pending;
        nextTimer := nextTimer w |},
     EmitPattern clapCount :: toggled)
  else
    let id := nextTimer w in
    ({| switch := {| cs_options := cs_options cs;
                     _audioProcessor := _audioProcessor cs;
                     _stateManager := _stateManager cs;
                     _clapCount := clapCount;
                     _clapTimer := Some id |};
        localStorage := localStorage w;
        timers := <[id := (now + Z.max 0 (clapTimeout (cs_options cs)))%Z]> pending;
        nextTimer := Pos.succ id |},
     []).

(** The listener on the processor's ['clap']:
    [this.emit('clap', this._clapCount + 1); this._handleClap()]. *)
Definition onClap (now : Z) (w : World) : World * list Emitted :=
  let '(w', out) := _handleClap now w in
  (w', EmitClap (_clapCount (switch w) + 1) :: out).

(** The callback given to [setTimeout] in [_handleClap]. *)
Definition clapTimerCallback (w : World) : World * list Emitted :=
  let cs := switch w in
  ({| switch := {| cs_options := cs_options cs;
                   _audioProcessor := _audioProcessor cs;
                   _stateManager := _stateManager cs;
                   _clapCount := 0%Z;
                   _clapTimer := _clapTimer cs |};
      localStorage := localStorage w;
      timers := timers w;
      nextTimer := nextTimer w |},
   if bool_decide (_clapCount cs > 0)%Z then [EmitPatternCanceled (_clapCount cs)] else []).

(** The browser runs the callback of the pending timer [id] and forgets it. *)
Definition fireTimer (id : positive) (w : World) : option (World * list Emitted) :=
  match timers w !! id with
  | Some _ =>
      Some (clapTimerCallback
              {| switch := switch w; localStorage := localStorage w;
                 timers := delete id (timers w); nextTimer := nextTimer w |})
  | None => None
  end.

(** What can happen to the pattern machine: the processor reports a clap, or a
    pending timeout fires. *)
Inductive Event : Type :=
| ClapDetected (now : Z)
| TimeoutFires (id : positive).

Definition step (w : World) (e : Event) : option (World * list Emitted) :=
  match e with
  | ClapDetected now => Some (onClap now w)
  | TimeoutFires id => fireTimer id w
  end.

Fixpoint run (w : World) (events : list Event) : option (World * list Emitted) :=
  match events with
  | [] => Some (w, [])
  | e :: rest =>
      '(w1, out1) ← step w e;
      '(w2, out2) ← run w1 rest;
      Some (w2, out1 ++ out2)
  end.

(** Time passes until [until] with no clap: every pending timeout due by then
    fires, the earliest first, each at its due time. *)
Definition dueNoLater (a b : positive * Z) : Prop := (a.2 <= b.2)%Z.

#[global] Instance dueNoLater_decision a b : Decision (dueNoLater a b) :=
  Z_le_dec a.2 b.2.

Definition dueBy (until : Z) (pending : gmap positive Z) : list (positive * Z) :=
  merge_sort dueNoLater
             (filter (fun p => p.2 <= until)%Z (map_to_list pending)).

Definition fireDue (acc : World * list (Z * Emitted)) (timer : positive * Z)
  : World * list (Z * Emitted) :=
  match fireTimer timer.1 acc.1 with
  | Some (w', out) => (w', acc.2 ++ map (pair timer.2) out)
  | None => acc
  end.

Definition elapse (until : Z) (w : World) : World * list (Z * Emitted) :=
  foldl fireDue (w, []) (dueBy until (timers w)).

(** ** utils/event-emitter.js: class EventEmitter *)

(** The functions that get registered as listeners, told apart as JavaScript
    tells functions apart, by identity: a function of the caller; the
    [onceWrapper] closure that a call of [once] makes (every call makes a new
    one, numbered by [serial]) around the caller's function [callback] for
    [event]; and the three closures of [ClapSwitch._setupEventListeners]. *)
Inductive Callback : Type :=
| UserCallback (id : nat)
| OnceWrapper (serial : nat) (event : string) (callback : nat)
| ForwardToggle
| ForwardError
| ClapListener.

#[global] Instance Callback_eq_decision : EqDecision Callback.
Proof. solve_decision. Defined.

(** [this.events]: the own properties of the object, event names to arrays
    of listeners. *)
Abbreviation Listeners := (gmap string (list Callback)).

(** The property names that the object [{}] inherits from [Object.prototype]:
    under these [this.events[event]] is a function or an object, truthy and
    not an array, whatever was registered. *)
Definition inheritedNames : list string :=
  ["constructor"; "hasOwnProperty"; "isPrototypeOf"; "propertyIsEnumerable";
   "toLocaleString"; "toString"; "valueOf"; "__proto__";
   "__defineGetter__"; "__defineSetter__"; "__lookupGetter__";
   "__lookupSetter__"]%string.

Definition inheritedName (event : string) : bool :=
  bool_decide (event ∈ inheritedNames).

(** The body of [on] where [this.events[event]] is absent or an array. *)
Definition pushListener (event : string) (callback : Callback) (events : Listeners)
  : Listeners :=
  <[event := default [] (events !! event) ++ [callback]]> events.

(** [on(event, callback)].  [None] is the TypeError of calling [push] on what
    an inherited name gives. *)
Definition EventEmitter_on (event : string) (callback : Callback) (events : Listeners)
  : option Listeners :=
  if inheritedName event then None
  else Some (pushListener event callback events).

(** The body of [off] where [this.events[event]] is absent or an array;
    [callback] is [None] when it is omitted. *)
Definition dropListeners (event : string) (callback : option Callback)
    (events : Listeners) : Listeners :=
  match events !! event with
  | None => events
  | Some registered =>
      match callback with
      | Some cb => <[event := filter (fun c => c ≠ cb) registered]> events
      | None => delete event events
      end
  end.

(** [off(event, callback)].  Under an inherited name, [None] is the TypeError
    of calling [filter]; without a callback the [delete] of a property that is
    not the object's own does nothing. *)
Definition EventEmitter_off (event : string) (callback : option Callback)
    (events : Listeners) : option Listeners :=
  if inheritedName event then
    match callback with
    | Some _ => None
    | None => Some events
    end
  else Some (dropListeners event callback events).

(** One turn of the [forEach] of [emit]: the listener is called.  An
    [onceWrapper] first removes itself, [this.off(event, onceWrapper)], then
    calls its function; where that [off] throws, the [catch] of [emit] takes
    it and the function is not called.  The functions of the caller are taken
    not to call back into the emitter while they run; what they throw is
    caught and logged by [emit]. *)
Definition invoke (acc : Listeners * list Callback) (cb : Callback)
  : Listeners * list Callback :=
  match cb with
  | OnceWrapper _ event callback =>
      match EventEmitter_off event (Some cb) acc.1 with
      | Some events => (events, acc.2 ++ [UserCallback callback])
      | None => acc
      end
  | _ => (acc.1, acc.2 ++ [cb])
  end.

(** The body of [emit] where [this.events[event]] is absent or an array: the
    listeners afterwards, and the functions that ran, in order.  [forEach]
    walks the array as it was when [emit] began. *)
Definition callListeners (event : string) (events : Listeners)
  : Listeners * list Callback :=
  match events !! event with
  | None => (events, [])
  | Some registered => foldl invoke (events, []) registered
  end.

(** [emit(event, ...args)].  [None] is the TypeError of calling [forEach] on
    what an inherited name gives. *)
Definition EventEmitter_emit (event : string) (events : Listeners)
  : option (Listeners * list Callback) :=
  if inheritedName event then None
  else Some (callListeners event events).

(** [once(event, callback)] on an instance whose [on] is [EventEmitter]'s. *)
Definition EventEmitter_once (serial : nat) (event : string) (callback : nat)
    (events : Listeners) : option Listeners :=
  EventEmitter_on event (OnceWrapper serial event callback) events.

(** ** utils/audio-utils.js: hasMicrophoneSupport *)

(** [hasMicrophoneSupport()].  [enumerateDevices] is [None] where
    [navigator.mediaDevices] or its [enumerateDevices] is missing, and otherwise
    what the call completes with: the [kind] of every device, or a throw. *)
Definition hasMicrophoneSupport (enumerateDevices : option (Completion (list string)))
  : bool :=
  match enumerateDevices with
  | None => false
  | Some (Returned kinds) => bool_decide (Exists (fun kind => kind = "audioinput"%string) kinds)
  | Some (Threw _ _) => false
  end.

(** ** state-manager.js: the rest of the class *)

Definition StateManager_isOn (sm : StateManager) : bool := _state sm.

(** [on()] and [off()].  The class declares them with these names, so on a
    [StateManager] they are what [on] and [off] mean: whatever arguments a
    caller passes are ignored. *)
Definition StateManager_on (sm : StateManager) (localStorage : Storage)
  : bool * StateManager * Storage * list Emitted :=
  StateManager_setState true sm localStorage.

Definition StateManager_off (sm : StateManager) (localStorage : Storage)
  : bool * StateManager * Storage * list Emitted :=
  StateManager_setState false sm localStorage.

(** The name under which an emission is handed to [emit]. *)
Definition eventName (e : Emitted) : string :=
  match e with
  | EmitStart => "start"
  | EmitStop => "stop"
  | EmitClap _ => "clap"
  | EmitPattern _ => "pattern"
  | EmitPatternCanceled _ => "pattern-canceled"
  | EmitToggle _ => "toggle"
  | EmitError _ => "error"
  end.

Definition processorEventName (e : ProcessorEvent) : string :=
  match e with
  | ProcStart => "start"
  | ProcStop => "stop"
  | ProcClap => "clap"
  | ProcError _ => "error"
  end.

(** The calls a holder of a [StateManager] can make that reach [setState] or
    the emitter interface.  [once] is the one inherited from [EventEmitter]. *)
Inductive ManagerCall : Type :=
| Manager_setState (state : bool)
| Manager_toggle
| Manager_on (event : string) (callback : Callback)
| Manager_off (event : string) (callback : option Callback)
| Manager_once (serial : nat) (event : string) (callback : nat).

(** A [StateManager] with the browser's [localStorage] and its listeners
    [this.events], and what has happened so far: what it handed to [emit] and
    the functions that ran. *)
Record ManagerState : Type := {
  ms_manager : StateManager;
  ms_localStorage : Storage;
  ms_events : Listeners;
  ms_emitted : list Emitted;
  ms_ran : list Callback
}.

(** One call.  What [setState] hands to [emit] goes through the inherited
    [emit]; the inherited [once] ends in [return this.on(event, onceWrapper)],
    which on a [StateManager] is the [on()] of the class. *)
Definition StateManager_call (s : ManagerState) (c : ManagerCall) : ManagerState :=
  let '(_, sm, ls, out) :=
    match c with
    | Manager_setState state => StateManager_setState state (ms_manager s) (ms_localStorage s)
    | Manager_toggle => StateManager_toggle (ms_manager s) (ms_localStorage s)
    | Manager_on _ _ => StateManager_on (ms_manager s) (ms_localStorage s)
    | Manager_off _ _ => StateManager_off (ms_manager s) (ms_localStorage s)
    | Manager_once _ _ _ => StateManager_on (ms_manager s) (ms_localStorage s)
    end in
  let heard :=
    foldl (fun acc e =>
             let r := callListeners (eventName e) acc.1 in (r.1, acc.2 ++ r.2))
          (ms_events s, []) out in
  {| ms_manager := sm; ms_localStorage := ls;
     ms_events := heard.1; ms_emitted := ms_emitted s ++ out;
     ms_ran := ms_ran s ++ heard.2 |}.

(** [new StateManager(options)], before any call. *)
Definition StateManager_new (a : StateManagerOptionsArg) (localStorage : Storage)
  : ManagerState :=
  {| ms_manager := StateManager_constructor a localStorage;
     ms_localStorage := localStorage; ms_events := ∅;
     ms_emitted := []; ms_ran := [] |}.

(** ** index.js: the wired ClapSwitch *)

(** A [ClapSwitch] whose constructor found the Web Audio API, with the
    listeners of the three emitters it consists of: its own [this.events],
    those of its [StateManager] and those of its [AudioProcessor]. *)
Record Switch : Type := {
  sw_world : World;
  sw_events : Listeners;
  sw_managerEvents : Listeners;
  sw_processorEvents : Listeners
}.

(** What happens, in order: an emitter is handed an emission, a registered
    function runs. *)
Inductive Trace : Type :=
| ProcessorEmits (e : ProcessorEvent)
| ManagerEmits (e : Emitted)
| SwitchEmits (e : Emitted)
| Runs (f : Callback).

Definition set_world (w : World) (x : Switch) : Switch :=
  {| sw_world := w; sw_events := sw_events x;
     sw_managerEvents := sw_managerEvents x;
     sw_processorEvents := sw_processorEvents x |}.

Definition set_events (events : Listeners) (x : Switch) : Switch :=
  {| sw_world := sw_world x; sw_events := events;
     sw_managerEvents := sw_managerEvents x;
     sw_processorEvents := sw_processorEvents x |}.

Definition set_managerEvents (events : Listeners) (x : Switch) : Switch :=
  {| sw_world := sw_world x; sw_events := sw_events x;
     sw_managerEvents := events;
     sw_processorEvents := sw_processorEvents x |}.

Definition set_processorEvents (events : Listeners) (x : Switch) : Switch :=
  {| sw_world := sw_world x; sw_events := sw_events x;
     sw_managerEvents := sw_managerEvents x;
     sw_processorEvents := events |}.

Definition set_stateManager (sm : StateManager) (ls : Storage) (w : World) : World :=
  {| switch := {| cs_options := cs_options (switch w);
                  _audioProcessor := _audioProcessor (switch w);
                  _stateManager := sm;
                  _clapCount := _clapCount (switch w);
                  _clapTimer := _clapTimer (switch w) |};
     localStorage := ls; timers := timers w; nextTimer := nextTimer w |}.

Definition set_audioProcessor (ap : AudioProcessor) (w : World) : World :=
  {| switch := {| cs_options := cs_options (switch w);
                  _audioProcessor := ap;
                  _stateManager := _stateManager (switch w);
                  _clapCount := _clapCount (switch w);
                  _clapTimer := _clapTimer (switch w) |};
     localStorage := localStorage w; timers := timers w; nextTimer := nextTimer w |}.

(** [this.emit(...)] of the switch.  The names under which the switch, its
    state manager and its processor emit (['start'], ['stop'], ['clap'],
    ['pattern'], ['pattern-canceled'], ['toggle'], ['error']) are not
    inherited ones, so their [emit] is [callListeners]. *)
Definition switchEmits (e : Emitted) (x : Switch) : Switch * list Trace :=
  let r := callListeners (eventName e) (sw_events x) in
  (set_events r.1 x, SwitchEmits e :: map Runs r.2).

(** A listener of the state manager runs.  [ForwardToggle] is
    [isOn => { this.emit('toggle', isOn); }]. *)
Definition managerListenerRuns (e : Emitted) (acc : Switch * list Trace) (f : Callback)
  : Switch * list Trace :=
  match f with
  | ForwardToggle =>
      let r := switchEmits e acc.1 in (r.1, acc.2 ++ Runs f :: r.2)
  | _ => (acc.1, acc.2 ++ [Runs f])
  end.

(** [emit(...)] of the state manager. *)
Definition managerEmits (e : Emitted) (x : Switch) : Switch * list Trace :=
  let r := callListeners (eventName e) (sw_managerEvents x) in
  foldl (managerListenerRuns e) (set_managerEvents r.1 x, [ManagerEmits e]) r.2.

(** The emissions of the pattern machine reach their emitter: ['toggle'] is
    handed to [emit] by the state manager, everything else by the switch. *)
Definition announce (acc : Switch * list Trace) (e : Emitted) : Switch * list Trace :=
  let r := match e with
           | EmitToggle _ => managerEmits e acc.1
           | _ => switchEmits e acc.1
           end in
  (r.1, acc.2 ++ r.2).

Definition announceAll (out : list Emitted) (x : Switch) : Switch * list Trace :=
  foldl announce (x, []) out.

(** A listener of the processor runs at time [now].  [ClapListener] is
    [() => { this.emit('clap', this._clapCount + 1); this._handleClap(); }] and
    [ForwardError] is [error => { this.emit('error', error); }]; a function of
    the caller, or a closure run for an event it is not registered for by
    [_setupEventListeners], is recorded and has no effect on the switch. *)
Definition processorListenerRuns (now : Z) (e : ProcessorEvent)
    (acc : Switch * list Trace) (f : Callback) : Switch * list Trace :=
  match f, e with
  | ClapListener, _ =>
      let '(w, out) := onClap now (sw_world acc.1) in
      let r := announceAll out (set_world w acc.1) in
      (r.1, acc.2 ++ Runs f :: r.2)
  | ForwardError, ProcError message =>
      let r := switchEmits (EmitError message) acc.1 in
      (r.1, acc.2 ++ Runs f :: r.2)
  | _, _ => (acc.1, acc.2 ++ [Runs f])
  end.

(** [emit(...)] of the processor. *)
Definition processorEmits (now : Z) (e : ProcessorEvent) (x : Switch)
  : Switch * list Trace :=
  let r := callListeners (processorEventName e) (sw_processorEvents x) in
  foldl (processorListenerRuns now e)
        (set_processorEvents r.1 x, [ProcessorEmits e]) r.2.

Definition processorEmitsAll (now : Z) (out : list ProcessorEvent) (x : Switch)
  : Switch * list Trace :=
  foldl (fun acc e => let r := processorEmits now e acc.1 in (r.1, acc.2 ++ r.2))
        (x, []) out.

(** [_setupEventListeners()].  [this._stateManager.on('toggle', ...)] is the
    [on()] of [StateManager]; the processor inherits [on] from
    [EventEmitter]. *)
Definition _setupEventListeners (x : Switch) : Switch * list Trace :=
  let w := sw_world x in
  let '(_, sm, ls, out) := StateManager_on (_stateManager (switch w)) (localStorage w) in
  let r := announceAll out (set_world (set_stateManager sm ls w) x) in
  (set_processorEvents
     (pushListener "clap" ClapListener
        (pushListener "error" ForwardError (sw_processorEvents r.1))) r.1,
   r.2).

(** [new ClapSwitch(options)], the whole constructor: the instance if the Web
    Audio API was found, what happened, and the delay of the scheduled
    [start()], if any.  [firstTimer] is the handle the browser gives to the
    first timeout of the pattern machine. *)
Definition ClapSwitch_new (isAudioSupported : bool) (localStorage : Storage)
    (o : ClapSwitchOptionsArg) (firstTimer : positive)
  : option Switch * list Trace * option Z :=
  match ClapSwitch_components isAudioSupported localStorage o with
  | (Ready cs, out) =>
      let r := announceAll out
                 {| sw_world := initialWorld cs localStorage firstTimer;
                    sw_events := ∅; sw_managerEvents := ∅;
                    sw_processorEvents := ∅ |} in
      let s := _setupEventListeners r.1 in
      (Some s.1, r.2 ++ s.2,
       if autoStart (cs_options cs) then Some 100%Z else None)
  | (Unsupported _, out) => (None, map SwitchEmits out, None)
  end.

Definition ClapSwitch_isOn (x : Switch) : bool :=
  StateManager_isOn (_stateManager (switch (sw_world x))).

Definition AudioProcessor_isListening (ap : AudioProcessor) : bool := _isListening ap.

Definition ClapSwitch_isListening (x : Switch) : bool :=
  AudioProcessor_isListening (_audioProcessor (switch (sw_world x))).

(** A call of the state manager made through the switch: the manager and the
    storage are updated and what it emitted is delivered. *)
Definition throughManager
    (call : StateManager -> Storage -> bool * StateManager * Storage * list Emitted)
    (x : Switch) : bool * Switch * list Trace :=
  let w := sw_world x in
  let '(result, sm, ls, out) := call (_stateManager (switch w)) (localStorage w) in
  let r := announceAll out (set_world (set_stateManager sm ls w) x) in
  (result, r.1, r.2).

(** [toggle()], [on()] and [off()] of the switch.  As on the state manager,
    [on] and [off] are the methods of the class, not those of [EventEmitter]:
    [on(event, callback)] is [on()]. *)
Definition ClapSwitch_toggle (x : Switch) : bool * Switch * list Trace :=
  throughManager StateManager_toggle x.
Definition ClapSwitch_on (x : Switch) : bool * Switch * list Trace :=
  throughManager StateManager_on x.
Definition ClapSwitch_off (x : Switch) : bool * Switch * list Trace :=
  throughManager StateManager_off x.

(** [start()], at time [now], on an instance whose [_supportsWebAudio] is
    true. *)
Definition ClapSwitch_start (now : Z) (enumerateDevices : option (Completion (list string)))
    (b : StartAnswers) (x : Switch) : Completion unit * Switch * list Trace :=
  if negb (hasMicrophoneSupport enumerateDevices) then
    let r := switchEmits (EmitError "No microphone detected on this device.") x in
    (Threw "Error" "No microphone detected on this device.", r.1, r.2)
  else
    let '(result, ap, out) :=
      AudioProcessor_start b (_audioProcessor (switch (sw_world x))) in
    let r := processorEmitsAll now out (set_world (set_audioProcessor ap (sw_world x)) x) in
    match result with
    | Returned _ =>
        let s := switchEmits EmitStart r.1 in (Returned (), s.1, r.2 ++ s.2)
    | Threw name message =>
        let s := switchEmits (EmitError message) r.1 in
        (Threw name message, s.1, r.2 ++ s.2)
    end.

(** [stop()], at time [now]. *)
Definition ClapSwitch_stop (now : Z) (x : Switch) : Switch * list Trace :=
  let '(ap, out) := AudioProcessor_stop (_audioProcessor (switch (sw_world x))) in
  let r := processorEmitsAll now out (set_world (set_audioProcessor ap (sw_world x)) x) in
  let s := switchEmits EmitStop r.1 in
  (s.1, r.2 ++ s.2).

(** The browser runs a requested [analyze] of the switch's processor. *)
Definition Switch_analyze (t : Tick) (x : Switch) : option (Switch * list Trace) :=
  '(ap, out, _) ← analyze (_audioProcessor (switch (sw_world x))) t;
  Some (processorEmitsAll (tick_now t) out
          (set_world (set_audioProcessor ap (sw_world x)) x)).

(** The browser runs the pending timeout [id] of the pattern machine. *)
Definition Switch_fireTimer (id : positive) (x : Switch) : option (Switch * list Trace) :=
  '(w, out) ← fireTimer id (sw_world x);
  Some (announceAll out (set_world w x)).

(** What can happen to a constructed switch: a call of its interface (with
    [once] the one inherited from [EventEmitter]), or the browser runs a
    requested analysis or a pending timeout. *)
Inductive SwitchEvent : Type :=
| Calls_on (event : string) (callback : Callback)
| Calls_off (event : string) (callback : option Callback)
| Calls_once (serial : nat) (event : string) (callback : nat)
| Calls_toggle
| Calls_start (now : Z) (enumerateDevices : option (Completion (list string)))
              (b : StartAnswers)
| Calls_stop (now : Z)
| Analysis (t : Tick)
| Timeout (id : positive).

Definition Switch_step (x : Switch) (e : SwitchEvent) : option (Switch * list Trace) :=
  match e with
  | Calls_on _ _ => let r := ClapSwitch_on x in Some (r.1.2, r.2)
  | Calls_off _ _ => let r := ClapSwitch_off x in Some (r.1.2, r.2)
  | Calls_once _ _ _ => let r := ClapSwitch_on x in Some (r.1.2, r.2)
  | Calls_toggle => let r := ClapSwitch_toggle x in Some (r.1.2, r.2)
  | Calls_start now enumerateDevices b =>
      let r := ClapSwitch_start now enumerateDevices b x in Some (r.1.2, r.2)
  | Calls_stop now => Some (ClapSwitch_stop now x)
  | Analysis t => Switch_analyze t x
  | Timeout id => Switch_fireTimer id x
  end.

Fixpoint Switch_run (x : Switch) (events : list SwitchEvent)
  : option (Switch * list Trace) :=
  match events with
  | [] => Some (x, [])
  | e :: rest =>
      '(x1, trace1) ← Switch_step x e;
      '(x2, trace2) ← Switch_run x1 rest;
      Some (x2, trace1 ++ trace2)
  end.

(** The worlds a constructed switch can be in: those of the states it reaches
    from [new ClapSwitch(options)] by calls of its interface, analysis ticks
    and pattern timeouts, and whatever a run of the clap listener or a firing
    timeout makes of a world it can be in. *)
Inductive reachable : World -> Prop :=
| reachable_switch storage o firstTimer x trace0 scheduled events x' trace :
    ClapSwitch_new true storage o firstTimer = (Some x, trace0, scheduled) ->
    Switch_run x events = Some (x', trace) ->
    reachable (sw_world x')
| reachable_step w e w' out :
    reachable w -> step w e = Some (w', out) -> reachable w'.

(** *** Claps and timeouts in time *)

(** A clap is reported at [now], after every pending timeout due by then has
    fired, each at its due time. *)
Definition clapAt (acc : World * list (Z * Emitted)) (now : Z)
  : World * list (Z * Emitted) :=
  let elapsed := elapse now acc.1 in
  let clapped := onClap now elapsed.1 in
  (clapped.1, acc.2 ++ elapsed.2 ++ map (pair now) clapped.2).

Definition clapsAt (times : list Z) (w : World) : World * list (Z * Emitted) :=
  foldl clapAt (w, []) times.

(** * Properties *)

(** ** Vocabulary of the pattern machine *)

Definition patternCount (w : World) : Z := _clapCount (switch w).
Definition patternRequired (w : World) : Z := requiredClaps (cs_options (switch w)).
Definition patternTimeout (w : World) : Z := clapTimeout (cs_options (switch w)).
Definition switchIsOn (w : World) : bool := _state (_stateManager (switch w)).

(** A timeout set by [_handleClap] has neither fired nor been cleared. *)
Definition deadlinePending (w : World) : Prop := timers w ≠ ∅.

(** The two states of the machine. *)
Definition idle (w : World) : Prop := patternCount w = 0%Z ∧ timers w = ∅.

Definition accumulating (w : World) : Prop :=
  ∃ id due, _clapTimer (switch w) = Some id ∧ timers w = {[id := due]}
            ∧ (0 < patternCount w < patternRequired w)%Z.

Definition patternInvariant (w : World) : Prop := idle w ∨ accumulating w.

(** ** Vocabulary of the analysis *)

Section AudioVocabulary.
#[local] Open Scope R_scope.

(** [i] is the first index at which the buffer's absolute value is largest, and
    [v] is that value. *)
Definition isPeak (buffer : list R) (i : nat) (v : R) : Prop :=
  (i < length buffer)%nat
  ∧ v = Rabs (nth i buffer 0)
  ∧ (∀ j, (j < length buffer)%nat → Rabs (nth j buffer 0) <= v)
  ∧ (∀ j, (j < i)%nat → Rabs (nth j buffer 0) < v).

(** The state of the peak search of [getAttackTime] when the first [i]
    samples of [buffer] have been read. *)
Definition peakSearched (buffer : list R) (i peakIndex : nat) (peakValue : R) : Prop :=
  (∀ j, (j < i)%nat → Rabs (nth j buffer 0) <= peakValue)
  ∧ (∀ j, (j < peakIndex)%nat → Rabs (nth j buffer 0) < peakValue)
  ∧ (i = 0%nat → peakIndex = 0%nat ∧ peakValue = 0)
  ∧ ((0 < i)%nat → (peakIndex < i)%nat ∧ peakValue = Rabs (nth peakIndex buffer 0)).

(** [i] is a bin whose magnitude is largest. *)
Definition isMaximalBin (frequencyData : list R) (i : nat) : Prop :=
  (i < length frequencyData)%nat
  ∧ ∀ j, (j < length frequencyData)%nat →
         nth j frequencyData 0 <= nth i frequencyData 0.

(** The state of the search of [calculateDominantFrequency] when the first
    [i] bins have been read: nothing positive was seen yet, or [maxIndex] is
    the first bin of the largest magnitude seen, which is positive. *)
Definition dominantSearched (frequencyData : list R) (i maxIndex : nat) (maxValue : R)
  : Prop :=
  (maxIndex = 0%nat ∧ maxValue = 0
   ∧ ∀ j, (j < i)%nat → nth j frequencyData 0 <= 0)
  ∨ ((maxIndex < i)%nat ∧ maxValue = nth maxIndex frequencyData 0 ∧ 0 < maxValue
     ∧ (∀ j, (j < i)%nat → nth j frequencyData 0 <= maxValue)
     ∧ (∀ j, (j < maxIndex)%nat → nth j frequencyData 0 < maxValue)).

(** A tick meets the amplitude, frequency and attack-time conditions of
    [analyze]; only the cooldown is left out. *)
Definition qualifies (o : ProcessorOptions) (context : AudioContext)
    (analyser : AnalyserNode) (t : Tick) : bool :=
  loudEnough o (tick_timeData t)
  && isInFrequencyRange o
       (calculateDominantFrequency (tick_frequencyData t) (sampleRate context)
                                   (INR (fftSize analyser)))
  && hasCorrectAttackTime o (getAttackTime (tick_timeData t) (threshold o)).

(** A processor in the state a successful [start()] leaves it in. *)
Definition listening (ap : AudioProcessor) (context : AudioContext)
    (analyser : AnalyserNode) : Prop :=
  _isListening ap = true
  ∧ _audioContext ap = Some context
  ∧ _analyser ap = Some analyser.

(** The decision of one tick of a listening processor: a qualifying tick, later
    than the cooldown after the last clap. *)
Definition clapsNow (ap : AudioProcessor) (context : AudioContext)
    (analyser : AnalyserNode) (t : Tick) : bool :=
  qualifies (options ap) context analyser t
  && bool_decide (tick_now t - _lastClapTime ap > _cooldownPeriod ap)%Z.

(** ** Inputs of the examples *)

(** The spectrum of the repository's test of [calculateDominantFrequency]:
    512 bins, -20 at bin 100 and -80 elsewhere. *)
Definition testSpectrum : list R :=
  map (fun i => if Nat.eqb i 100 then -20 else -80) (seq 0 512).

(** The buffer of the repository's test 'should detect attack time correctly':
    noise, a rise from index 20 to a peak at index 30, then a decay. *)
Definition risingSample (i : nat) : R :=
  if (i <? 20)%nat then 0.01
  else if (i <? 30)%nat then 0.01 + INR (i - 20) * 0.1
  else 1 - INR (i - 30) * 0.02.

Definition risingBuffer : list R := map risingSample (seq 0 100).

(** A sharp transient: silence, then a rise to full scale over six samples. *)
Definition clapFrame : list R := [0; 0.5; 0.6; 0.7; 0.8; 0.9; 1].

(** A spectrum whose only raised bin is bin 64, at 3000 Hz for a 48 kHz
    context and an FFT of 1024. *)
Definition clapSpectrum : list R := replicate 64 0 ++ [1].

Definition clapTick (now : Z) (frame : positive) : Tick :=
  {| tick_timeData := clapFrame; tick_frequencyData := clapSpectrum;
     tick_now := now; tick_nextFrame := frame |}.


Definition noProcessorOptions : ProcessorOptionsArg :=
  {| arg_threshold := None; arg_minDecibels := None; arg_frequencyRange := None;
     arg_minAttackTime := None; arg_maxAttackTime := None; arg_debug := None |}.

Definition noOptions : ClapSwitchOptionsArg :=
  {| arg_requiredClaps := None; arg_clapTimeout := None; arg_clapInterval := None;
     arg_cs_threshold := None; arg_cs_minDecibels := None;
     arg_cs_frequencyRange := None; arg_autoStart := None;
     arg_statePersistence := None; arg_cs_debug := None |}.

(** [new ClapSwitch({ requiredClaps: 0, frequencyRange: [4000, 2000] })]. *)
Definition invalidOptions : ClapSwitchOptionsArg :=
  {| arg_requiredClaps := Some 0%Z; arg_clapTimeout := None; arg_clapInterval := None;
     arg_cs_threshold := None; arg_cs_minDecibels := None;
     arg_cs_frequencyRange := Some (4000, 2000); arg_autoStart := None;
     arg_statePersistence := None; arg_cs_debug := None |}.

(** [new ClapSwitch({ requiredClaps: 0 })]. *)
Definition zeroClapsOptions : ClapSwitchOptionsArg :=
  {| arg_requiredClaps := Some 0%Z; arg_clapTimeout := None; arg_clapInterval := None;
     arg_cs_threshold := None; arg_cs_minDecibels := None;
     arg_cs_frequencyRange := None; arg_autoStart := None;
     arg_statePersistence := None; arg_cs_debug := None |}.

(** [new ClapSwitch({ statePersistence: true })]. *)
Definition persistentOptions : ClapSwitchOptionsArg :=
  {| arg_requiredClaps := None; arg_clapTimeout := None; arg_clapInterval := None;
     arg_cs_threshold := None; arg_cs_minDecibels := None;
     arg_cs_frequencyRange := None; arg_autoStart := None;
     arg_statePersistence := Some true; arg_cs_debug := None |}.

Definition grantedContext : AudioContext :=
  {| ctx_state := running; sampleRate := 48000 |}.

Definition installedAnalyser : AnalyserNode :=
  {| fftSize := 1024; smoothingTimeConstant := 0.2 |}.

(** The browser refuses the microphone; everything else would succeed. *)
Definition microphoneDenied : StartAnswers :=
  {| ans_createAudioContext := Returned grantedContext;
     ans_resume := Returned ();
     ans_getUserMedia := Threw "NotAllowedError" "Permission denied";
     ans_createMediaStreamSource := Returned ();
     ans_requestAnimationFrame := 1%positive |}.

Definition microphoneGranted : StartAnswers :=
  {| ans_createAudioContext := Returned grantedContext;
     ans_resume := Returned ();
     ans_getUserMedia := Returned {| stream_id := 7 |};
     ans_createMediaStreamSource := Returned ();
     ans_requestAnimationFrame := 1%positive |}.

(** The default processor after a granted [start()]. *)
Definition startedProcessor : AudioProcessor :=
  (AudioProcessor_start microphoneGranted
     (AudioProcessor_constructor noProcessorOptions)).1.2.

(** The fields of [new ClapSwitch()] in a browser with Web Audio and an empty
    [localStorage]: the state manager is on, as [_setupEventListeners] leaves
    it. *)
Definition defaultSwitch : ClapSwitch :=
  {| cs_options := mergeOptions noOptions;
     _audioProcessor :=
       AudioProcessor_constructor
         {| arg_threshold := Some 0.3; arg_minDecibels := Some (-45);
            arg_frequencyRange := Some (2000, 4000);
            arg_minAttackTime := None; arg_maxAttackTime := None;
            arg_debug := Some false |};
     _stateManager :=
       {| sm_options :=
            {| sm_statePersistence := false;
               sm_storageKey := "ovation_state"%string;
               sm_initialState := false |};
          _state := true |};
     _clapCount := 0%Z;
     _clapTimer := None |}.

Definition defaultWorld : World := initialWorld defaultSwitch ∅ 1%positive.

End AudioVocabulary.

(** ** Vocabulary of the wired switch *)

(** The listeners of the processor once [_setupEventListeners] has run. *)
Definition wiring : Listeners :=
  pushListener "clap" ClapListener (pushListener "error" ForwardError ∅).

(** The listeners of a switch are those its constructor leaves. *)
Definition wired (x : Switch) : Prop :=
  sw_events x = ∅ ∧ sw_managerEvents x = ∅ ∧ sw_processorEvents x = wiring.

(** The emitter an emission of the pattern machine is handed to. *)
Definition handedTo (e : Emitted) : Trace :=
  match e with
  | EmitToggle _ => ManagerEmits e
  | _ => SwitchEmits e
  end.

(** Nothing of the caller runs and the switch does not emit ['toggle']: an
    entry of the trace is an emission other than a ['toggle'] of the switch,
    or the run of one of the two listeners of the processor. *)
Definition internal (t : Trace) : Prop :=
  match t with
  | Runs f => f = ClapListener ∨ f = ForwardError
  | SwitchEmits (EmitToggle _) => False
  | _ => True
  end.

(** An entry of the trace is the emission of an ['error']. *)
Definition isError (t : Trace) : bool :=
  match t with
  | ProcessorEmits (ProcError _) => true
  | SwitchEmits (EmitError _) | ManagerEmits (EmitError _) => true
  | _ => false
  end.

(** The emissions of a trace, whoever the emitter. *)
Definition emissions (trace : list Trace) : list Emitted :=
  omap (fun t => match t with
                 | SwitchEmits e | ManagerEmits e => Some e
                 | _ => None
                 end) trace.

(** ** Vocabulary of the event emitter *)

(** What a listener calls when [emit] runs it: a function is itself called;
    the wrapper of [once] calls the function it wraps, unless its own [off]
    throws first, which under an inherited event name it does. *)
Definition called (cb : Callback) : list Callback :=
  match cb with
  | OnceWrapper _ event callback =>
      if inheritedName event then [] else [UserCallback callback]
  | _ => [cb]
  end.

(** ** More vocabulary of the state manager and of the pattern machine *)

(** [n] booleans that alternate, from [b] on. *)
Fixpoint alternating (b : bool) (n : nat) : list bool :=
  match n with
  | O => []
  | S n => b :: alternating (negb b) n
  end.

(** Consecutive times are more than [gap] apart. *)
Fixpoint apart (gap : Z) (times : list Z) : Prop :=
  match times with
  | [] => True
  | t1 :: rest =>
      match rest with
      | [] => True
      | t2 :: _ => (t2 - t1 > gap)%Z ∧ apart gap rest
      end
  end.

(** What is announced after a clap at [previous] when every later clap finds
    the pattern already canceled: the cancellation [timeout] after each clap,
    then the next clap as a first one. *)
Fixpoint canceledEachTime (timeout previous : Z) (times : list Z) : list (Z * Emitted) :=
  match times with
  | [] => []
  | t :: rest =>
      ((previous + timeout)%Z, EmitPatternCanceled 1) :: (t, EmitClap 1)
        :: canceledEachTime timeout t rest
  end.

(** The world with another [clapInterval]. *)
Definition withClapInterval (interval : Z) (w : World) : World :=
  {| switch :=
       {| cs_options :=
            {| requiredClaps := requiredClaps (cs_options (switch w));
               clapTimeout := clapTimeout (cs_options (switch w));
               clapInterval := interval;
               cs_threshold := cs_threshold (cs_options (switch w));
               cs_minDecibels := cs_minDecibels (cs_options (switch w));
               cs_frequencyRange := cs_frequencyRange (cs_options (switch w));
               autoStart := autoStart (cs_options (switch w));
               statePersistence := statePersistence (cs_options (switch w));
               cs_debug := cs_debug (cs_options (switch w)) |};
          _audioProcessor := _audioProcessor (switch w);
          _stateManager := _stateManager (switch w);
          _clapCount := _clapCount (switch w);
          _clapTimer := _clapTimer (switch w) |};
     localStorage := localStorage w; timers := timers w; nextTimer := nextTimer w |}.

(** ** More inputs of the examples *)

(** [new ClapSwitch()] with its listeners, in a browser with Web Audio and an
    empty [localStorage]. *)
Definition newSwitch : Switch :=
  {| sw_world := defaultWorld;
     sw_events := ∅; sw_managerEvents := ∅; sw_processorEvents := wiring |}.

(** The browser lists a camera and a microphone. *)
Definition oneMicrophone : option (Completion (list string)) :=
  Some (Returned ["videoinput"; "audioinput"]%string).


(** A working [localStorage] in which an earlier page left the switch off. *)
Definition switchedOffStorage : Storage :=
  setItem "ovation_state" "false" ∅.

(** A [localStorage] that is there but refuses every write, as one whose quota
    is used up. *)
Definition fullStorage : Storage :=
  {| ls_present := true;
     getItem_throws := fun _ => false;
     setItem_throws := fun _ _ => true;
     ls_items := ∅ |}.

(** [new StateManager({ statePersistence: true })]. *)
Definition persistentManager : StateManagerOptionsArg :=
  {| arg_sm_statePersistence := Some true; arg_sm_storageKey := None;
     arg_sm_initialState := None |}.

Section MoreInputs.
#[local] Open Scope R_scope.

(** A spectrum in decibels, as [getFloatFrequencyData] fills it: -20 dB at
    bin 64 (3000 Hz for a 48 kHz context and an FFT of 1024) over a floor of
    -80 dB. *)
Definition decibelSpectrum : list R := replicate 64 (-80) ++ [-20].

Definition decibelTick (now : Z) (frame : positive) : Tick :=
  {| tick_timeData := clapFrame; tick_frequencyData := decibelSpectrum;
     tick_now := now; tick_nextFrame := frame |}.

(** The microphone is granted, but the source node cannot be made from the
    stream. *)
Definition sourceRefused : StartAnswers :=
  {| ans_createAudioContext := Returned grantedContext;
     ans_resume := Returned ();
     ans_getUserMedia := Returned {| stream_id := 7 |};
     ans_createMediaStreamSource := Threw "InvalidStateError" "no audio track";
     ans_requestAnimationFrame := 1%positive |}.

End MoreInputs.

Section Binary64Inputs.
Import PrimFloat.

(** A frame of 512 equal samples, 0.442716509103775, a number that a
    [Float32Array] holds exactly. *)
Definition roundingFrame : list float := replicate 512 0x1.c5577ap-2%float.

(** The threshold 0.4427165091037751, the binary64 number next above the
    sample. *)
Definition roundingThreshold : float := 0x1.c5577a0000001p-2%float.

(** The default options of the processor with that threshold. *)
Definition roundingOptions : ProcessorOptions64 :=
  {| threshold64 := roundingThreshold;
     minDecibels64 := PrimFloat.opp 45%float;
     frequencyRange64 := (2000%float, 4000%float);
     minAttackTime64 := 5%float;
     maxAttackTime64 := 20%float |}.

(** A [Math.log10] for the example.  It is consulted once, at the RMS of the
    frame, 0.442716509103777, whose logarithm is -0.35387428267670423. *)
Definition roundingLog10 (x : float) : float := PrimFloat.opp 0x1.6a5e051bf7b5bp-2%float.

(** The frame with a spectrum whose only raised bin is bin 64. *)
Definition roundingTick : Tick64 :=
  {| tick64_timeData := roundingFrame;
     tick64_frequencyData := replicate 64 0%float ++ [1%float];
     tick64_now := 1000 |}.

End Binary64Inputs.

(** [new ClapSwitch({ clapTimeout: 250 })]. *)
Definition hastyOptions : ClapSwitchOptionsArg :=
  {| arg_requiredClaps := None; arg_clapTimeout := Some 250%Z; arg_clapInterval := None;
     arg_cs_threshold := None; arg_cs_minDecibels := None;
     arg_cs_frequencyRange := None; arg_autoStart := None;
     arg_statePersistence := None; arg_cs_debug := None |}.

(** The world of [new ClapSwitch(o)] in a browser with Web Audio and an empty
    [localStorage]. *)
Definition constructedWorld (o : ClapSwitchOptionsArg) : option World :=
  match ClapSwitch_new true ∅ o 1 with
  | (Some x, _, _) => Some (sw_world x)
  | _ => None
  end.

(** ** The pattern machine *)

Section PatternMachine.
#[local] Open Scope Z_scope.

Lemma StateManager_toggle_flips sm ls :
  StateManager_toggle sm ls =
    (negb (_state sm),
     {| sm_options := sm_options sm; _state := negb (_state sm) |},
     _persistState {| sm_options := sm_options sm; _state := negb (_state sm) |} ls,
     [EmitToggle (negb (_state sm))]).
Proof.
  unfold StateManager_toggle, StateManager_setState.
  rewrite bool_decide_eq_false_2; [reflexivity | by destruct (_state sm)].
Qed.

Lemma invariant_clears w :
  patternInvariant w → clearClapTimer (_clapTimer (switch w)) (timers w) = ∅.
Proof.
  intros [[_ Hnone] | (id & due & Hid & Hone & _)].
  - rewrite Hnone. destruct (_clapTimer (switch w)); simpl; [apply delete_empty | done].
  - rewrite Hid, Hone. simpl. apply delete_singleton_eq.
Qed.

Lemma invariant_count_nonneg w : patternInvariant w → 0 <= patternCount w.
Proof. intros [[H _] | (? & ? & _ & _ & H)]; lia. Qed.

Lemma invariant_initial cs ls first :
  _clapCount cs = 0 → patternInvariant (initialWorld cs ls first).
Proof. intros H. left. split; [exact H | reflexivity]. Qed.

Lemma handleClap_accumulates now w :
  patternInvariant w → patternCount w + 1 < patternRequired w →
  _handleClap now w =
    ({| switch := {| cs_options := cs_options (switch w);
                     _audioProcessor := _audioProcessor (switch w);
                     _stateManager := _stateManager (switch w);
                     _clapCount := patternCount w + 1;
                     _clapTimer := Some (nextTimer w) |};
        localStorage := localStorage w;
        timers := {[nextTimer w := now + Z.max 0 (patternTimeout w)]};
        nextTimer := Pos.succ (nextTimer w) |}, []).
Proof.
  intros Hinv Hlt. unfold _handleClap.
  rewrite (invariant_clears w Hinv), insert_empty.
  rewrite bool_decide_eq_false_2; [reflexivity | unfold patternCount, patternRequired in Hlt; lia].
Qed.

Lemma handleClap_completes now w :
  patternInvariant w → patternCount w + 1 >= patternRequired w →
  _handleClap now w =
    ({| switch := {| cs_options := cs_options (switch w);
                     _audioProcessor := _audioProcessor (switch w);
                     _stateManager :=
                       {| sm_options := sm_options (_stateManager (switch w));
                          _state := negb (switchIsOn w) |};
                     _clapCount := 0;
                     _clapTimer := _clapTimer (switch w) |};
        localStorage :=
          _persistState
            {| sm_options := sm_options (_stateManager (switch w));
               _state := negb (switchIsOn w) |} (localStorage w);
        timers := ∅;
        nextTimer := nextTimer w |},
     [EmitPattern (patternCount w + 1); EmitToggle (negb (switchIsOn w))]).
Proof.
  intros Hinv Hge. unfold _handleClap.
  rewrite (invariant_clears w Hinv), StateManager_toggle_flips.
  rewrite bool_decide_eq_true_2; [reflexivity | exact Hge].
Qed.

Lemma invariant_onClap now w :
  patternInvariant w → patternInvariant (onClap now w).1.
Proof.
  intros Hinv. pose proof (invariant_count_nonneg w Hinv) as Hc.
  unfold onClap.
  destruct (Z_lt_ge_dec (patternCount w + 1) (patternRequired w)) as [Hlt | Hge].
  - rewrite (handleClap_accumulates now w Hinv Hlt). simpl.
    right. eexists _, _. unfold patternCount, patternRequired in *. simpl. split_and!; [done | done | lia | lia].
  - rewrite (handleClap_completes now w Hinv Hge). simpl. by left.
Qed.

Lemma fireTimer_Some id w w' out :
  fireTimer id w = Some (w', out) →
  ∃ due, timers w !! id = Some due
    ∧ w' = {| switch := {| cs_options := cs_options (switch w);
                           _audioProcessor := _audioProcessor (switch w);
                           _stateManager := _stateManager (switch w);
                           _clapCount := 0;
                           _clapTimer := _clapTimer (switch w) |};
              localStorage := localStorage w;
              timers := delete id (timers w);
              nextTimer := nextTimer w |}
    ∧ out = if bool_decide (patternCount w > 0) then [EmitPatternCanceled (patternCount w)] else [].
Proof.
  unfold fireTimer. destruct (timers w !! id) as [due|] eqn:Hid; [|done].
  unfold clapTimerCallback. simpl. intros [= <- <-]. eauto.
Qed.

Lemma invariant_fireTimer id w w' out :
  patternInvariant w → fireTimer id w = Some (w', out) → idle w'.
Proof.
  intros Hinv (due & Hid & -> & _)%fireTimer_Some.
  split; [reflexivity | simpl].
  destruct Hinv as [[_ Hnone] | (id0 & due0 & _ & Hone & _)].
  - rewrite Hnone in Hid. by rewrite lookup_empty in Hid.
  - rewrite Hone in Hid |- *. apply lookup_singleton_Some in Hid as [-> _].
    apply delete_singleton_eq.
Qed.

Lemma invariant_step w e w' out :
  patternInvariant w → step w e = Some (w', out) → patternInvariant w'.
Proof.
  intros Hinv. destruct e as [now | id]; simpl.
  - intros [= Hw]. pose proof (invariant_onClap now w Hinv) as H.
    by rewrite Hw in H.
  - intros H. left. eapply invariant_fireTimer; eauto.
Qed.

Lemma invariant_pending_iff w :
  patternInvariant w →
  deadlinePending w ↔ 0 < patternCount w < patternRequired w.
Proof.
  unfold deadlinePending.
  intros [[Hc Hnone] | (id & due & _ & Hone & Hc)]; split.
  - intros H. by destruct H.
  - lia.
  - done.
  - intros _. rewrite Hone. apply map_non_empty_singleton.
Qed.

Lemma onClap_emits_pattern now w n :
  patternInvariant w →
  EmitPattern n ∈ (onClap now w).2 ∨ EmitPatternCanceled n ∈ (onClap now w).2 →
  idle (onClap now w).1.
Proof.
  intros Hinv. unfold onClap.
  destruct (Z_lt_ge_dec (patternCount w + 1) (patternRequired w)) as [Hlt | Hge].
  - rewrite (handleClap_accumulates now w Hinv Hlt). simpl.
    intros [H | H]; apply list_elem_of_singleton in H; discriminate.
  - rewrite (handleClap_completes now w Hinv Hge). simpl. by intros _.
Qed.

Lemma run_app w events1 events2 :
  run w (events1 ++ events2) =
    '(w1, out1) ← run w events1;
    '(w2, out2) ← run w1 events2;
    Some (w2, out1 ++ out2).
Proof.
  revert w. induction events1 as [| e events1 IH]; intros w; simpl.
  - destruct (run w events2) as [[w2 out2]|]; reflexivity.
  - destruct (step w e) as [[w1 out1]|]; simpl; [|reflexivity].
    rewrite IH. destruct (run w1 events1) as [[w2 out2]|]; simpl; [|reflexivity].
    destruct (run w2 events2) as [[w3 out3]|]; simpl; [|reflexivity].
    by rewrite app_assoc.
Qed.

(** Claps that do not reach the required count only accumulate: each is
    announced, the count grows by one, and the one pending deadline is that of
    the last clap. *)
Lemma run_claps_accumulate times : ∀ w,
  patternInvariant w →
  patternCount w + Z.of_nat (length times) < patternRequired w →
  ∃ w', run w (map ClapDetected times)
          = Some (w', map EmitClap (seqZ (patternCount w + 1) (Z.of_nat (length times))))
    ∧ patternInvariant w'
    ∧ patternCount w' = patternCount w + Z.of_nat (length times)
    ∧ cs_options (switch w') = cs_options (switch w)
    ∧ _stateManager (switch w') = _stateManager (switch w)
    ∧ localStorage w' = localStorage w
    ∧ (times = [] → w' = w)
    ∧ (∀ t, last times = Some t →
         ∃ id, timers w' = {[id := t + Z.max 0 (patternTimeout w)]}).
Proof.
  induction times as [| now times IH]; intros w Hinv Hlt.
  - exists w. simpl. rewrite Z.add_0_r. split_and!; try done.
  - pose proof (invariant_count_nonneg w Hinv) as Hc.
    rewrite length_cons, Nat2Z.inj_succ in Hlt |- *.
    assert (patternCount w + 1 < patternRequired w) as Hlt1 by lia.
    pose proof (invariant_onClap now w Hinv) as Hinv1.
    simpl. unfold onClap in *. rewrite (handleClap_accumulates now w Hinv Hlt1) in *.
    simpl in Hinv1. simpl.
    set (w1 := {| switch := _ |}) in *.
    destruct (IH w1 Hinv1) as (w' & Hrun & Hinv' & Hcount & Hopt & Hsm & Hls & Hnil & Hlast).
    { unfold patternCount, patternRequired in *. simpl. lia. }
    exists w'. rewrite Hrun. simpl. split_and!; try done.
    + rewrite (seqZ_cons (patternCount w + 1)) by lia. simpl.
      rewrite Z.pred_succ.
      assert (patternCount w1 = patternCount w + 1) as -> by reflexivity.
      reflexivity.
    + rewrite Hcount.
      assert (patternCount w1 = patternCount w + 1) as -> by reflexivity. lia.
    + intros t Ht. destruct times as [| now' times].
      * simpl in Ht. injection Ht as <-. rewrite (Hnil eq_refl).
        exists (nextTimer w). reflexivity.
      * apply (Hlast t). by rewrite last_cons_cons in Ht.
Qed.

Lemma filter_isPattern_claps counts : List.filter isPattern (map EmitClap counts) = [].
Proof. induction counts; simpl; auto. Qed.

Lemma filter_isToggle_claps counts : List.filter isToggle (map EmitClap counts) = [].
Proof. induction counts; simpl; auto. Qed.

Lemma filter_isPatternCanceled_claps counts :
  List.filter isPatternCanceled (map EmitClap counts) = [].
Proof. induction counts; simpl; auto. Qed.

Lemma dueBy_empty until : dueBy until ∅ = [].
Proof. unfold dueBy. by rewrite map_to_list_empty. Qed.

Lemma dueBy_singleton until id due :
  dueBy until {[id := due]} = if decide (due <= until) then [(id, due)] else [].
Proof.
  unfold dueBy. rewrite map_to_list_singleton, filter_cons, filter_nil. simpl.
  by destruct (decide (due <= until)).
Qed.

Lemma elapse_idle until w : timers w = ∅ → elapse until w = (w, []).
Proof. intros H. unfold elapse. by rewrite H, dueBy_empty. Qed.

End PatternMachine.

(** ** The audio utilities *)

Section AudioUtilsFacts.
#[local] Open Scope R_scope.

Lemma sumSquares_bound buffer : ∀ sum m,
  (∀ x, In x buffer → Rabs x <= m) →
  sumSquares buffer sum <= sum + INR (length buffer) * (m * m).
Proof.
  unfold sumSquares.
  induction buffer as [| x buffer IH]; intros sum m Hm.
  - simpl. lra.
  - cbn [fold_left]. rewrite length_cons, S_INR.
    etransitivity; [apply (IH _ m); intros; apply Hm; by right|].
    assert (Rabs x <= m) as Hx by (apply Hm; by left).
    assert (x * x <= m * m).
    { unfold Rabs in Hx. destruct (Rcase_abs x); nra. }
    lra.
Qed.

Lemma calculateRMS_le_bound buffer m :
  buffer ≠ [] → (∀ x, In x buffer → Rabs x <= m) → calculateRMS buffer <= m.
Proof.
  intros Hne Hm. unfold calculateRMS.
  assert (0 <= m) as Hm0.
  { destruct buffer as [| x ?]; [done|].
    etransitivity; [apply (Rabs_pos x) | apply Hm; by left]. }
  assert (0 < INR (length buffer)) as Hlen.
  { apply lt_0_INR. destruct buffer; [done | simpl; lia]. }
  rewrite <- (sqrt_square m) by exact Hm0.
  apply sqrt_le_1_alt.
  pose proof (sumSquares_bound buffer 0 m Hm) as Hsum.
  apply (Rmult_le_reg_r (INR (length buffer))); [exact Hlen|].
  unfold Rdiv. rewrite Rmult_assoc, Rinv_l by lra. lra.
Qed.

Lemma peakLoop_bound buffer : ∀ i peakIndex peakValue,
  peakValue <= (peakLoop buffer i peakIndex peakValue).2
  ∧ ∀ x, In x buffer → Rabs x <= (peakLoop buffer i peakIndex peakValue).2.
Proof.
  induction buffer as [| y buffer IH]; intros i peakIndex peakValue; simpl.
  - split; [lra | intros ? []].
  - destruct (decide (Rabs y > peakValue)) as [Hgt | Hle].
    + destruct (IH (S i) i (Rabs y)) as [H1 H2]. split; [lra|].
      intros x [<- | Hin]; [exact H1 | by apply H2].
    + destruct (IH (S i) peakIndex peakValue) as [H1 H2]. split; [exact H1|].
      intros x [<- | Hin]; [lra | by apply H2].
Qed.

Lemma attackLoop_le buffer startThreshold attackIndex :
  (attackLoop buffer startThreshold attackIndex <= attackIndex)%nat.
Proof.
  induction attackIndex as [| previous IH]; [reflexivity|].
  cbn [attackLoop]. destruct (decide _); lia.
Qed.

Lemma peakLoop_searches rest : ∀ read peakIndex peakValue,
  peakSearched (read ++ rest) (length read) peakIndex peakValue →
  peakSearched (read ++ rest) (length (read ++ rest))
               (peakLoop rest (length read) peakIndex peakValue).1
               (peakLoop rest (length read) peakIndex peakValue).2.
Proof.
  induction rest as [| x rest IH]; intros read peakIndex peakValue Hs.
  - simpl. by rewrite app_nil_r in *.
  - cbn [peakLoop].
    assert (nth (length read) (read ++ x :: rest) 0 = x) as Hx.
    { rewrite app_nth2 by lia. by rewrite Nat.sub_diag. }
    assert ((read ++ [x]) ++ rest = read ++ x :: rest) as Happ by by rewrite <- app_assoc.
    assert (length (read ++ [x]) = S (length read)) as Hlen
      by (rewrite length_app; simpl; lia).
    destruct Hs as (Hle & Hlt & Hzero & Hpos).
    destruct (decide (Rabs x > peakValue)) as [Hgt | Hngt].
    + specialize (IH (read ++ [x]) (length read) (Rabs x)).
      rewrite Happ, Hlen in IH. apply IH. split_and!.
      * intros j Hj. destruct (decide (j = length read)) as [-> | Hne].
        -- rewrite Hx. lra.
        -- specialize (Hle j ltac:(lia)). lra.
      * intros j Hj. specialize (Hle j Hj). lra.
      * lia.
      * intros _. split; [lia | by rewrite Hx].
    + specialize (IH (read ++ [x]) peakIndex peakValue).
      rewrite Happ, Hlen in IH. apply IH. split_and!.
      * intros j Hj. destruct (decide (j = length read)) as [-> | Hne].
        -- rewrite Hx. lra.
        -- apply Hle. lia.
      * exact Hlt.
      * lia.
      * intros _. destruct (decide (length read = 0%nat)) as [Hz | Hnz].
        -- destruct (Hzero Hz) as [-> ->]. split; [lia|].
           rewrite <- Hz, Hx. pose proof (Rabs_pos x). lra.
        -- destruct (Hpos ltac:(lia)) as [H1 H2]. split; [lia | exact H2].
Qed.

Lemma peakLoop_isPeak buffer :
  buffer ≠ [] →
  isPeak buffer (peakLoop buffer 0 0 0).1 (peakLoop buffer 0 0 0).2.
Proof.
  intros Hne.
  pose proof (peakLoop_searches buffer [] 0%nat 0) as H. simpl in H.
  destruct H as (Hle & Hlt & _ & Hpos).
  { split_and!; [intros; lia | intros; lia | done | intros; lia]. }
  destruct Hpos as [Hi Hv]; [destruct buffer; [done | simpl; lia]|].
  split_and!; assumption.
Qed.

Lemma attackLoop_walks buffer startThreshold start :
  let final := attackLoop buffer startThreshold start in
  (final <= start)%nat
  ∧ (∀ j, (final < j <= start)%nat → Rabs (nth j buffer 0) > startThreshold)
  ∧ (final = 0%nat ∨ ¬ Rabs (nth final buffer 0) > startThreshold).
Proof.
  induction start as [| previous IH]; cbn [attackLoop].
  - split_and!; [lia | intros; lia | by left].
  - destruct (decide (Rabs (nth (S previous) buffer 0) > startThreshold)) as [Hgt | Hngt].
    + cbn zeta in IH. destruct IH as (Hle & Hwalk & Hstop). split_and!.
      * lia.
      * intros j Hj. destruct (decide (j = S previous)) as [-> | Hne];
          [exact Hgt | apply Hwalk; lia].
      * exact Hstop.
    + split_and!; [lia | intros; lia | by right].
Qed.


Lemma calculateRMS_le_peak buffer : calculateRMS buffer <= (peakLoop buffer 0 0 0).2.
Proof.
  destruct buffer as [| x buffer].
  - unfold calculateRMS, sumSquares. simpl. unfold Rdiv. rewrite Rmult_0_l, sqrt_0. lra.
  - apply calculateRMS_le_bound; [done|]. apply peakLoop_bound.
Qed.

Lemma getAttackTime_nonneg buffer threshold :
  ¬ (peakLoop buffer 0 0 0).2 < threshold →
  (0 <= getAttackTime buffer threshold)%Z.
Proof.
  intros Hge. unfold getAttackTime.
  destruct (peakLoop buffer 0 0 0) as [peakIndex peakValue]. simpl in Hge.
  rewrite decide_False by exact Hge.
  pose proof (attackLoop_le buffer (threshold * 0.1) peakIndex). lia.
Qed.

(** Without rounding, the largest absolute sample of a buffer is at least its
    RMS, so that [rms > threshold] excludes the sentinel of [getAttackTime].
    With the rounding of the source this fails by one unit in the last place:
    [rounded_rms_exceeds_the_peak] below. *)
Lemma exact_rms_excludes_the_sentinel (buffer : list R) (threshold : R) :
  calculateRMS buffer > threshold → (0 <= getAttackTime buffer threshold)%Z.
Proof.
  intros Hgt. apply getAttackTime_nonneg.
  pose proof (calculateRMS_le_peak buffer). lra.
Qed.

Lemma dominantLoop_nonpositive frequencyData : ∀ i maxIndex,
  Forall (fun x => x <= 0) frequencyData →
  dominantLoop frequencyData i maxIndex 0 = (maxIndex, 0).
Proof.
  induction frequencyData as [| x rest IH]; intros i maxIndex Hall; [reflexivity|].
  apply Forall_cons in Hall as [Hx Hrest]. cbn [dominantLoop].
  rewrite decide_False by lra. by apply IH.
Qed.

Lemma testSpectrum_nonpositive : Forall (fun x => x <= 0) testSpectrum.
Proof.
  apply Forall_forall. intros x (i & <- & _)%list_elem_of_In%in_map_iff.
  destruct (Nat.eqb i 100); lra.
Qed.

Lemma nth_map_seq (f : nat → R) n j d :
  (j < n)%nat → nth j (map f (seq 0 n)) d = f j.
Proof.
  intros Hj. rewrite (nth_indep _ d (f 0%nat)) by (rewrite length_map, length_seq; lia).
  rewrite (map_nth f), seq_nth by lia. reflexivity.
Qed.

Lemma testSpectrum_nth j :
  (j < 512)%nat → nth j testSpectrum 0 = if Nat.eqb j 100 then -20 else -80.
Proof. intros Hj. unfold testSpectrum. by rewrite nth_map_seq. Qed.

Lemma testSpectrum_length : length testSpectrum = 512%nat.
Proof. unfold testSpectrum. by rewrite length_map, length_seq. Qed.

Lemma testSpectrum_maximalBin : isMaximalBin testSpectrum 100.
Proof.
  unfold isMaximalBin. rewrite testSpectrum_length.
  split; [lia|]. intros j Hj.
  rewrite !testSpectrum_nth by lia. simpl.
  destruct (Nat.eqb j 100); lra.
Qed.

(** C3 (dominant frequency), evaluated on the spectrum of the repository's own
    test (-20 at bin 100, -80 elsewhere, 44100 Hz, FFT size 1024): bin 100
    holds the largest magnitude and bin 0 does not, yet
    [calculateDominantFrequency] answers 0 Hz, the frequency of bin 0, and not
    [100 * 44100 / 1024].  The running maximum starts at 0, so a magnitude
    that is not positive never replaces it. *)
Theorem dominant_frequency_of_negative_spectrum :
  calculateDominantFrequency testSpectrum 44100 1024 = 0
  ∧ isMaximalBin testSpectrum 100
  ∧ ¬ isMaximalBin testSpectrum 0
  ∧ calculateDominantFrequency testSpectrum 44100 1024 ≠ 100 * 44100 / 1024.
Proof.
  assert (calculateDominantFrequency testSpectrum 44100 1024 = 0) as Hzero.
  { unfold calculateDominantFrequency.
    rewrite (dominantLoop_nonpositive _ _ _ testSpectrum_nonpositive). simpl. lra. }
  split_and!.
  - exact Hzero.
  - exact testSpectrum_maximalBin.
  - intros [_ Hmax]. specialize (Hmax 100%nat).
    rewrite testSpectrum_length, !testSpectrum_nth in Hmax by lia.
    simpl in Hmax. specialize (Hmax ltac:(lia)). lra.
  - rewrite Hzero. lra.
Qed.

Lemma dominantLoop_searches rest : ∀ read maxIndex maxValue,
  dominantSearched (read ++ rest) (length read) maxIndex maxValue →
  dominantSearched (read ++ rest) (length (read ++ rest))
                   (dominantLoop rest (length read) maxIndex maxValue).1
                   (dominantLoop rest (length read) maxIndex maxValue).2.
Proof.
  induction rest as [| x rest IH]; intros read maxIndex maxValue Hs.
  - simpl. by rewrite app_nil_r in *.
  - cbn [dominantLoop].
    assert (nth (length read) (read ++ x :: rest) 0 = x) as Hx.
    { rewrite app_nth2 by lia. by rewrite Nat.sub_diag. }
    assert ((read ++ [x]) ++ rest = read ++ x :: rest) as Happ by by rewrite <- app_assoc.
    assert (length (read ++ [x]) = S (length read)) as Hlen
      by (rewrite length_app; simpl; lia).
    destruct (decide (x > maxValue)) as [Hgt | Hngt];
      [specialize (IH (read ++ [x]) (length read) x)
      | specialize (IH (read ++ [x]) maxIndex maxValue)];
      rewrite Happ, Hlen in IH; apply IH; clear IH.
    + right. destruct Hs as [(-> & -> & Hlow) | (Hi & Hv & Hpos & Hle & Hlt)].
      * split_and!; [lia | by rewrite Hx | lra | |].
        -- intros j Hj. destruct (decide (j = length read)) as [-> | Hne];
             [rewrite Hx; lra | specialize (Hlow j ltac:(lia)); lra].
        -- intros j Hj. specialize (Hlow j Hj). lra.
      * split_and!; [lia | by rewrite Hx | lra | |].
        -- intros j Hj. destruct (decide (j = length read)) as [-> | Hne];
             [rewrite Hx; lra | specialize (Hle j ltac:(lia)); lra].
        -- intros j Hj. specialize (Hle j Hj). lra.
    + destruct Hs as [(-> & -> & Hlow) | (Hi & Hv & Hpos & Hle & Hlt)].
      * left. split_and!; [done | done |].
        intros j Hj. destruct (decide (j = length read)) as [-> | Hne];
          [rewrite Hx; lra | apply Hlow; lia].
      * right. split_and!; [lia | done | done | | done].
        intros j Hj. destruct (decide (j = length read)) as [-> | Hne];
          [rewrite Hx; lra | apply Hle; lia].
Qed.

(** Where the spectrum holds a positive magnitude, the bin found is the first
    of the largest magnitude. *)
Lemma dominantLoop_positive frequencyData :
  Exists (fun x => x > 0) frequencyData →
  isMaximalBin frequencyData (dominantLoop frequencyData 0 0 0).1.
Proof.
  intros Hpos.
  pose proof (dominantLoop_searches frequencyData [] 0%nat 0) as H. simpl in H.
  destruct H as [(_ & _ & Hlow) | (Hi & Hv & _ & Hle & _)].
  { left. split_and!; [done | done | intros; lia]. }
  - apply Exists_exists in Hpos as (x & Hin & Hx).
    apply list_elem_of_In, (In_nth _ _ 0) in Hin as (j & Hj & <-).
    specialize (Hlow j Hj). lra.
  - split; [exact Hi|]. intros j Hj. rewrite <- Hv. by apply Hle.
Qed.

(** *** The repository's unit tests of the utilities, on the model *)

(** 'should calculate the correct RMS value'. *)
Example calculateRMS_square_wave : calculateRMS [0.5; -0.5; 0.5; -0.5] = 0.5.
Proof.
  unfold calculateRMS, sumSquares. simpl.
  replace (_ / _) with (0.5 * 0.5) by lra. apply sqrt_square. lra.
Qed.

(** 'should handle zero properly'. *)
Example amplitudeToDecibels_zero : amplitudeToDecibels 0 = -100.
Proof. unfold amplitudeToDecibels. by rewrite decide_True by lra. Qed.

(** Full scale is 0 dB. *)
Example amplitudeToDecibels_one : amplitudeToDecibels 1 = 0.
Proof.
  unfold amplitudeToDecibels, Math_log10. rewrite decide_False by lra.
  rewrite ln_1. lra.
Qed.

(** A tenth of full scale is -20 dB. *)
Example amplitudeToDecibels_tenth : amplitudeToDecibels 0.1 = -20.
Proof.
  unfold amplitudeToDecibels, Math_log10. rewrite decide_False by lra.
  replace 0.1 with (/ 10) by lra. rewrite ln_Rinv by lra.
  assert (0 < ln 10) by (rewrite <- ln_1; apply ln_increasing; lra).
  field. lra.
Qed.

Lemma getAttackTime_no_peak buffer threshold :
  buffer ≠ [] → (∀ x, In x buffer → Rabs x < threshold) →
  getAttackTime buffer threshold = (-1)%Z.
Proof.
  intros Hne Hlow. destruct (peakLoop_isPeak buffer Hne) as (Hi & Hv & _).
  unfold getAttackTime. destruct (peakLoop buffer 0 0 0) as [i v].
  cbn [fst snd] in Hi, Hv. rewrite decide_True; [reflexivity|].
  rewrite Hv. apply Hlow, nth_In, Hi.
Qed.

(** 'should return -1 when no peak above threshold is found'. *)
Example getAttackTime_flat : getAttackTime (replicate 100 0.1) 0.5 = (-1)%Z.
Proof.
  apply getAttackTime_no_peak; [discriminate|].
  intros x [-> _]%list_elem_of_In%elem_of_replicate. rewrite Rabs_pos_eq; lra.
Qed.

(** The peak and the end of the walk are determined by what C6 says of them. *)
Lemma isPeak_unique buffer i v i' v' :
  isPeak buffer i v → isPeak buffer i' v' → i = i' ∧ v = v'.
Proof.
  intros (Hi & Hv & Hmax & Hfirst) (Hi' & Hv' & Hmax' & Hfirst').
  assert (v = v') as <-.
  { pose proof (Hmax i' Hi'). pose proof (Hmax' i Hi). lra. }
  split; [| reflexivity].
  destruct (Nat.lt_trichotomy i i') as [Hlt | [Heq | Hgt]]; [| exact Heq |].
  - pose proof (Hfirst' i Hlt). lra.
  - pose proof (Hfirst i' Hgt). lra.
Qed.

Lemma attackLoop_unique buffer startThreshold start final :
  (final <= start)%nat →
  (∀ j, (final < j <= start)%nat → Rabs (nth j buffer 0) > startThreshold) →
  (final = 0%nat ∨ ¬ Rabs (nth final buffer 0) > startThreshold) →
  attackLoop buffer startThreshold start = final.
Proof.
  intros Hle Hwalk Hstop.
  destruct (attackLoop_walks buffer startThreshold start) as (Hle' & Hwalk' & Hstop').
  set (final' := attackLoop buffer startThreshold start) in *.
  destruct (Nat.lt_trichotomy final' final) as [Hlt | [Heq | Hgt]]; [| exact Heq |].
  - destruct Hstop as [-> | Hstop]; [lia|]. destruct Hstop. apply Hwalk'. lia.
  - destruct Hstop' as [Hz | Hstop']; [lia|]. destruct Hstop'. apply Hwalk. lia.
Qed.

Lemma getAttackTime_determined buffer threshold peakIndex peakValue final :
  isPeak buffer peakIndex peakValue →
  ¬ peakValue < threshold →
  (final <= peakIndex)%nat →
  (∀ j, (final < j <= peakIndex)%nat → Rabs (nth j buffer 0) > threshold * 0.1) →
  (final = 0%nat ∨ ¬ Rabs (nth final buffer 0) > threshold * 0.1) →
  getAttackTime buffer threshold = (Z.of_nat peakIndex - Z.of_nat final)%Z.
Proof.
  intros Hpeak Hge Hle Hwalk Hstop.
  assert (buffer ≠ []) as Hne by (destruct Hpeak as [Hi _]; destruct buffer; [simpl in Hi; lia | done]).
  destruct (isPeak_unique _ _ _ _ _ (peakLoop_isPeak buffer Hne) Hpeak) as [Hi Hv].
  unfold getAttackTime. destruct (peakLoop buffer 0 0 0) as [i v].
  cbn [fst snd] in Hi, Hv. subst i v.
  rewrite decide_False by exact Hge.
  by rewrite (attackLoop_unique buffer (threshold * 0.1) peakIndex final).
Qed.

(** [IZR (Z.of_nat n)] for a given [n], as a numeral. *)
Ltac nat_numerals :=
  cbv [Z.of_nat Pos.of_succ_nat Pos.succ] in *.

Lemma risingBuffer_nth j : (j < 100)%nat → nth j risingBuffer 0 = risingSample j.
Proof. intros Hj. unfold risingBuffer. by rewrite nth_map_seq. Qed.

Lemma risingSample_noise j : (j < 20)%nat → risingSample j = 0.01.
Proof. intros Hj. unfold risingSample. by rewrite (proj2 (Nat.ltb_lt j 20) Hj). Qed.

Lemma risingSample_rise j :
  (20 <= j < 30)%nat → risingSample j = 0.01 + (INR j - 20) * 0.1.
Proof.
  intros [Hlo Hhi]. unfold risingSample.
  rewrite (proj2 (Nat.ltb_ge j 20) Hlo), (proj2 (Nat.ltb_lt j 30) Hhi).
  rewrite minus_INR by exact Hlo. rewrite (INR_IZR_INZ 20). by nat_numerals.
Qed.

Lemma risingSample_decay j :
  (30 <= j)%nat → risingSample j = 1 - (INR j - 30) * 0.02.
Proof.
  intros Hlo. unfold risingSample.
  rewrite (proj2 (Nat.ltb_ge j 20)) by lia. rewrite (proj2 (Nat.ltb_ge j 30) Hlo).
  rewrite minus_INR by exact Hlo. rewrite (INR_IZR_INZ 30). by nat_numerals.
Qed.

Lemma INR_between lo j hi :
  (lo <= j <= hi)%nat → IZR (Z.of_nat lo) <= INR j <= IZR (Z.of_nat hi).
Proof.
  intros [Hlo Hhi]. rewrite <- !INR_IZR_INZ. split; by apply le_INR.
Qed.

Lemma risingBuffer_peak : isPeak risingBuffer 30 1.
Proof.
  assert (length risingBuffer = 100%nat) as Hlen
    by (unfold risingBuffer; by rewrite length_map, length_seq).
  unfold isPeak. rewrite Hlen. split_and!.
  - lia.
  - rewrite risingBuffer_nth, risingSample_decay by lia.
    rewrite (INR_IZR_INZ 30). nat_numerals. rewrite Rabs_pos_eq; lra.
  - intros j Hj. rewrite risingBuffer_nth by exact Hj.
    destruct (Nat.lt_ge_cases j 20) as [H20 | H20];
      [| destruct (Nat.lt_ge_cases j 30) as [H30 | H30]].
    + rewrite risingSample_noise by exact H20. rewrite Rabs_pos_eq; lra.
    + rewrite risingSample_rise by lia.
      pose proof (INR_between 20 j 29 ltac:(lia)) as Hb. nat_numerals.
      rewrite Rabs_pos_eq; lra.
    + rewrite risingSample_decay by exact H30.
      pose proof (INR_between 30 j 99 ltac:(lia)) as Hb. nat_numerals.
      unfold Rabs. destruct (Rcase_abs _); lra.
  - intros j Hj. rewrite risingBuffer_nth by lia.
    destruct (Nat.lt_ge_cases j 20) as [H20 | H20].
    + rewrite risingSample_noise by exact H20. rewrite Rabs_pos_eq; lra.
    + rewrite risingSample_rise by lia.
      pose proof (INR_between 20 j 29 ltac:(lia)) as Hb. nat_numerals.
      rewrite Rabs_pos_eq; lra.
Qed.

(** 'should detect attack time correctly': the walk ends at index 20, ten
    samples before the peak. *)
Example getAttackTime_rising : getAttackTime risingBuffer 0.5 = 10%Z.
Proof.
  rewrite (getAttackTime_determined risingBuffer 0.5 30 1 20 risingBuffer_peak);
    [reflexivity | lra | lia | |].
  - intros j Hj. rewrite risingBuffer_nth by lia.
    destruct (Nat.lt_ge_cases j 30) as [H30 | H30].
    + rewrite risingSample_rise by lia.
      pose proof (INR_between 21 j 29 ltac:(lia)) as Hb. nat_numerals.
      rewrite Rabs_pos_eq; lra.
    + rewrite risingSample_decay by exact H30.
      pose proof (INR_between 30 j 30 ltac:(lia)) as Hb. nat_numerals.
      rewrite Rabs_pos_eq; lra.
  - right. rewrite risingBuffer_nth, risingSample_rise by lia.
    rewrite (INR_IZR_INZ 20). nat_numerals. rewrite Rabs_pos_eq; lra.
Qed.

End AudioUtilsFacts.

Section Analysis.
#[local] Open Scope Z_scope.

Lemma analyze_listening ap context analyser t :
  listening ap context analyser →
  ∃ spectrum calls,
    analyze ap t =
      Some (afterTick (tick_timeData t) spectrum
                      (if clapsNow ap context analyser t then tick_now t
                       else _lastClapTime ap)
                      (tick_nextFrame t) ap,
            if clapsNow ap context analyser t then [ProcClap] else [],
            calls).
Proof.
  intros (Hon & Hctx & Han). unfold analyze, clapsNow, qualifies.
  rewrite Hon, Han, Hctx. simpl.
  destruct (loudEnough (options ap) (tick_timeData t)); simpl; [| by eexists None, _].
  destruct (isInFrequencyRange _ _ && hasCorrectAttackTime _ _
            && bool_decide (tick_now t - _lastClapTime ap > _cooldownPeriod ap));
    by eexists (Some _), _.
Qed.


(** With a positive lower frequency bound, a tick whose spectrum holds no
    positive magnitude (decibel values are at most 0) never emits a clap: the
    dominant frequency is reported as 0 Hz. *)
Lemma nonpositive_spectrum_never_claps ap context analyser t :
  Forall (fun x => x <= 0)%R (tick_frequencyData t) →
  (0 < fst (frequencyRange (options ap)))%R →
  clapsNow ap context analyser t = false.
Proof.
  intros Hlow Hrange. unfold clapsNow, qualifies, calculateDominantFrequency.
  rewrite (dominantLoop_nonpositive _ _ _ Hlow). cbn [fst INR].
  unfold isInFrequencyRange.
  rewrite (bool_decide_eq_false_2 (_ >= _)%R) by (unfold Rdiv; rewrite !Rmult_0_l; lra).
  by rewrite andb_false_r.
Qed.


End Analysis.

(** ** Construction and start *)

Section Construction.





(** [stop()] on an idle processor is a no-op, and [stop()] after [stop()] is
    one; a stopped processor keeps its audio context and can be started
    again. *)
Lemma stop_idempotent ap :
  (_isListening ap = false → AudioProcessor_stop ap = (ap, []))
  ∧ AudioProcessor_stop (AudioProcessor_stop ap).1 = ((AudioProcessor_stop ap).1, [])
  ∧ _isListening (AudioProcessor_stop ap).1 = false
  ∧ _audioContext (AudioProcessor_stop ap).1 = _audioContext ap.
Proof.
  unfold AudioProcessor_stop. destruct (_isListening ap) eqn:Hl; simpl;
    rewrite ?Hl; split_and!; done.
Qed.

End Construction.

(** ** Scenarios *)

Section Scenarios.
#[local] Open Scope R_scope.

Lemma sqrt_gt t x : 0 <= t → t * t < x → sqrt x > t.
Proof.
  intros Ht Hx. apply Rlt_gt. rewrite <- (sqrt_square t Ht) at 1.
  apply sqrt_lt_1; nra.
Qed.

Lemma ln_10_pos : 0 < ln 10.
Proof. rewrite <- ln_1. apply ln_increasing; lra. Qed.

Lemma amplitudeToDecibels_above amplitude :
  0.01 <= amplitude → amplitudeToDecibels amplitude > -45.
Proof.
  intros Ha. unfold amplitudeToDecibels, Math_log10.
  rewrite decide_False by lra.
  assert (ln (/ (10 * 10)) <= ln amplitude) as Hln.
  { destruct (Req_dec (/ (10 * 10)) amplitude) as [<- | Hne]; [lra|].
    left. apply ln_increasing; lra. }
  rewrite ln_Rinv, ln_mult in Hln by lra.
  pose proof ln_10_pos as H10.
  apply Rlt_gt. apply (Rmult_lt_reg_r (ln 10)); [exact H10|].
  unfold Rdiv. rewrite !Rmult_assoc, Rinv_l by lra. lra.
Qed.

Lemma clapFrame_loudEnough o :
  threshold o = 0.3 → minDecibels o = -45 → loudEnough o clapFrame = true.
Proof.
  intros Ht Hm. unfold loudEnough. rewrite Ht, Hm.
  assert (calculateRMS clapFrame > 0.3) as Hrms.
  { unfold calculateRMS, clapFrame, sumSquares. simpl. apply sqrt_gt; lra. }
  apply andb_true_iff. split; apply bool_decide_eq_true.
  - apply amplitudeToDecibels_above. lra.
  - exact Hrms.
Qed.

Lemma dominantLoop_app data1 : ∀ data2 i maxIndex maxValue,
  dominantLoop (data1 ++ data2) i maxIndex maxValue =
    dominantLoop data2 (i + length data1)
                 (dominantLoop data1 i maxIndex maxValue).1
                 (dominantLoop data1 i maxIndex maxValue).2.
Proof.
  induction data1 as [| x data1 IH]; intros data2 i maxIndex maxValue.
  - simpl. by rewrite Nat.add_0_r.
  - cbn [app dominantLoop length].
    replace (i + S (length data1))%nat with (S i + length data1)%nat by lia.
    destruct (decide (x > maxValue)); apply IH.
Qed.

(** Evaluation of the comparisons of a loop on given numbers. *)
Ltac decide_reals :=
  repeat first
    [ rewrite Rabs_R0
    | match goal with
      | |- context [Rabs ?x] => rewrite (Rabs_pos_eq x) by lra
      end
    | rewrite decide_True by lra
    | rewrite decide_False by lra ].

Lemma clapSpectrum_dominant :
  calculateDominantFrequency clapSpectrum 48000 (INR 1024) = 3000.
Proof.
  unfold calculateDominantFrequency, clapSpectrum.
  rewrite dominantLoop_app, dominantLoop_nonpositive
    by (apply Forall_forall; intros x [-> _]%elem_of_replicate; lra).
  cbn [dominantLoop fst snd]. decide_reals.
  rewrite length_replicate. cbn [fst Nat.add].
  rewrite !INR_IZR_INZ.
  change (Z.of_nat 64) with 64%Z. change (Z.of_nat 1024) with 1024%Z. lra.
Qed.

Lemma clapFrame_attackTime : getAttackTime clapFrame 0.3 = 6%Z.
Proof.
  unfold getAttackTime, clapFrame. cbn [peakLoop]. decide_reals.
  cbn [attackLoop nth]. decide_reals. reflexivity.
Qed.

Lemma clapTick_qualifies o now frame :
  threshold o = 0.3 → minDecibels o = -45 → frequencyRange o = (2000, 4000) →
  minAttackTime o = 5 → maxAttackTime o = 20 →
  qualifies o grantedContext installedAnalyser (clapTick now frame) = true.
Proof.
  intros Ht Hm Hf Hmin Hmax.
  unfold qualifies, clapTick, grantedContext, installedAnalyser.
  cbn [tick_timeData tick_frequencyData sampleRate fftSize].
  rewrite (clapFrame_loudEnough o Ht Hm), clapSpectrum_dominant, Ht, clapFrame_attackTime.
  unfold isInFrequencyRange, hasCorrectAttackTime. rewrite Hf, Hmin, Hmax. simpl.
  rewrite !bool_decide_eq_true_2 by lra. reflexivity.
Qed.

Lemma startedProcessor_listening :
  listening startedProcessor grantedContext installedAnalyser.
Proof. by split_and!. Qed.



Lemma defaultWorld_required : patternRequired defaultWorld = 2%Z.
Proof. reflexivity. Qed.

Lemma defaultWorld_timeout : patternTimeout defaultWorld = 1000%Z.
Proof. reflexivity. Qed.





End Scenarios.

(** ** The numbers of the source *)

Section Binary64.
Import PrimFloat.

Lemma SFcompare_Lt_Gt a b :
  SpecFloat.SFcompare a b = Some Lt → SpecFloat.SFcompare b a = Some Gt.
Proof.
  destruct a as [s1 | s1 | | s1 m1 e1], b as [s2 | s2 | | s2 m2 e2];
    cbn [SpecFloat.SFcompare]; try destruct s1; try destruct s2; try done.
  - rewrite (Z.compare_antisym e1 e2).
    change (PosDef.Pos.compare_cont Eq m2 m1) with (m2 ?= m1)%positive.
    change (PosDef.Pos.compare_cont Eq m1 m2) with (m1 ?= m2)%positive.
    rewrite (Pos.compare_antisym m1 m2).
    destruct (e1 ?= e2)%Z; cbn [CompOpp]; try done.
    by destruct (m1 ?= m2)%positive.
  - rewrite (Z.compare_antisym e1 e2).
    change (PosDef.Pos.compare_cont Eq m2 m1) with (m2 ?= m1)%positive.
    change (PosDef.Pos.compare_cont Eq m1 m2) with (m1 ?= m2)%positive.
    rewrite (Pos.compare_antisym m1 m2).
    destruct (e1 ?= e2)%Z; cbn [CompOpp]; try done.
    by destruct (m1 ?= m2)%positive.
Qed.

(** [x < y] excludes [y <= x], NaN included. *)
Lemma ltb_leb_false x y : PrimFloat.ltb x y = true → PrimFloat.leb y x = false.
Proof.
  rewrite FloatAxioms.ltb_spec, FloatAxioms.leb_spec.
  unfold SpecFloat.SFltb, SpecFloat.SFleb.
  destruct (SpecFloat.SFcompare (FloatOps.Prim2SF x) (FloatOps.Prim2SF y))
    as [[] |] eqn:Hc; try done.
  by rewrite (SFcompare_Lt_Gt _ _ Hc).
Qed.

Lemma attackLoop64_le buffer startThreshold attackIndex :
  (attackLoop64 buffer startThreshold attackIndex <= attackIndex)%nat.
Proof.
  induction attackIndex as [| previous IH]; [reflexivity |].
  cbn [attackLoop64]. destruct (PrimFloat.ltb _ _); lia.
Qed.

(** C10, refuted: with the rounding of the source the RMS of a frame can
    exceed every sample of it.  For 512 samples equal to 0.442716509103775 (a
    number that a [Float32Array] holds exactly) the sum of the squares,
    divided by 512, has the square root 0.442716509103777; with the threshold
    0.4427165091037751 between the two, [rms > threshold] holds and
    [getAttackTime] returns -1. *)
Lemma rounded_rms_exceeds_the_peak :
  (peakLoop64 roundingFrame 0 0 0%float).2 = 0x1.c5577ap-2%float
  ∧ forallb (fun x => PrimFloat.ltb (PrimFloat.abs x) (calculateRMS64 roundingFrame))
            roundingFrame = true
  ∧ calculateRMS64 roundingFrame = 0x1.c5577a0000024p-2%float
  ∧ PrimFloat.ltb roundingThreshold (calculateRMS64 roundingFrame) = true
  ∧ getAttackTime64 roundingFrame roundingThreshold = (-1)%Z.
Proof. split_and!; by vm_compute. Qed.

(** C10, as the code has it.  [getAttackTime] returns -1 exactly when the
    largest absolute sample found is below the threshold, whatever the RMS
    is.  When it does, also on a frame that has passed the gate, the
    classifier compares -1 with the attack-time bounds: with a lower bound
    above -1 (the default is 5) the comparison fails, and the tick calls
    [_onClapDetected] for no spectrum, clock or [Math.log10]. *)
Theorem the_sentinel_is_never_a_clap
    (Math_log10 : float → float) (o : ProcessorOptions64) (sampleRate fftSize : float)
    (lastClapTime cooldownPeriod : Z) (t : Tick64) :
  PrimFloat.ltb (number64 (-1)) (minAttackTime64 o) = true →
  (getAttackTime64 (tick64_timeData t) (threshold64 o) = (-1)%Z
   ↔ PrimFloat.ltb (peakLoop64 (tick64_timeData t) 0 0 0%float).2 (threshold64 o) = true)
  ∧ (getAttackTime64 (tick64_timeData t) (threshold64 o) = (-1)%Z →
     hasCorrectAttackTime64 o (-1) = false
     ∧ detectsClap64 Math_log10 o sampleRate fftSize lastClapTime cooldownPeriod t = false).
Proof.
  intros Hmin%ltb_leb_false. split.
  - unfold getAttackTime64.
    destruct (peakLoop64 (tick64_timeData t) 0 0 0%float) as [peakIndex peakValue].
    cbn [snd]. destruct (PrimFloat.ltb peakValue (threshold64 o)); [done |].
    pose proof (attackLoop64_le (tick64_timeData t)
                  (PrimFloat.mul (threshold64 o) 0x1.999999999999ap-4%float) peakIndex).
    split; [lia | done].
  - intros Hsentinel.
    assert (hasCorrectAttackTime64 o (-1) = false) as Hbounds.
    { unfold hasCorrectAttackTime64. by rewrite Hmin. }
    split; [exact Hbounds |].
    unfold detectsClap64. rewrite Hsentinel, Hbounds.
    destruct (loudEnough64 _ _ _); [| done]. by rewrite andb_false_r.
Qed.

(** The frame of equal samples passes the gate and is no clap. *)
Lemma the_sentinel_is_never_a_clap_witness :
  loudEnough64 roundingLog10 roundingOptions roundingFrame = true
  ∧ getAttackTime64 roundingFrame roundingThreshold = (-1)%Z
  ∧ detectsClap64 roundingLog10 roundingOptions 48000%float 1024%float 0 300 roundingTick
    = false.
Proof.
  destruct (the_sentinel_is_never_a_clap roundingLog10 roundingOptions 48000%float
              1024%float 0 300 roundingTick) as [Hsentinel Hquiet]; [by vm_compute |].
  assert (getAttackTime64 roundingFrame roundingThreshold = (-1)%Z) as Hfound
    by (apply Hsentinel; by vm_compute).
  split; [by vm_compute |]. split; [exact Hfound |]. by apply Hquiet.
Defined.

End Binary64.

(** ** The event emitter *)

Section EventEmitterFacts.

Lemma on_not_inherited event cb events :
  inheritedName event = false →
  EventEmitter_on event cb events = Some (pushListener event cb events).
Proof. unfold EventEmitter_on. by intros ->. Qed.

Lemma off_not_inherited event callback events :
  inheritedName event = false →
  EventEmitter_off event callback events = Some (dropListeners event callback events).
Proof. unfold EventEmitter_off. by intros ->. Qed.

Lemma emit_not_inherited event events :
  inheritedName event = false →
  EventEmitter_emit event events = Some (callListeners event events).
Proof. unfold EventEmitter_emit. by intros ->. Qed.

(** Under a name that [{}] inherits from [Object.prototype], such as
    ['constructor'] or ['toString'], nothing can be registered, removed by
    function or emitted: [on], [once], [off(event, callback)] and [emit] throw
    a TypeError, and [off(event)] does nothing. *)
Lemma inherited_names_throw event cb serial callback events :
  inheritedName event = true →
  EventEmitter_on event cb events = None
  ∧ EventEmitter_once serial event callback events = None
  ∧ EventEmitter_off event (Some cb) events = None
  ∧ EventEmitter_off event None events = Some events
  ∧ EventEmitter_emit event events = None.
Proof.
  unfold EventEmitter_once, EventEmitter_on, EventEmitter_off, EventEmitter_emit.
  by intros ->.
Qed.

Example constructor_is_inherited :
  inheritedName "constructor" = true ∧ inheritedName "toString" = true
  ∧ inheritedName "__proto__" = true ∧ inheritedName "clap" = false.
Proof. by vm_compute. Qed.

(** The names under which the switch, its state manager and its processor
    emit and listen are not inherited ones: their [emit] is [callListeners]
    and their [on] is [pushListener]. *)
Lemma eventName_not_inherited e events :
  EventEmitter_emit (eventName e) events = Some (callListeners (eventName e) events).
Proof. by destruct e. Qed.

Lemma processorEventName_not_inherited e events :
  EventEmitter_emit (processorEventName e) events
  = Some (callListeners (processorEventName e) events)
  ∧ EventEmitter_on (processorEventName e) ClapListener events
    = Some (pushListener (processorEventName e) ClapListener events).
Proof. by destruct e. Qed.

Lemma foldl_invoke_log registered : ∀ events log,
  (foldl invoke (events, log) registered).2 = log ++ flat_map called registered.
Proof.
  induction registered as [| cb registered IH]; intros events log; cbn [foldl flat_map].
  - by rewrite app_nil_r.
  - destruct cb as [id | serial e callback | | |]; cbn [invoke called fst snd];
      try (rewrite IH; by rewrite <- app_assoc).
    unfold EventEmitter_off. destruct (inheritedName e); rewrite IH; [done |].
    by rewrite <- app_assoc.
Qed.

Lemma callListeners_log event events :
  (callListeners event events).2 = flat_map called (default [] (events !! event)).
Proof.
  unfold callListeners. destruct (events !! event) as [registered |]; simpl; [| done].
  by rewrite foldl_invoke_log.
Qed.

Lemma callListeners_foldl event events :
  callListeners event events
    = foldl invoke (events, []) (default [] (events !! event)).
Proof. unfold callListeners. by destruct (events !! event). Qed.

Lemma callListeners_empty event : callListeners event ∅ = (∅, []).
Proof. unfold callListeners. by rewrite lookup_empty. Qed.

(** X8 (registration order).  For an event name that is not inherited from
    [Object.prototype], [on] registers the listener and [emit] runs the
    listeners of the event in the order in which [on] registered them, a
    function registered twice running twice: a listener added with [on] runs
    after all that were there, and the listeners of the other events are as
    before.  With no listener at all nothing runs. *)
Theorem emit_runs_listeners_in_registration_order
    (event other : string) (cb : Callback) (events : Listeners) :
  inheritedName event = false →
  ∃ added before after ran,
    EventEmitter_on event cb events = Some added
    ∧ EventEmitter_emit event events = Some (before, ran)
    ∧ EventEmitter_emit event added = Some (after, ran ++ called cb)
    ∧ (other ≠ event →
       snd <$> EventEmitter_emit other added = snd <$> EventEmitter_emit other events)
    ∧ EventEmitter_emit event ∅ = Some (∅, []).
Proof.
  intros Hown.
  exists (pushListener event cb events), (callListeners event events).1,
    (callListeners event (pushListener event cb events)).1,
    (callListeners event events).2.
  rewrite on_not_inherited, !(emit_not_inherited event) by done.
  split; [reflexivity |]. split_and!.
  - by rewrite <- surjective_pairing.
  - f_equal. apply injective_projections; [reflexivity |]. cbn [snd].
    rewrite !callListeners_log. unfold pushListener.
    rewrite lookup_insert_eq. cbn [default Datatypes.id]. rewrite flat_map_app.
    cbn [flat_map]. by rewrite app_nil_r.
  - intros Hne. unfold EventEmitter_emit. destruct (inheritedName other); [done |].
    cbn [fmap option_fmap option_map]. f_equal. rewrite !callListeners_log.
    unfold pushListener. by rewrite lookup_insert_ne.
  - by rewrite callListeners_empty.
Qed.

(** A second listener of ['clap'] runs second. *)
Lemma emit_runs_listeners_in_registration_order_witness :
  ∃ added after,
    EventEmitter_on "clap" (UserCallback 2) (pushListener "clap" (UserCallback 1) ∅)
      = Some added
    ∧ EventEmitter_emit "clap" added = Some (after, [UserCallback 1; UserCallback 2]).
Proof.
  destruct (emit_runs_listeners_in_registration_order "clap" "stop" (UserCallback 2)
              (pushListener "clap" (UserCallback 1) ∅) eq_refl)
    as (added & before & after & ran & Hon & Hemit & Hafter & _).
  exists added, after. split; [exact Hon |].
  vm_compute in Hemit. injection Hemit as _ <-. exact Hafter.
Defined.

(** X9 (removal).  For an event name that is not inherited from
    [Object.prototype]: after [off(event, callback)] an [emit] of the event
    runs what it ran before without any registration of [callback], the
    others in their order; after [off(event)] it runs nothing; the listeners
    of other events are untouched; and [off] on an event without listeners
    changes nothing. *)
Theorem off_removes_every_registration
    (event other : string) (cb : Callback) (events : Listeners) :
  inheritedName event = false →
  ∃ removed cleared,
    EventEmitter_off event (Some cb) events = Some removed
    ∧ EventEmitter_off event None events = Some cleared
    ∧ snd <$> EventEmitter_emit event removed
      = Some (flat_map called (filter (fun c => c ≠ cb) (default [] (events !! event))))
    ∧ snd <$> EventEmitter_emit event cleared = Some []
    ∧ (other ≠ event →
       snd <$> EventEmitter_emit other removed = snd <$> EventEmitter_emit other events
       ∧ snd <$> EventEmitter_emit other cleared = snd <$> EventEmitter_emit other events)
    ∧ (events !! event = None → removed = events ∧ cleared = events).
Proof.
  intros Hown.
  exists (dropListeners event (Some cb) events), (dropListeners event None events).
  rewrite !(off_not_inherited event), !(emit_not_inherited event) by done.
  split; [reflexivity |]. split; [reflexivity |].
  cbn [fmap option_fmap option_map]. rewrite !callListeners_log.
  unfold dropListeners. split_and!.
  - destruct (events !! event) as [registered |] eqn:Hev; cbn [default Datatypes.id].
    + by rewrite lookup_insert_eq.
    + by rewrite Hev.
  - destruct (events !! event) as [registered |] eqn:Hev; cbn [default Datatypes.id].
    + by rewrite lookup_delete_eq.
    + by rewrite Hev.
  - intros Hne. unfold EventEmitter_emit. destruct (inheritedName other); [done |].
    cbn [fmap option_fmap option_map]. rewrite !callListeners_log.
    destruct (events !! event) as [registered |]; [| done].
    by rewrite lookup_insert_ne, lookup_delete_ne.
  - by intros ->.
Qed.

(** Of three listeners of ['clap'], the one removed does not run. *)
Lemma off_removes_every_registration_witness :
  ∃ removed,
    EventEmitter_off "clap" (Some (UserCallback 1))
      (pushListener "clap" (UserCallback 1)
         (pushListener "clap" (UserCallback 2) (pushListener "clap" (UserCallback 1) ∅)))
      = Some removed
    ∧ snd <$> EventEmitter_emit "clap" removed = Some [UserCallback 2].
Proof.
  destruct (off_removes_every_registration "clap" "stop" (UserCallback 1)
              (pushListener "clap" (UserCallback 1)
                 (pushListener "clap" (UserCallback 2)
                    (pushListener "clap" (UserCallback 1) ∅))) eq_refl)
    as (removed & cleared & Hoff & _ & Hemit & _).
  exists removed. split; [exact Hoff | exact Hemit].
Defined.

Lemma filter_absent (w : Callback) (l : list Callback) :
  (w ∉ l) → filter (fun c => c ≠ w) l = l.
Proof.
  induction l as [| c l IH]; [done |]. intros Hw.
  apply not_elem_of_cons in Hw as [Hne Hw].
  rewrite filter_cons_True by done. by rewrite IH.
Qed.

Lemma drop_beside_last (event e : string) (w cb : Callback) (T : Listeners) :
  cb ≠ w → (w ∉ default [] (T !! event)) →
  let T' := dropListeners e (Some cb) T in
  (w ∉ default [] (T' !! event))
  ∧ dropListeners e (Some cb) (<[event := default [] (T !! event) ++ [w]]> T)
    = <[event := default [] (T' !! event) ++ [w]]> T'.
Proof.
  intros Hne Hw T'. subst T'. unfold dropListeners.
  destruct (decide (e = event)) as [-> | Hev].
  - rewrite lookup_insert_eq.
    destruct (T !! event) as [l |] eqn:Hl; simpl in *.
    + rewrite lookup_insert_eq. simpl. split.
      * intros Hin. apply Hw. by apply list_elem_of_filter in Hin as [_ Hin].
      * rewrite filter_app, (filter_cons_True _ w) by done.
        rewrite filter_nil. by rewrite !insert_insert_eq.
    + rewrite Hl. simpl. split; [done |].
      rewrite (filter_cons_True _ w) by done. rewrite filter_nil.
      by rewrite insert_insert_eq.
  - rewrite lookup_insert_ne by done.
    destruct (T !! e) as [l |] eqn:Hl; [| done].
    rewrite lookup_insert_ne by done. split; [done |].
    by apply insert_insert_ne.
Qed.

Lemma foldl_invoke_beside_last (event : string) (w : Callback) registered :
  ∀ (T : Listeners) (log : list Callback),
    (w ∉ registered) → (w ∉ default [] (T !! event)) →
    let X := foldl invoke (T, log) registered in
    (w ∉ default [] (X.1 !! event))
    ∧ foldl invoke (<[event := default [] (T !! event) ++ [w]]> T, log) registered
      = (<[event := default [] (X.1 !! event) ++ [w]]> X.1, X.2).
Proof.
  induction registered as [| cb registered IH]; intros T log Hreg Hw; simpl.
  - done.
  - apply not_elem_of_cons in Hreg as [Hne Hreg].
    destruct cb as [id | serial e callback | | |]; simpl; try by apply IH.
    unfold EventEmitter_off. destruct (inheritedName e); [by apply IH |].
    destruct (drop_beside_last event e w (OnceWrapper serial e callback) T)
      as [Hw' ->]; [done .. |].
    by apply IH.
Qed.

(** X10 (once).  For an event name that is not inherited from
    [Object.prototype], a listener registered with [once] (on an emitter that
    keeps [EventEmitter]'s own [on]; its wrapper is a new function, hence not
    yet among the listeners) runs at the next [emit] of its event, after the
    listeners registered before it, and at no later one: after that [emit] the
    listeners are what they would be had [once] never been called (the event
    keeps at least an empty list), so a second [emit] runs the same functions
    either way. *)
Theorem once_listener_runs_at_the_first_emit_only
    (serial : nat) (event : string) (callback : nat) (events : Listeners) :
  inheritedName event = false →
  (OnceWrapper serial event callback ∉ default [] (events !! event)) →
  ∃ registered without first,
    EventEmitter_once serial event callback events = Some registered
    ∧ EventEmitter_emit event events = Some without
    ∧ EventEmitter_emit event registered = Some first
    ∧ first = (<[event := default [] (without.1 !! event)]> without.1,
               without.2 ++ [UserCallback callback])
    ∧ snd <$> EventEmitter_emit event first.1 = snd <$> EventEmitter_emit event without.1.
Proof.
  intros Hown Hfresh. unfold EventEmitter_once.
  exists (pushListener event (OnceWrapper serial event callback) events),
    (callListeners event events),
    (callListeners event
       (pushListener event (OnceWrapper serial event callback) events)).
  rewrite on_not_inherited, !(emit_not_inherited event) by done.
  split; [reflexivity |]. split; [reflexivity |]. split; [reflexivity |].
  assert (callListeners event
            (pushListener event (OnceWrapper serial event callback) events)
          = (<[event := default [] ((callListeners event events).1 !! event)]>
               (callListeners event events).1,
             (callListeners event events).2 ++ [UserCallback callback])) as Hfirst.
  { rewrite (callListeners_foldl event events).
    unfold pushListener, callListeners.
    rewrite lookup_insert_eq, foldl_app.
    destruct (foldl_invoke_beside_last event (OnceWrapper serial event callback)
                (default [] (events !! event)) events [] Hfresh Hfresh) as [Hw ->].
    cbn [foldl invoke fst snd]. rewrite off_not_inherited by done.
    unfold dropListeners. rewrite lookup_insert_eq.
    rewrite filter_app, filter_absent by done.
    rewrite filter_cons_False by (intros Hne; by apply Hne).
    rewrite filter_nil, app_nil_r. by rewrite insert_insert_eq. }
  split; [exact Hfirst |]. rewrite Hfirst.
  cbn [fmap option_fmap option_map fst].
  rewrite !callListeners_log. by rewrite lookup_insert_eq.
Qed.

(** A [once] listener added after a plain one runs second, and only once. *)
Lemma once_listener_runs_at_the_first_emit_only_witness :
  ∃ registered first,
    EventEmitter_once 0 "clap" 2 (pushListener "clap" (UserCallback 1) ∅) = Some registered
    ∧ EventEmitter_emit "clap" registered = Some first
    ∧ first.2 = [UserCallback 1; UserCallback 2]
    ∧ snd <$> EventEmitter_emit "clap" first.1 = Some [UserCallback 1].
Proof.
  destruct (once_listener_runs_at_the_first_emit_only 0 "clap" 2
              (pushListener "clap" (UserCallback 1) ∅) eq_refl)
    as (registered & without & first & Honce & Hwithout & Hfirst & Hran & Hsecond).
  { intros Hin. apply list_elem_of_singleton in Hin. discriminate Hin. }
  exists registered, first. split; [exact Honce |]. split; [exact Hfirst |].
  vm_compute in Hwithout. injection Hwithout as <-.
  split.
  - by rewrite Hran.
  - rewrite Hsecond. reflexivity.
Defined.

(** X11 (once and off).  For an event name that is not inherited from
    [Object.prototype], [off(event, callback)] does not cancel
    [once(event, callback)]: what is registered is the wrapper, not
    [callback], so the function still runs at the next [emit], after the
    listeners that [off] left. *)
Theorem off_does_not_remove_a_once_listener
    (serial : nat) (event : string) (callback : nat) (events : Listeners) :
  inheritedName event = false →
  ∃ registered removed left after after' ran,
    EventEmitter_once serial event callback events = Some registered
    ∧ EventEmitter_off event (Some (UserCallback callback)) registered = Some removed
    ∧ EventEmitter_off event (Some (UserCallback callback)) events = Some left
    ∧ EventEmitter_emit event left = Some (after, ran)
    ∧ EventEmitter_emit event removed = Some (after', ran ++ [UserCallback callback]).
Proof.
  intros Hown. unfold EventEmitter_once.
  set (registered := pushListener event (OnceWrapper serial event callback) events).
  set (removed := dropListeners event (Some (UserCallback callback)) registered).
  set (left := dropListeners event (Some (UserCallback callback)) events).
  exists registered, removed, left, (callListeners event left).1,
    (callListeners event removed).1, (callListeners event left).2.
  rewrite on_not_inherited, !(off_not_inherited event), !(emit_not_inherited event) by done.
  split; [reflexivity |]. split; [reflexivity |]. split; [reflexivity |].
  split; [by rewrite <- surjective_pairing |].
  f_equal. apply injective_projections; [reflexivity |]. cbn [snd].
  subst registered removed left. rewrite !callListeners_log.
  unfold pushListener, dropListeners.
  rewrite lookup_insert_eq, lookup_insert_eq. cbn [default Datatypes.id].
  rewrite filter_app, filter_cons_True, filter_nil by done.
  rewrite flat_map_app. cbn [flat_map called]. rewrite Hown. cbn [app]. f_equal.
  destruct (events !! event) as [registered |] eqn:Hev; cbn [default Datatypes.id].
  - by rewrite lookup_insert_eq.
  - by rewrite Hev.
Qed.

(** [off('clap', f)] after [once('clap', f)]: [f] still runs. *)
Lemma off_does_not_remove_a_once_listener_witness :
  ∃ registered removed after,
    EventEmitter_once 0 "clap" 1 ∅ = Some registered
    ∧ EventEmitter_off "clap" (Some (UserCallback 1)) registered = Some removed
    ∧ EventEmitter_emit "clap" removed = Some (after, [UserCallback 1]).
Proof.
  destruct (off_does_not_remove_a_once_listener 0 "clap" 1 ∅ eq_refl)
    as (registered & removed & left & after & after' & ran
        & Honce & Hoff & Hleft & Hemit & Hafter).
  exists registered, removed, after'. split; [exact Honce |]. split; [exact Hoff |].
  vm_compute in Hleft. injection Hleft as <-.
  vm_compute in Hemit. injection Hemit as _ <-. exact Hafter.
Defined.
End EventEmitterFacts.

(** ** The wired switch *)

Section WiredSwitch.
#[local] Open Scope Z_scope.

Lemma switchEmits_unheard e x :
  sw_events x = ∅ → switchEmits e x = (x, [SwitchEmits e]).
Proof.
  intros H. unfold switchEmits. rewrite H, callListeners_empty. simpl.
  destruct x; simpl in *; by subst.
Qed.

Lemma managerEmits_unheard e x :
  sw_managerEvents x = ∅ → managerEmits e x = (x, [ManagerEmits e]).
Proof.
  intros H. unfold managerEmits. rewrite H, callListeners_empty. simpl.
  destruct x; simpl in *; by subst.
Qed.

Lemma announce_unheard out : ∀ x trace,
  sw_events x = ∅ → sw_managerEvents x = ∅ →
  foldl announce (x, trace) out = (x, trace ++ map handedTo out).
Proof.
  induction out as [| e out IH]; intros x trace He Hm; simpl.
  - by rewrite app_nil_r.
  - assert (announce (x, trace) e = (x, trace ++ [handedTo e])) as ->.
    { unfold announce. cbn [fst snd].
      destruct e; rewrite ?switchEmits_unheard, ?managerEmits_unheard by done;
        reflexivity. }
    rewrite IH by done. by rewrite <- app_assoc.
Qed.

Lemma announceAll_unheard out x :
  sw_events x = ∅ → sw_managerEvents x = ∅ →
  announceAll out x = (x, map handedTo out).
Proof. intros He Hm. unfold announceAll. by rewrite announce_unheard. Qed.

Lemma wiring_clap : callListeners "clap" wiring = (wiring, [ClapListener]).
Proof. reflexivity. Qed.

Lemma wiring_error : callListeners "error" wiring = (wiring, [ForwardError]).
Proof. reflexivity. Qed.

Lemma wiring_start : callListeners "start" wiring = (wiring, []).
Proof. reflexivity. Qed.

Lemma wiring_stop : callListeners "stop" wiring = (wiring, []).
Proof. reflexivity. Qed.

Lemma set_processorEvents_same x :
  set_processorEvents (sw_processorEvents x) x = x.
Proof. by destruct x. Qed.

(** What the processor's emissions do to a wired switch. *)
Lemma processorEmits_wired now e x :
  wired x →
  processorEmits now e x =
    match e with
    | ProcClap =>
        (set_world (onClap now (sw_world x)).1 x,
         ProcessorEmits ProcClap :: Runs ClapListener
           :: map handedTo (onClap now (sw_world x)).2)
    | ProcError message =>
        (x, [ProcessorEmits e; Runs ForwardError; SwitchEmits (EmitError message)])
    | _ => (x, [ProcessorEmits e])
    end.
Proof.
  intros (He & Hm & Hp). unfold processorEmits. rewrite Hp.
  destruct e as [| | | message]; cbn [processorEventName].
  - rewrite wiring_start. cbn [fst snd foldl]. by rewrite <- Hp, set_processorEvents_same.
  - rewrite wiring_stop. cbn [fst snd foldl]. by rewrite <- Hp, set_processorEvents_same.
  - rewrite wiring_clap. cbn [fst snd foldl processorListenerRuns].
    rewrite <- Hp, set_processorEvents_same.
    destruct (onClap now (sw_world x)) as [w out]. cbn [fst snd].
    by rewrite announceAll_unheard.
  - rewrite wiring_error. cbn [fst snd foldl processorListenerRuns].
    rewrite <- Hp, set_processorEvents_same.
    by rewrite switchEmits_unheard.
Qed.

Lemma wired_set_world w x : wired x → wired (set_world w x).
Proof. by intros (? & ? & ?). Qed.

Lemma throughManager_wired call x :
  wired x →
  throughManager call x =
    let r := call (_stateManager (switch (sw_world x))) (localStorage (sw_world x)) in
    (r.1.1.1, set_world (set_stateManager r.1.1.2 r.1.2 (sw_world x)) x,
     map handedTo r.2).
Proof.
  intros (He & Hm & Hp). unfold throughManager.
  destruct (call _ _) as [[[result sm] ls] out]. simpl.
  by rewrite announceAll_unheard.
Qed.


Lemma internal_handedTo out : Forall internal (map handedTo out).
Proof. induction out as [| e out IH]; constructor; [by destruct e | done]. Qed.

Lemma emissions_handedTo out : emissions (map handedTo out) = out.
Proof. induction out as [| e out IH]; [done |]. destruct e; simpl; by rewrite IH. Qed.

(** What [start()] of the processor hands to [emit]: ['start'] when it
    starts, nothing when it was listening, the error when it throws. *)
Lemma start_emissions b ap :
  match (AudioProcessor_start b ap).1.1 with
  | Returned _ =>
      (AudioProcessor_start b ap).2 = (if _isListening ap then [] else [ProcStart])
  | Threw name message =>
      (AudioProcessor_start b ap).2 = [ProcError message] ∧ _isListening ap = false
  end.
Proof.
  unfold AudioProcessor_start, startFailed.
  destruct (_isListening ap); [done |].
  destruct (_audioContext ap) as [ctx |]; [| destruct (ans_createAudioContext b) as [ctx |]];
    try done;
    (destruct (ctx_state ctx); [destruct (ans_resume b) |]; try done;
     destruct (requestMicrophoneAccess (ans_getUserMedia b)); try done;
     destruct (ans_createMediaStreamSource b); done).
Qed.

Lemma stop_emissions ap :
  (AudioProcessor_stop ap).2 = if _isListening ap then [ProcStop] else [].
Proof. unfold AudioProcessor_stop. by destruct (_isListening ap). Qed.

Lemma analyze_emissions ap t ap' out calls :
  analyze ap t = Some (ap', out, calls) → out = [] ∨ out = [ProcClap].
Proof.
  unfold analyze. destruct (negb (_isListening ap)); [intros [= _ <- _]; by left |].
  destruct (_analyser ap) as [analyser |]; [simpl | done].
  destruct (loudEnough _ _); [| intros [= _ <- _]; by left].
  destruct (_audioContext ap) as [context |]; [simpl | done].
  destruct (_ && _); intros [= _ <- _]; auto.
Qed.

Lemma processorEmitsAll_wired now out x :
  wired x → (out = [] ∨ ∃ e, out = [e]) →
  processorEmitsAll now out x =
    match out with
    | [] => (x, [])
    | e :: _ => processorEmits now e x
    end.
Proof.
  intros Hx [-> | [e ->]]; [done |].
  unfold processorEmitsAll. cbn [foldl fst snd app].
  by destruct (processorEmits now e x).
Qed.

(** The listener of ['clap'], by cases on whether the clap completes the
    pattern. *)
Lemma onClap_cases now w :
  let count := patternCount w + 1 in
  let completes := bool_decide (count >= patternRequired w) in
  (onClap now w).2
    = EmitClap count
        :: (if completes then [EmitPattern count; EmitToggle (negb (switchIsOn w))] else [])
  ∧ switchIsOn (onClap now w).1 = (if completes then negb (switchIsOn w) else switchIsOn w)
  ∧ patternCount (onClap now w).1 = (if completes then 0 else count)
  ∧ cs_options (switch (onClap now w).1) = cs_options (switch w)
  ∧ _audioProcessor (switch (onClap now w).1) = _audioProcessor (switch w).
Proof.
  unfold onClap, _handleClap, patternCount, patternRequired, switchIsOn.
  rewrite StateManager_toggle_flips. cbn zeta.
  by destruct (bool_decide (_ >= _)).
Qed.

Lemma onClap_options now w :
  cs_options (switch (onClap now w).1) = cs_options (switch w).
Proof. apply onClap_cases. Qed.

Ltac internal_trace :=
  repeat (apply List.Forall_cons; [simpl; by auto |]); try apply List.Forall_nil.

Lemma invariant_set_stateManager sm ls w :
  patternInvariant w → patternInvariant (set_stateManager sm ls w).
Proof. by intros [H | H]; [left | right]. Qed.

Lemma invariant_set_audioProcessor ap w :
  patternInvariant w → patternInvariant (set_audioProcessor ap w).
Proof. by intros [H | H]; [left | right]. Qed.

(** One event keeps the listeners as the constructor left them, all that
    happens is internal, and the pattern machine stays in one of its two
    states. *)
Lemma wired_step x e x' trace :
  wired x → Switch_step x e = Some (x', trace) →
  wired x' ∧ Forall internal trace
  ∧ (patternInvariant (sw_world x) → patternInvariant (sw_world x'))
  ∧ cs_options (switch (sw_world x')) = cs_options (switch (sw_world x)).
Proof.
  intros Hx. pose proof Hx as (He & Hm & Hp).
  destruct e as [event callback | event callback | serial event callback |
                 | now devices b | now | t | id];
    cbn [Switch_step];
    try (unfold ClapSwitch_on, ClapSwitch_off, ClapSwitch_toggle;
         rewrite throughManager_wired by done; cbn [fst snd];
         intros [= <- <-]; split_and!;
         [done | apply internal_handedTo | apply invariant_set_stateManager | done]).
  - unfold ClapSwitch_start.
    destruct (negb (hasMicrophoneSupport devices)).
    { rewrite switchEmits_unheard by done. cbn [fst snd]. intros [= <- <-].
      split_and!; [done | internal_trace | done | done]. }
    pose proof (start_emissions b (_audioProcessor (switch (sw_world x)))) as Hout.
    destruct (AudioProcessor_start b _) as [[result ap] out]. cbn [fst snd] in Hout.
    set (x1 := set_world _ x). assert (wired x1) as Hx1 by done.
    destruct result as [[] | name message].
    + rewrite processorEmitsAll_wired, Hout;
        [| done | rewrite Hout; destruct (_isListening _); eauto].
      destruct (_isListening _).
      * rewrite switchEmits_unheard by done. cbn [fst snd]. intros [= <- <-].
        split_and!; [done | internal_trace | apply invariant_set_audioProcessor | done].
      * rewrite processorEmits_wired by done. rewrite switchEmits_unheard by done.
        cbn [fst snd]. intros [= <- <-].
        split_and!; [done | internal_trace | apply invariant_set_audioProcessor | done].
    + destruct Hout as [-> _].
      rewrite processorEmitsAll_wired by eauto.
      rewrite processorEmits_wired by done. rewrite switchEmits_unheard by done.
      cbn [fst snd]. intros [= <- <-].
      split_and!; [done | internal_trace | apply invariant_set_audioProcessor | done].
  - unfold ClapSwitch_stop.
    pose proof (stop_emissions (_audioProcessor (switch (sw_world x)))) as Hout.
    destruct (AudioProcessor_stop _) as [ap out]. cbn [fst snd] in Hout.
    set (x1 := set_world _ x). assert (wired x1) as Hx1 by done.
    rewrite processorEmitsAll_wired, Hout;
      [| done | rewrite Hout; destruct (_isListening _); eauto].
    destruct (_isListening _).
    + rewrite processorEmits_wired by done. rewrite switchEmits_unheard by done.
      cbn [fst snd]. intros [= <- <-].
      split_and!; [done | internal_trace | apply invariant_set_audioProcessor | done].
    + rewrite switchEmits_unheard by done.
      cbn [fst snd]. intros [= <- <-].
      split_and!; [done | internal_trace | apply invariant_set_audioProcessor | done].
  - unfold Switch_analyze.
    destruct (analyze _ t) as [[[ap out] calls] |] eqn:Hstep; [| done].
    cbn [mbind option_bind]. intros [= Hrun].
    set (x1 := set_world _ x) in Hrun. assert (wired x1) as Hx1 by done.
    destruct (analyze_emissions _ _ _ _ _ Hstep) as [-> | ->].
    + rewrite processorEmitsAll_wired in Hrun by eauto.
      injection Hrun as <- <-.
      split_and!; [done | done | apply invariant_set_audioProcessor | done].
    + rewrite processorEmitsAll_wired in Hrun by eauto.
      rewrite processorEmits_wired in Hrun by done.
      injection Hrun as <- <-. split_and!; [done | | |].
      * internal_trace. apply internal_handedTo.
      * intros Hinv. apply invariant_onClap.
        by apply invariant_set_audioProcessor.
      * cbn [sw_world set_world]. by rewrite onClap_options.
  - unfold Switch_fireTimer.
    destruct (fireTimer id (sw_world x)) as [[w out] |] eqn:Hfire; [| done].
    cbn [mbind option_bind]. rewrite announceAll_unheard by done.
    intros [= <- <-]. split_and!; [done | apply internal_handedTo | |].
    + intros Hinv. left. eapply invariant_fireTimer; eauto.
    + by apply fireTimer_Some in Hfire as (due & _ & -> & _).
Qed.

Lemma wired_run events : ∀ x x' trace,
  wired x → Switch_run x events = Some (x', trace) →
  wired x' ∧ Forall internal trace
  ∧ (patternInvariant (sw_world x) → patternInvariant (sw_world x'))
  ∧ cs_options (switch (sw_world x')) = cs_options (switch (sw_world x)).
Proof.
  induction events as [| e events IH]; intros x x' trace Hx; simpl.
  - intros [= <- <-]. by split_and!.
  - destruct (Switch_step x e) as [[x1 trace1] |] eqn:Hstep; [simpl | done].
    destruct (Switch_run x1 events) as [[x2 trace2] |] eqn:Hrun; [simpl | done].
    intros [= <- <-].
    destruct (wired_step _ _ _ _ Hx Hstep) as (Hx1 & H1 & Hinv1 & Hopt1).
    destruct (IH _ _ _ Hx1 Hrun) as (Hx2 & H2 & Hinv2 & Hopt2).
    split_and!; [done | by apply Forall_app | auto | congruence].
Qed.

Lemma Switch_run_app x events1 events2 :
  Switch_run x (events1 ++ events2) =
    '(x1, trace1) ← Switch_run x events1;
    '(x2, trace2) ← Switch_run x1 events2;
    Some (x2, trace1 ++ trace2).
Proof.
  revert x. induction events1 as [| e events1 IH]; intros x; simpl.
  - destruct (Switch_run x events2) as [[x2 trace2] |]; reflexivity.
  - destruct (Switch_step x e) as [[x1 trace1] |]; simpl; [| reflexivity].
    rewrite IH. destruct (Switch_run x1 events1) as [[x2 trace2] |]; simpl; [| reflexivity].
    destruct (Switch_run x2 events2) as [[x3 trace3] |]; simpl; [| reflexivity].
    by rewrite app_assoc.
Qed.

Lemma constructed_switch storage o firstTimer :
  let persists := statePersistence (mergeOptions o) && ls_present storage in
  let wasOn :=
    persists && negb (getItem_throws storage "ovation_state")
    && bool_decide (ls_items storage !! "ovation_state" = Some "true"%string) in
  ∃ x,
    ClapSwitch_new true storage o firstTimer
      = (Some x,
         if wasOn then [] else [ManagerEmits (EmitToggle true)],
         if autoStart (mergeOptions o) then Some 100 else None)
    ∧ ClapSwitch_isOn x = true
    ∧ localStorage (sw_world x)
      = (if persists && negb wasOn
            && negb (setItem_throws storage "ovation_state" "true")
         then setItem "ovation_state" "true" storage else storage)
    ∧ wired x
    ∧ idle (sw_world x)
    ∧ cs_options (switch (sw_world x)) = mergeOptions o
    ∧ _audioProcessor (switch (sw_world x))
      = AudioProcessor_constructor
          {| arg_threshold := Some (cs_threshold (mergeOptions o));
             arg_minDecibels := Some (cs_minDecibels (mergeOptions o));
             arg_frequencyRange := Some (cs_frequencyRange (mergeOptions o));
             arg_minAttackTime := None;
             arg_maxAttackTime := None;
             arg_debug := Some (cs_debug (mergeOptions o)) |}.
Proof.
  unfold ClapSwitch_new, ClapSwitch_components. cbn [negb].
  unfold announceAll at 1. cbn [foldl fst snd app].
  unfold _setupEventListeners, StateManager_on, StateManager_setState,
    StateManager_constructor, _getInitialState, _persistState.
  cbn [sw_world initialWorld switch _stateManager localStorage default
       sm_statePersistence sm_storageKey sm_initialState _state sm_options
       arg_sm_statePersistence arg_sm_storageKey arg_sm_initialState].
  change (default false (Some ?b)) with b.
  destruct (statePersistence (mergeOptions o)), (ls_present storage);
    cbn [andb negb String_of_bool];
    try (rewrite (bool_decide_eq_false_2 (true = false)) by done;
         rewrite announceAll_unheard by done;
         eexists; split; [reflexivity |]; by split_and!).
  destruct (getItem_throws storage "ovation_state"); cbn [andb negb].
  { rewrite (bool_decide_eq_false_2 (true = false)) by done.
    rewrite announceAll_unheard by done.
    cbn [set_world set_stateManager sw_world localStorage].
    destruct (setItem_throws storage "ovation_state" "true");
      eexists; (split; [reflexivity |]); by split_and!. }
  destruct (ls_items storage !! "ovation_state") as [saved |] eqn:Hsaved.
  - destruct (bool_decide (saved = "true")) eqn:Htrue.
    + apply bool_decide_eq_true in Htrue as ->.
      rewrite (bool_decide_eq_true_2 (Some "true" = Some "true")) by done.
      rewrite (bool_decide_eq_true_2 (true = true)) by done.
      rewrite announceAll_unheard by done.
      eexists. split; [reflexivity |]. by split_and!.
    + apply bool_decide_eq_false in Htrue.
      rewrite (bool_decide_eq_false_2 (Some saved = Some "true")) by congruence.
      rewrite (bool_decide_eq_false_2 (true = false)) by done.
      rewrite announceAll_unheard by done.
      cbn [set_world set_stateManager sw_world localStorage negb andb].
      destruct (setItem_throws storage "ovation_state" "true");
        eexists; (split; [reflexivity |]); by split_and!.
  - rewrite (bool_decide_eq_false_2 (None = Some "true")) by done.
    rewrite (bool_decide_eq_false_2 (true = false)) by done.
    rewrite announceAll_unheard by done.
    cbn [set_world set_stateManager sw_world localStorage negb andb].
    destruct (setItem_throws storage "ovation_state" "true");
      eexists; (split; [reflexivity |]); by split_and!.
Qed.

Lemma constructed_switch_wired storage o firstTimer x trace scheduled :
  ClapSwitch_new true storage o firstTimer = (Some x, trace, scheduled) →
  wired x ∧ patternInvariant (sw_world x) ∧ ClapSwitch_isOn x = true.
Proof.
  destruct (constructed_switch storage o firstTimer)
    as (x0 & -> & Hon & _ & Hx & Hidle & _).
  intros [= <- _ _]. split_and!; [done | by left | done].
Qed.

Lemma setState_state newState sm ls :
  _state (StateManager_setState newState sm ls).1.1.2 = newState.
Proof.
  unfold StateManager_setState. case_bool_decide; simpl; congruence.
Qed.

End WiredSwitch.

(** ** The constructed switch and the worlds it reaches *)

Section ConstructedSwitch.
#[local] Open Scope Z_scope.

Lemma newSwitch_constructed :
  ClapSwitch_new true ∅ noOptions 1 = (Some newSwitch, [ManagerEmits (EmitToggle true)], None).
Proof. reflexivity. Qed.

Lemma newSwitch_wired : wired newSwitch.
Proof. by split_and!. Qed.

Lemma defaultWorld_reachable : reachable defaultWorld.
Proof.
  exact (reachable_switch ∅ noOptions 1 newSwitch _ _ [] newSwitch []
           newSwitch_constructed eq_refl).
Qed.

Lemma reachable_invariant w : reachable w → patternInvariant w.
Proof.
  induction 1 as [storage o first x trace0 scheduled events x' trace Hnew Hrun
                 | w e w' out _ IH Hstep].
  - destruct (constructed_switch_wired _ _ _ _ _ _ Hnew) as (Hx & Hinv & _).
    destruct (wired_run _ _ _ _ Hx Hrun) as (_ & _ & Hinv' & _). by apply Hinv'.
  - eapply invariant_step; eauto.
Qed.

(** C7 (pattern state invariant).  In every world a constructed switch can
    reach (from [new ClapSwitch(options)], listeners set up, by calls of its
    interface, analysis ticks, claps and firing timeouts), a timeout set by
    [_handleClap] is pending exactly when the clap count is strictly between 0
    and [requiredClaps]; and a step that emits ['pattern'] (completion) or
    ['pattern-canceled'] (cancellation) ends with count 0 and nothing pending.
    The pending deadline is the browser's timer: the field [_clapTimer] keeps
    the stale handle after the timer fired or was cleared. *)
Theorem pattern_state_invariant (w : World) :
  reachable w →
  (deadlinePending w ↔ 0 < patternCount w < patternRequired w)
  ∧ (∀ e w' out n,
       step w e = Some (w', out) →
       EmitPattern n ∈ out ∨ EmitPatternCanceled n ∈ out →
       patternCount w' = 0 ∧ ¬ deadlinePending w').
Proof.
  intros Hinv%reachable_invariant. split; [by apply invariant_pending_iff|].
  intros e w' out n Hstep Hout.
  assert (idle w') as [Hc Hnone]; [| split; [done | by intros []]].
  destruct e as [now | id]; simpl in Hstep.
  - injection Hstep as Hw. pose proof (onClap_emits_pattern now w n Hinv) as H.
    rewrite Hw in H. by apply H.
  - eapply invariant_fireTimer; eauto.
Qed.

(** C1 (pattern completion).  From a reachable world with count 0, exactly
    [requiredClaps] claps in a row (no timeout fires in between; [requiredClaps]
    is at least 1, as the specification's PatternConfig has it) emit the
    ['clap'] notifications 1 .. [requiredClaps], then one ['pattern'] carrying
    [requiredClaps] and one ['toggle'] (each [toggle()] of the state manager
    emits one): the state is flipped once, no ['pattern-canceled'] is emitted,
    and afterwards the count is 0 and no timeout is pending. *)
Theorem pattern_completion (w : World) (times : list Z) :
  reachable w →
  patternCount w = 0 →
  1 <= patternRequired w →
  Z.of_nat (length times) = patternRequired w →
  ∃ w' out,
    run w (map ClapDetected times) = Some (w', out)
    ∧ out = map EmitClap (seqZ 1 (patternRequired w))
              ++ [EmitPattern (patternRequired w); EmitToggle (negb (switchIsOn w))]
    ∧ List.filter isPattern out = [EmitPattern (patternRequired w)]
    ∧ List.filter isToggle out = [EmitToggle (negb (switchIsOn w))]
    ∧ List.filter isPatternCanceled out = []
    ∧ switchIsOn w' = negb (switchIsOn w)
    ∧ patternCount w' = 0
    ∧ ¬ deadlinePending w'.
Proof.
  intros Hinv%reachable_invariant Hzero Hreq Hlen.
  destruct times as [| t0 times0] using rev_ind; [simpl in Hlen; lia | clear IHtimes0].
  rewrite length_app, Nat2Z.inj_add in Hlen. simpl in Hlen.
  destruct (run_claps_accumulate times0 w Hinv) as
    (w1 & Hrun & Hinv1 & Hcount & Hopt & Hsm & Hls & _ & _); [lia|].
  assert (patternCount w1 + 1 >= patternRequired w1) as Hge.
  { unfold patternRequired in *. rewrite Hopt. lia. }
  pose proof (handleClap_completes t0 w1 Hinv1 Hge) as Hlast.
  eexists _, _. split.
  { rewrite map_app, run_app, Hrun. simpl. unfold onClap. rewrite Hlast. simpl.
    reflexivity. }
  assert (patternCount w1 + 1 = patternRequired w) as Hn by lia.
  assert (switchIsOn w1 = switchIsOn w) as Hon by (unfold switchIsOn; by rewrite Hsm).
  fold (patternCount w1). rewrite Hn, Hon, Hzero. simpl.
  assert (seqZ 1 (patternRequired w)
          = seqZ 1 (Z.of_nat (length times0)) ++ [patternRequired w]) as Hseq.
  { rewrite <- Hlen at 1. rewrite seqZ_app by lia. f_equal.
    rewrite seqZ_cons by lia. rewrite seqZ_nil by lia. f_equal. lia. }
  split_and!.
  - by rewrite Hseq, map_app, <- app_assoc.
  - by rewrite List.filter_app, filter_isPattern_claps.
  - by rewrite List.filter_app, filter_isToggle_claps.
  - by rewrite List.filter_app, filter_isPatternCanceled_claps.
  - reflexivity.
  - reflexivity.
  - unfold deadlinePending. simpl. by intros [].
Qed.

(** C2 (pattern cancellation).  From a reachable world with count 0, [k]
    claps in a row with [0 < k < requiredClaps], the last at [last_clap], emit
    neither ['pattern'] nor ['pattern-canceled'].  If no clap follows, nothing
    fires before [last_clap + clapTimeout]; by any later time [until] exactly
    one ['pattern-canceled'] carrying [k] has fired, at
    [last_clap + clapTimeout]; afterwards the count is 0, nothing is pending,
    and no further time makes anything fire. *)
Theorem pattern_cancellation (w : World) (times : list Z) (last_clap until : Z) :
  reachable w →
  patternCount w = 0 →
  0 < Z.of_nat (length times) < patternRequired w →
  0 <= patternTimeout w →
  last times = Some last_clap →
  last_clap + patternTimeout w < until →
  ∃ w1 out1 w2,
    run w (map ClapDetected times) = Some (w1, out1)
    ∧ List.filter isPatternCanceled out1 = []
    ∧ List.filter isPattern out1 = []
    ∧ (∀ earlier, earlier < last_clap + patternTimeout w → elapse earlier w1 = (w1, []))
    ∧ elapse until w1
        = (w2, [(last_clap + patternTimeout w, EmitPatternCanceled (Z.of_nat (length times)))])
    ∧ patternCount w2 = 0
    ∧ ¬ deadlinePending w2
    ∧ (∀ later, elapse later w2 = (w2, [])).
Proof.
  intros Hinv%reachable_invariant Hzero Hk Htimeout Hlast Huntil.
  destruct (run_claps_accumulate times w Hinv) as
    (w1 & Hrun & Hinv1 & Hcount & Hopt & Hsm & Hls & _ & Hdue); [lia|].
  destruct (Hdue _ Hlast) as [id Htimers].
  rewrite Z.max_r in Htimers by done.
  set (due := last_clap + patternTimeout w) in *.
  assert (fireTimer id w1 = Some
            (clapTimerCallback {| switch := switch w1; localStorage := localStorage w1;
                                  timers := ∅; nextTimer := nextTimer w1 |})) as Hfire.
  { unfold fireTimer. by rewrite Htimers, lookup_singleton_eq, delete_singleton_eq. }
  eexists w1, _, _. split; [exact Hrun|]. split_and!.
  - apply filter_isPatternCanceled_claps.
  - apply filter_isPattern_claps.
  - intros earlier Hearlier. unfold elapse. rewrite Htimers, dueBy_singleton.
    by rewrite decide_False by lia.
  - unfold elapse. rewrite Htimers, dueBy_singleton, decide_True by lia.
    simpl. unfold fireDue. simpl. rewrite Hfire. unfold clapTimerCallback. simpl.
    fold (patternCount w1). rewrite bool_decide_eq_true_2 by lia.
    simpl. rewrite Hcount, Hzero. reflexivity.
  - reflexivity.
  - unfold deadlinePending. simpl. by intros [].
  - intros later. by apply elapse_idle.
Qed.

(** Scenario C: two claps 400 ms apart complete the default two-clap pattern;
    the new switch is on, so the pattern switches it off. *)
Lemma pattern_completion_witness :
  ∃ w',
    run defaultWorld [ClapDetected 0; ClapDetected 400]
      = Some (w', [EmitClap 1; EmitClap 2; EmitPattern 2; EmitToggle false])
    ∧ patternCount w' = 0%Z
    ∧ ¬ deadlinePending w'.
Proof.
  destruct (pattern_completion defaultWorld [0; 400]%Z defaultWorld_reachable)
    as (w' & out & Hrun & -> & _ & _ & _ & _ & Hcount & Hnone);
    [reflexivity | rewrite defaultWorld_required; lia | reflexivity |].
  exists w'. split_and!; [exact Hrun | exact Hcount | exact Hnone].
Defined.

(** Scenario D: one clap at 0 and silence until 1001 cancel at 1000. *)
Lemma pattern_cancellation_witness :
  ∃ w1 w2,
    run defaultWorld [ClapDetected 0] = Some (w1, [EmitClap 1])
    ∧ elapse 1001 w1 = (w2, [(1000%Z, EmitPatternCanceled 1)])
    ∧ patternCount w2 = 0%Z.
Proof.
  destruct (pattern_cancellation defaultWorld [0%Z] 0 1001 defaultWorld_reachable)
    as (w1 & out1 & w2 & Hrun & _ & _ & _ & Hfire & Hcount & _);
    [reflexivity | rewrite defaultWorld_required; simpl; lia
     | rewrite defaultWorld_timeout; lia | reflexivity
     | rewrite defaultWorld_timeout; lia |].
  exists w1, w2. split_and!; [| exact Hfire | exact Hcount].
  simpl in Hrun |- *. injection Hrun as <- <-. reflexivity.
Defined.

(** After the first of two required claps the deadline is pending. *)
Lemma pattern_state_invariant_witness :
  deadlinePending (onClap 0 defaultWorld).1
  ↔ (0 < patternCount (onClap 0 defaultWorld).1
       < patternRequired (onClap 0 defaultWorld).1)%Z.
Proof.
  apply (pattern_state_invariant (onClap 0 defaultWorld).1).
  exact (reachable_step defaultWorld (ClapDetected 0) _ _ defaultWorld_reachable eq_refl).
Defined.

(** *** A switch that runs *)

(** A [start()] that is granted everything, on an idle processor. *)
Lemma AudioProcessor_start_granted b ap context stream :
  _isListening ap = false →
  ans_createAudioContext b = Returned context →
  ans_resume b = Returned () →
  ans_getUserMedia b = Returned stream →
  ans_createMediaStreamSource b = Returned () →
  ∃ ap' context' analyser,
    AudioProcessor_start b ap = (Returned (), ap', [ProcStart])
    ∧ listening ap' context' analyser
    ∧ options ap' = options ap.
Proof.
  intros Hidle Hc Hr Hm Hs. unfold AudioProcessor_start.
  rewrite Hidle, Hc, Hr, Hm, Hs. cbn [requestMicrophoneAccess].
  destruct ap as [o l [[[] rate] |] an mic ms last cd len td fd frame];
    try destruct context as [[] rate'];
    cbn [_audioContext ctx_state]; eexists _, _, _; (split; [reflexivity |]);
    unfold listening; by split_and!.
Qed.

Lemma ClapSwitch_start_granted now devices b context stream x :
  wired x →
  _isListening (_audioProcessor (switch (sw_world x))) = false →
  hasMicrophoneSupport devices = true →
  ans_createAudioContext b = Returned context →
  ans_resume b = Returned () →
  ans_getUserMedia b = Returned stream →
  ans_createMediaStreamSource b = Returned () →
  ∃ x1 context' analyser,
    ClapSwitch_start now devices b x
      = (Returned (), x1, [ProcessorEmits ProcStart; SwitchEmits EmitStart])
    ∧ wired x1
    ∧ listening (_audioProcessor (switch (sw_world x1))) context' analyser
    ∧ cs_options (switch (sw_world x1)) = cs_options (switch (sw_world x))
    ∧ options (_audioProcessor (switch (sw_world x1)))
      = options (_audioProcessor (switch (sw_world x))).
Proof.
  intros Hx Hidle Hmic Hc Hr Hm Hs. unfold ClapSwitch_start.
  rewrite Hmic. cbn [negb].
  destruct (AudioProcessor_start_granted b _ context stream Hidle Hc Hr Hm Hs)
    as (ap' & context' & analyser & -> & Hl & Hopt).
  set (x1 := set_world _ x). assert (wired x1) as Hx1 by done.
  rewrite processorEmitsAll_wired by eauto.
  rewrite processorEmits_wired by done. cbn [fst snd].
  rewrite switchEmits_unheard by apply Hx1.
  cbn [fst snd app]. exists x1, context', analyser. by split_and!.
Qed.

(** One analysis tick of a wired switch whose processor is listening. *)
Lemma Switch_analyze_listening x context analyser t :
  wired x →
  listening (_audioProcessor (switch (sw_world x))) context analyser →
  let ap := _audioProcessor (switch (sw_world x)) in
  let claps := clapsNow ap context analyser t in
  let ap' :=
    afterTick (tick_timeData t)
              (if loudEnough (options ap) (tick_timeData t)
               then Some (tick_frequencyData t) else None)
              (if claps then tick_now t else _lastClapTime ap)
              (tick_nextFrame t) ap in
  let w := set_audioProcessor ap' (sw_world x) in
  Switch_analyze t x
  = Some (if claps
          then (set_world (onClap (tick_now t) w).1 x,
                ProcessorEmits ProcClap :: Runs ClapListener
                  :: map handedTo (onClap (tick_now t) w).2)
          else (set_world w x, [])).
Proof.
  intros Hx (Hon & Hctx & Han). cbn zeta.
  unfold Switch_analyze, analyze, clapsNow, qualifies.
  rewrite Hon, Han, Hctx. cbn [negb mbind option_bind].
  assert (∀ w, wired (set_world w x)) as Hx1 by (intros w; by apply wired_set_world).
  destruct (loudEnough _ _); cbn [andb].
  - destruct (isInFrequencyRange _ _ && hasCorrectAttackTime _ _
              && bool_decide (tick_now t - _ > _)); cbn [mbind option_bind].
    + rewrite processorEmitsAll_wired by eauto.
      by rewrite processorEmits_wired by done.
    + by rewrite processorEmitsAll_wired by eauto.
  - cbn [mbind option_bind]. by rewrite processorEmitsAll_wired by eauto.
Qed.

Lemma handedTo_no_error now w :
  Forall (fun t => isError t = false) (map handedTo (onClap now w).2).
Proof.
  destruct (onClap_cases now w) as (-> & _).
  destruct (bool_decide _); repeat constructor.
Qed.

(** Analysis ticks of a listening switch are all processed, none ends in an
    error, and the configuration stays. *)
Lemma analysis_runs ticks : ∀ x context analyser,
  wired x →
  listening (_audioProcessor (switch (sw_world x))) context analyser →
  ∃ x' trace,
    Switch_run x (map Analysis ticks) = Some (x', trace)
    ∧ Forall (fun t => isError t = false) trace
    ∧ ClapSwitch_isListening x' = true
    ∧ cs_options (switch (sw_world x')) = cs_options (switch (sw_world x))
    ∧ options (_audioProcessor (switch (sw_world x')))
      = options (_audioProcessor (switch (sw_world x))).
Proof.
  induction ticks as [| t ticks IH]; intros x context analyser Hx Hl.
  - exists x, []. split_and!; try done. apply Hl.
  - cbn [map Switch_run Switch_step].
    rewrite (Switch_analyze_listening x context analyser t Hx Hl). cbn zeta.
    set (ap' := afterTick _ _ _ _ _).
    set (w := set_audioProcessor ap' (sw_world x)).
    destruct (onClap_cases (tick_now t) w) as (_ & _ & _ & Ho & Hap).
    pose proof (handedTo_no_error (tick_now t) w) as Hquiet.
    destruct (clapsNow _ context analyser t); cbn [mbind option_bind].
    + destruct (IH (set_world (onClap (tick_now t) w).1 x) context analyser)
        as (x' & trace & -> & Htrace & Hon & Hopt & Hproc).
      { done. }
      { cbn [sw_world set_world]. rewrite Hap. exact Hl. }
      cbn [mbind option_bind]. eexists _, _. split; [reflexivity |].
      cbn [sw_world set_world] in Hopt, Hproc. rewrite Ho in Hopt. rewrite Hap in Hproc.
      split_and!; try done.
      repeat (apply List.Forall_cons; [done |]). by apply Forall_app.
    + destruct (IH (set_world w x) context analyser)
        as (x' & trace & -> & Htrace & Hon & Hopt & Hproc); [done | exact Hl |].
      cbn [mbind option_bind]. eexists _, _. split; [reflexivity |].
      by split_and!.
Qed.

(** With an inverted frequency range no tick is a clap. *)
Lemma inverted_range_is_no_clap ap context analyser t :
  (fst (frequencyRange (options ap)) > snd (frequencyRange (options ap)))%R →
  clapsNow ap context analyser t = false.
Proof.
  intros Hinverted. unfold clapsNow, qualifies, isInFrequencyRange.
  destruct (bool_decide (_ >= _)%R) eqn:Hlow; [| by rewrite !andb_false_r].
  destruct (bool_decide (_ <= _)%R) eqn:Hhigh; [| by rewrite !andb_false_r].
  apply bool_decide_eq_true in Hlow, Hhigh. lra.
Qed.

(** The clap frame is a clap for a processor with the default options, once
    the cooldown is over. *)
Lemma clapTick_claps ap now frame :
  threshold (options ap) = 0.3%R → minDecibels (options ap) = (-45)%R →
  frequencyRange (options ap) = (2000%R, 4000%R) →
  minAttackTime (options ap) = 5%R → maxAttackTime (options ap) = 20%R →
  now - _lastClapTime ap > _cooldownPeriod ap →
  clapsNow ap grantedContext installedAnalyser (clapTick now frame) = true.
Proof.
  intros Ht Hm Hf Hmin Hmax Hnow. unfold clapsNow.
  rewrite clapTick_qualifies by done. by apply bool_decide_eq_true.
Qed.

(** C8, refuted: [new ClapSwitch({ requiredClaps: 0, frequencyRange: [4000,
    2000] })] is constructed with its listeners and no error, keeps both
    values, starts when it is granted the microphone, and analyses its ticks:
    with the inverted range not even the clap frame is a clap.  And
    [new ClapSwitch({ requiredClaps: 0 })] runs as well: the first clap it
    hears already completes a pattern and switches it off. *)
Lemma invalid_configuration_is_accepted :
  ∃ x started y heard,
    ClapSwitch_new true ∅ invalidOptions 1
      = (Some x, [ManagerEmits (EmitToggle true)], None)
    ∧ requiredClaps (cs_options (switch (sw_world x))) = 0
    ∧ frequencyRange (options (_audioProcessor (switch (sw_world x)))) = (4000%R, 2000%R)
    ∧ ClapSwitch_start 0 oneMicrophone microphoneGranted x
      = (Returned (), started, [ProcessorEmits ProcStart; SwitchEmits EmitStart])
    ∧ ClapSwitch_isListening started = true
    ∧ snd <$> Switch_analyze (clapTick 1000 2) started = Some []
    ∧ ClapSwitch_new true ∅ zeroClapsOptions 1
      = (Some y, [ManagerEmits (EmitToggle true)], None)
    ∧ requiredClaps (cs_options (switch (sw_world y))) = 0
    ∧ ClapSwitch_start 0 oneMicrophone microphoneGranted y
      = (Returned (), heard, [ProcessorEmits ProcStart; SwitchEmits EmitStart])
    ∧ snd <$> Switch_analyze (clapTick 1000 2) heard
      = Some [ProcessorEmits ProcClap; Runs ClapListener; SwitchEmits (EmitClap 1);
              SwitchEmits (EmitPattern 1); ManagerEmits (EmitToggle false)].
Proof.
  eexists _, _, _, _.
  split; [reflexivity |]. split; [reflexivity |]. split; [reflexivity |].
  split; [reflexivity |]. split; [reflexivity |]. split.
  { rewrite (Switch_analyze_listening _ grantedContext installedAnalyser)
      by (by split_and!).
    cbn zeta. rewrite inverted_range_is_no_clap by (change (4000 > 2000)%R; lra).
    reflexivity. }
  split; [reflexivity |]. split; [reflexivity |]. split; [reflexivity |].
  rewrite (Switch_analyze_listening _ grantedContext installedAnalyser)
    by (by split_and!).
  cbn zeta. rewrite clapTick_claps by (reflexivity || (change (1000 - 0 > 300); lia)).
  reflexivity.
Qed.

(** C8, as the code has it.  Neither constructor validates.  Where Web Audio
    is supported, [new ClapSwitch(options)] always yields an instance with its
    listeners and no error, whatever the options: each option is the supplied
    value or else its default, and the processor inside receives the supplied
    threshold, decibel floor and frequency range unchanged.  The instance
    runs: a [start()] that is granted the microphone returns, every analysis
    tick after it is processed, none ends in an error, the processor stays
    listening and the configuration stays what it was.  The only check at
    construction is the one for Web Audio support, which does not look at the
    options. *)
Theorem constructors_accept_every_configuration
    (storage : Storage) (o : ClapSwitchOptionsArg) (firstTimer : positive)
    (p : ProcessorOptionsArg) :
  (∃ x trace,
     ClapSwitch_new true storage o firstTimer
       = (Some x, trace, if default false (arg_autoStart o) then Some 100 else None)
     ∧ Forall (fun t => isError t = false) trace
     ∧ requiredClaps (cs_options (switch (sw_world x))) = default 2 (arg_requiredClaps o)
     ∧ clapTimeout (cs_options (switch (sw_world x))) = default 1000 (arg_clapTimeout o)
     ∧ clapInterval (cs_options (switch (sw_world x))) = default 500 (arg_clapInterval o)
     ∧ threshold (options (_audioProcessor (switch (sw_world x))))
       = default 0.3%R (arg_cs_threshold o)
     ∧ minDecibels (options (_audioProcessor (switch (sw_world x))))
       = default (-45)%R (arg_cs_minDecibels o)
     ∧ frequencyRange (options (_audioProcessor (switch (sw_world x))))
       = default (2000%R, 4000%R) (arg_cs_frequencyRange o)
     ∧ minAttackTime (options (_audioProcessor (switch (sw_world x)))) = 5%R
     ∧ maxAttackTime (options (_audioProcessor (switch (sw_world x)))) = 20%R
     ∧ _cooldownPeriod (_audioProcessor (switch (sw_world x))) = 300
     ∧ ∀ now devices b context stream ticks,
         hasMicrophoneSupport devices = true →
         ans_createAudioContext b = Returned context →
         ans_resume b = Returned () →
         ans_getUserMedia b = Returned stream →
         ans_createMediaStreamSource b = Returned () →
         ∃ x' trace',
           Switch_run x (Calls_start now devices b :: map Analysis ticks)
             = Some (x', trace')
           ∧ Forall (fun t => isError t = false) trace'
           ∧ ClapSwitch_isListening x' = true
           ∧ cs_options (switch (sw_world x')) = cs_options (switch (sw_world x))
           ∧ options (_audioProcessor (switch (sw_world x')))
             = options (_audioProcessor (switch (sw_world x))))
  ∧ ClapSwitch_new false storage o firstTimer
    = (None, [SwitchEmits (EmitError "Web Audio API is not supported in this browser.")],
       None)
  ∧ threshold (options (AudioProcessor_constructor p)) = default 0.3%R (arg_threshold p)
  ∧ minDecibels (options (AudioProcessor_constructor p)) = default (-45)%R (arg_minDecibels p)
  ∧ frequencyRange (options (AudioProcessor_constructor p))
    = default (2000%R, 4000%R) (arg_frequencyRange p)
  ∧ minAttackTime (options (AudioProcessor_constructor p)) = default 5%R (arg_minAttackTime p)
  ∧ maxAttackTime (options (AudioProcessor_constructor p)) = default 20%R (arg_maxAttackTime p).
Proof.
  split_and!; try reflexivity.
  destruct (constructed_switch storage o firstTimer)
    as (x & Hnew & _ & _ & Hx & _ & Ho & Hap).
  exists x. eexists. split; [exact Hnew |].
  split.
  { destruct (_ && _); repeat constructor. }
  rewrite Ho, Hap. split_and!; try reflexivity.
  intros now devices b context stream ticks Hmic Hc Hr Hm Hs.
  destruct (ClapSwitch_start_granted now devices b context stream x Hx)
    as (x1 & context' & analyser & Hstart & Hx1 & Hl & Hopt & Hproc); try done.
  { by rewrite Hap. }
  destruct (analysis_runs ticks x1 context' analyser Hx1 Hl)
    as (x' & trace & Hrun & Htrace & Hon & Hopt' & Hproc').
  cbn [Switch_run Switch_step]. rewrite Hstart. cbn [fst snd mbind option_bind].
  rewrite Hrun. cbn [mbind option_bind]. eexists _, _. split; [reflexivity |].
  rewrite Ho, Hap in *. split_and!; try done; try congruence.
  repeat (apply List.Forall_cons; [done |]). exact Htrace.
Qed.

End ConstructedSwitch.

Section SwitchInterface.
#[local] Open Scope Z_scope.

(** X1 (the constructor switches on).  Where the Web Audio API is found,
    [new ClapSwitch(options)] always leaves the switch on, whatever was
    persisted: [_setupEventListeners] calls [this._stateManager.on('toggle',
    ...)], which is the method [on()] of [StateManager], that is
    [setState(true)].  The state manager emits one ['toggle'] unless the
    persisted state was already on, which it is when [statePersistence] is
    set, [localStorage] is there, [getItem] does not throw and the key
    ['ovation_state'] holds ['true'].  When the state changes under
    [statePersistence] with [localStorage] there, ['true'] is stored under the
    key, unless [setItem] throws; otherwise the storage is left as it was.  No
    listener is registered on the switch or on the state manager, and the
    processor has the two listeners for ['error'] and ['clap'].  The pattern
    machine starts with count 0 and no timeout. *)
Theorem constructor_turns_the_switch_on
    (storage : Storage) (o : ClapSwitchOptionsArg) (firstTimer : positive) :
  let persists := statePersistence (mergeOptions o) && ls_present storage in
  let wasOn :=
    persists && negb (getItem_throws storage "ovation_state")
    && bool_decide (ls_items storage !! "ovation_state" = Some "true"%string) in
  ∃ x,
    ClapSwitch_new true storage o firstTimer
      = (Some x,
         if wasOn then [] else [ManagerEmits (EmitToggle true)],
         if autoStart (mergeOptions o) then Some 100 else None)
    ∧ ClapSwitch_isOn x = true
    ∧ localStorage (sw_world x)
      = (if persists && negb wasOn
            && negb (setItem_throws storage "ovation_state" "true")
         then setItem "ovation_state" "true" storage else storage)
    ∧ sw_events x = ∅
    ∧ sw_managerEvents x = ∅
    ∧ EventEmitter_on "error" ForwardError ∅ ≫= EventEmitter_on "clap" ClapListener
      = Some (sw_processorEvents x)
    ∧ patternCount (sw_world x) = 0
    ∧ timers (sw_world x) = ∅.
Proof.
  intros persists wasOn.
  destruct (constructed_switch storage o firstTimer)
    as (x & Hnew & Hon & Hls & (He & Hm & Hp) & [Hcount Htimers] & _).
  exists x. split_and!; try done. by rewrite Hp.
Qed.

(** A switch made where ['ovation_state'] holds ['false'] is on, and the key
    holds ['true']. *)
Lemma constructor_turns_the_switch_on_witness :
  ∃ x,
    ClapSwitch_new true switchedOffStorage persistentOptions 1
      = (Some x, [ManagerEmits (EmitToggle true)], None)
    ∧ ClapSwitch_isOn x = true
    ∧ ls_items (localStorage (sw_world x)) !! "ovation_state" = Some "true"%string.
Proof.
  destruct (constructor_turns_the_switch_on switchedOffStorage persistentOptions 1)
    as (x & Hnew & Hon & Hls & _).
  exists x. split; [exact Hnew |]. split; [exact Hon |]. by rewrite Hls.
Defined.

(** X2 (no listener on a switch).  On a constructed switch, whatever calls of
    [on], [off], [once], [toggle], [start] and [stop] are made and whatever the
    browser runs (analysis ticks, pattern timeouts): the switch and its state
    manager never have a listener, the processor keeps the two of the
    constructor, no function of the caller ever runs, the forwarder of
    ['toggle'] never runs and the switch itself never emits ['toggle'].
    [on(event, callback)] and [once(event, callback)] leave the switch on and
    [off(event, callback)] leaves it off. *)
Theorem listeners_are_never_registered_on_a_switch
    (storage : Storage) (o : ClapSwitchOptionsArg) (firstTimer : positive)
    (x : Switch) (trace0 : list Trace) (scheduled : option Z)
    (events : list SwitchEvent) (x' : Switch) (trace : list Trace) :
  ClapSwitch_new true storage o firstTimer = (Some x, trace0, scheduled) →
  Switch_run x events = Some (x', trace) →
  sw_events x' = ∅
  ∧ sw_managerEvents x' = ∅
  ∧ sw_processorEvents x' = sw_processorEvents x
  ∧ (∀ f, Runs f ∈ trace → f = ClapListener ∨ f = ForwardError)
  ∧ (∀ isOn, SwitchEmits (EmitToggle isOn) ∉ trace)
  ∧ (∀ before event callback,
       events = before ++ [Calls_on event callback] → ClapSwitch_isOn x' = true)
  ∧ (∀ before serial event callback,
       events = before ++ [Calls_once serial event callback] → ClapSwitch_isOn x' = true)
  ∧ (∀ before event callback,
       events = before ++ [Calls_off event callback] → ClapSwitch_isOn x' = false).
Proof.
  intros Hnew Hrun.
  destruct (constructed_switch_wired _ _ _ _ _ _ Hnew) as (Hx & _ & _).
  destruct (wired_run _ _ _ _ Hx Hrun) as ((He & Hm & Hp) & Htrace & _ & _).
  rewrite Forall_forall in Htrace.
  assert (∀ before e,
            events = before ++ [e] →
            ∃ x1 trace1, wired x1 ∧ Switch_step x1 e = Some (x', trace1)) as Hlast.
  { intros before e ->. rewrite Switch_run_app in Hrun.
    destruct (Switch_run x before) as [[x1 trace1] |] eqn:Hbefore; [| done].
    destruct (wired_run _ _ _ _ Hx Hbefore) as (Hx1 & _).
    exists x1. cbn [mbind option_bind Switch_run] in Hrun.
    destruct (Switch_step x1 e) as [[x2 trace2] |]; [| done].
    cbn [mbind option_bind] in Hrun. injection Hrun as <- _. eauto. }
  split_and!; try done.
  - destruct Hx as (_ & _ & ->). exact Hp.
  - intros f Hf. exact (Htrace _ Hf).
  - intros isOn Hin. exact (Htrace _ Hin).
  - intros before event callback (x1 & trace1 & Hx1 & Hstep)%Hlast.
    cbn [Switch_step] in Hstep. unfold ClapSwitch_on in Hstep.
    rewrite throughManager_wired in Hstep by done. injection Hstep as <- _.
    apply setState_state.
  - intros before serial event callback (x1 & trace1 & Hx1 & Hstep)%Hlast.
    cbn [Switch_step] in Hstep. unfold ClapSwitch_on in Hstep.
    rewrite throughManager_wired in Hstep by done. injection Hstep as <- _.
    apply setState_state.
  - intros before event callback (x1 & trace1 & Hx1 & Hstep)%Hlast.
    cbn [Switch_step] in Hstep. unfold ClapSwitch_off in Hstep.
    rewrite throughManager_wired in Hstep by done. injection Hstep as <- _.
    apply setState_state.
Qed.

(** [off], two toggles and [on] on the new switch only move the state. *)
Lemma listeners_are_never_registered_on_a_switch_witness :
  ∃ x',
    Switch_run newSwitch
      [Calls_off "toggle" (Some (UserCallback 0)); Calls_toggle;
       Calls_toggle; Calls_on "toggle" (UserCallback 0)]
      = Some (x', [ManagerEmits (EmitToggle false); ManagerEmits (EmitToggle true);
                   ManagerEmits (EmitToggle false); ManagerEmits (EmitToggle true)])
    ∧ sw_events x' = ∅
    ∧ ClapSwitch_isOn x' = true.
Proof.
  eexists. split; [reflexivity |].
  destruct (listeners_are_never_registered_on_a_switch
              ∅ noOptions 1 newSwitch _ _
              [Calls_off "toggle" (Some (UserCallback 0)); Calls_toggle;
               Calls_toggle; Calls_on "toggle" (UserCallback 0)] _ _
              newSwitch_constructed eq_refl)
    as (He & _ & _ & _ & _ & Hon & _).
  split; [exact He |].
  exact (Hon [Calls_off "toggle" (Some (UserCallback 0)); Calls_toggle; Calls_toggle]
             "toggle"%string (UserCallback 0) eq_refl).
Defined.

(** X4 (the pattern invariant under the whole interface).  In every state a
    constructed switch (listeners included) reaches by calls of its interface,
    analysis ticks and pattern timeouts, the pattern machine is idle (count 0,
    no timeout) or accumulating (one pending timeout, the one of
    [_clapTimer], and a count strictly between 0 and [requiredClaps]); a
    timeout is pending exactly when the count is strictly between 0 and
    [requiredClaps]; and the options are those of the constructor. *)
Theorem pattern_invariant_under_the_whole_interface
    (storage : Storage) (o : ClapSwitchOptionsArg) (firstTimer : positive)
    (x : Switch) (trace0 : list Trace) (scheduled : option Z)
    (events : list SwitchEvent) (x' : Switch) (trace : list Trace) :
  ClapSwitch_new true storage o firstTimer = (Some x, trace0, scheduled) →
  Switch_run x events = Some (x', trace) →
  (idle (sw_world x') ∨ accumulating (sw_world x'))
  ∧ (deadlinePending (sw_world x')
     ↔ 0 < patternCount (sw_world x') < patternRequired (sw_world x'))
  ∧ cs_options (switch (sw_world x')) = mergeOptions o.
Proof.
  intros Hnew Hrun.
  destruct (constructed_switch_wired _ _ _ _ _ _ Hnew) as (Hx & Hinv & _).
  destruct (wired_run _ _ _ _ Hx Hrun) as (_ & _ & Hinv' & Hopt).
  split_and!.
  - by apply Hinv'.
  - apply invariant_pending_iff. by apply Hinv'.
  - rewrite Hopt.
    destruct (constructed_switch storage o firstTimer)
      as (x0 & Hnew0 & _ & _ & _ & _ & Ho & _).
    rewrite Hnew0 in Hnew. by injection Hnew as <- _ _.
Qed.

(** The new switch is idle after [stop], [toggle] and [on]. *)
Lemma pattern_invariant_under_the_whole_interface_witness :
  ∃ x',
    Switch_run newSwitch [Calls_stop 0; Calls_toggle; Calls_on "clap" (UserCallback 0)]
      = Some (x', [SwitchEmits EmitStop; ManagerEmits (EmitToggle false);
                   ManagerEmits (EmitToggle true)])
    ∧ (idle (sw_world x') ∨ accumulating (sw_world x')).
Proof.
  eexists. split; [reflexivity |].
  exact (proj1 (pattern_invariant_under_the_whole_interface
                  ∅ noOptions 1 newSwitch _ _
                  [Calls_stop 0; Calls_toggle; Calls_on "clap" (UserCallback 0)] _ _
                  newSwitch_constructed eq_refl)).
Defined.

(** X5 (start of the switch).  The outcomes of [ClapSwitch.start()] on a
    constructed switch.  Without a microphone among the devices it emits one
    ['error'] and throws, the processor untouched.  Otherwise the processor is
    started: when that throws, the switch emits the same error twice (once
    forwarded from the processor's ['error'], once from its own [catch]) and
    rethrows; when it returns, the switch emits ['start'], also when the
    processor was listening already and did nothing. *)
Theorem start_of_a_switch
    (now : Z) (devices : option (Completion (list string))) (b : StartAnswers)
    (x : Switch) :
  wired x →
  let ap := _audioProcessor (switch (sw_world x)) in
  let started := AudioProcessor_start b ap in
  let x' := set_world (set_audioProcessor started.1.2 (sw_world x)) x in
  ClapSwitch_start now devices b x =
    if hasMicrophoneSupport devices then
      match started.1.1 with
      | Returned _ =>
          (Returned (), x',
           (if _isListening ap then [] else [ProcessorEmits ProcStart])
             ++ [SwitchEmits EmitStart])
      | Threw name message =>
          (Threw name message, x',
           [ProcessorEmits (ProcError message); Runs ForwardError;
            SwitchEmits (EmitError message); SwitchEmits (EmitError message)])
      end
    else
      (Threw "Error" "No microphone detected on this device.", x,
       [SwitchEmits (EmitError "No microphone detected on this device.")]).
Proof.
  intros Hx ap started x'. subst started x' ap.
  pose proof Hx as (He & Hm & Hp).
  unfold ClapSwitch_start.
  destruct (hasMicrophoneSupport devices); cbn [negb].
  2: { by rewrite switchEmits_unheard. }
  pose proof (start_emissions b (_audioProcessor (switch (sw_world x)))) as Hout.
  destruct (AudioProcessor_start b _) as [[result ap] out]. cbn [fst snd] in Hout |- *.
  set (x1 := set_world _ x). assert (wired x1) as Hx1 by done.
  destruct result as [[] | name message].
  - rewrite processorEmitsAll_wired, Hout;
      [| done | rewrite Hout; destruct (_isListening _); eauto].
    destruct (_isListening _).
    + by rewrite switchEmits_unheard.
    + rewrite processorEmits_wired by done. by rewrite switchEmits_unheard.
  - destruct Hout as [-> _].
    rewrite processorEmitsAll_wired by eauto.
    rewrite processorEmits_wired by done. by rewrite switchEmits_unheard.
Qed.

(** A refused microphone is reported twice by the new switch. *)
Lemma start_of_a_switch_witness :
  ∃ message x',
    ClapSwitch_start 0 oneMicrophone microphoneDenied newSwitch
      = (Threw "Error" message, x',
         [ProcessorEmits (ProcError message); Runs ForwardError;
          SwitchEmits (EmitError message); SwitchEmits (EmitError message)]).
Proof.
  eexists _, _.
  rewrite (start_of_a_switch 0 oneMicrophone microphoneDenied newSwitch newSwitch_wired).
  reflexivity.
Defined.

(** X6 (stop of the switch).  [ClapSwitch.stop()] emits ['stop'] also when
    nothing was listening, leaves the processor idle, and does not touch the
    pattern machine: the count and the pending timeout stay, and the timeout
    still fires after the stop, announcing ['pattern-canceled'] with the count
    and resetting it. *)
Theorem stop_of_a_switch (now : Z) (x : Switch) :
  wired x →
  let ap := _audioProcessor (switch (sw_world x)) in
  let stopped := ClapSwitch_stop now x in
  stopped.2 = (if _isListening ap then [ProcessorEmits ProcStop] else [])
                ++ [SwitchEmits EmitStop]
  ∧ ClapSwitch_isListening stopped.1 = false
  ∧ timers (sw_world stopped.1) = timers (sw_world x)
  ∧ patternCount (sw_world stopped.1) = patternCount (sw_world x)
  ∧ (∀ id due,
       timers (sw_world x) !! id = Some due → 0 < patternCount (sw_world x) →
       ∃ x'',
         Switch_fireTimer id stopped.1
           = Some (x'', [SwitchEmits (EmitPatternCanceled (patternCount (sw_world x)))])
         ∧ patternCount (sw_world x'') = 0).
Proof.
  intros Hx ap stopped. subst stopped ap.
  pose proof Hx as (He & Hm & Hp).
  unfold ClapSwitch_stop.
  pose proof (stop_emissions (_audioProcessor (switch (sw_world x)))) as Hout.
  pose proof (stop_idempotent (_audioProcessor (switch (sw_world x)))) as (_ & _ & Hidle & _).
  destruct (AudioProcessor_stop _) as [ap out]. cbn [fst snd] in Hout, Hidle.
  set (x1 := set_world _ x). assert (wired x1) as Hx1 by done.
  assert (processorEmitsAll now out x1
          = (x1, if _isListening (_audioProcessor (switch (sw_world x)))
                 then [ProcessorEmits ProcStop] else [])) as ->.
  { rewrite processorEmitsAll_wired, Hout;
      [| done | rewrite Hout; destruct (_isListening _); eauto].
    destruct (_isListening _); [| done]. by rewrite processorEmits_wired. }
  rewrite switchEmits_unheard by done. cbn [fst snd].
  split_and!; try done.
  intros id due Hid Hcount. unfold Switch_fireTimer, fireTimer.
  cbn [x1 sw_world set_world set_audioProcessor timers]. rewrite Hid.
  cbn [mbind option_bind]. unfold clapTimerCallback.
  unfold patternCount in *.
  cbn [switch _clapCount set_audioProcessor localStorage timers nextTimer].
  rewrite bool_decide_eq_true_2 by lia.
  rewrite announceAll_unheard by done. by eexists.
Qed.

(** The new switch, which never listened, emits ['stop']. *)
Lemma stop_of_a_switch_witness :
  (ClapSwitch_stop 0 newSwitch).2 = [SwitchEmits EmitStop]
  ∧ ClapSwitch_isListening (ClapSwitch_stop 0 newSwitch).1 = false.
Proof.
  destruct (stop_of_a_switch 0 newSwitch newSwitch_wired) as (Htrace & Hidle & _).
  split; [exact Htrace | exact Hidle].
Defined.





End SwitchInterface.

(** ** The state manager *)

Section StateManagerFacts.

Lemma setState_cases newState sm ls :
  StateManager_setState newState sm ls =
    if bool_decide (newState = _state sm) then (false, sm, ls, [])
    else (true, {| sm_options := sm_options sm; _state := newState |},
          _persistState {| sm_options := sm_options sm; _state := newState |} ls,
          [EmitToggle newState]).
Proof. reflexivity. Qed.

Lemma alternating_snoc k : ∀ b,
  alternating b (S k) = alternating b k ++ [if Nat.even k then b else negb b].
Proof.
  induction k as [| k IH]; intros b; [done |].
  change (alternating b (S (S k))) with (b :: alternating (negb b) (S k)).
  rewrite IH. change (alternating b (S k)) with (b :: alternating (negb b) k).
  cbn [app]. do 3 f_equal.
  rewrite Nat.even_succ, <- Nat.negb_even. by destruct (Nat.even k), b.
Qed.

(** The state after a call, and what the call emits. *)
Lemma StateManager_call_cases s c :
  let target :=
    match c with
    | Manager_setState state => state
    | Manager_toggle => negb (_state (ms_manager s))
    | Manager_on _ _ | Manager_once _ _ _ => true
    | Manager_off _ _ => false
    end in
  let changed := negb (bool_decide (target = _state (ms_manager s))) in
  let s' := StateManager_call s c in
  _state (ms_manager s') = target
  ∧ sm_options (ms_manager s') = sm_options (ms_manager s)
  ∧ ms_emitted s' = ms_emitted s ++ (if changed then [EmitToggle target] else [])
  ∧ ms_localStorage s'
    = (if changed
       then _persistState {| sm_options := sm_options (ms_manager s); _state := target |}
                          (ms_localStorage s)
       else ms_localStorage s)
  ∧ (ms_events s = ∅ → ms_events s' = ∅ ∧ ms_ran s' = ms_ran s).
Proof.
  destruct s as [[o state] ls events emitted ran].
  unfold StateManager_call, StateManager_toggle, StateManager_on, StateManager_off,
    StateManager_setState.
  cbn [ms_manager ms_localStorage ms_events ms_emitted ms_ran _state sm_options].
  destruct c as [target | | event callback | event callback | serial event callback];
    try destruct target; destruct state; cbn [negb];
    rewrite ?(bool_decide_eq_true_2 (true = true)), ?(bool_decide_eq_true_2 (false = false)),
      ?(bool_decide_eq_false_2 (true = false)), ?(bool_decide_eq_false_2 (false = true))
      by done;
    cbn [negb andb foldl fst snd ms_manager ms_localStorage ms_events ms_emitted ms_ran
         _state sm_options app eventName];
    (split_and!; [done | done | done | done |]);
    intros ->; rewrite ?callListeners_empty; by rewrite ?app_nil_r.
Qed.

(** X3 (no listener on a state manager).  On a [StateManager],
    [on(event, callback)] is [setState(true)], [off(event, callback)] is
    [setState(false)], and the inherited [once(event, callback)] ends in the
    same [on]: after any calls there is no listener, no function ever ran
    (although ['toggle'] was emitted at every change), and the state is on
    after [on] or [once] and off after [off]. *)
Theorem listeners_are_never_registered_on_a_state_manager
    (a : StateManagerOptionsArg) (storage : Storage) (calls : list ManagerCall) :
  let s := foldl StateManager_call (StateManager_new a storage) calls in
  ms_events s = ∅
  ∧ ms_ran s = []
  ∧ (∀ before event callback,
       calls = before ++ [Manager_on event callback] →
       StateManager_isOn (ms_manager s) = true)
  ∧ (∀ before serial event callback,
       calls = before ++ [Manager_once serial event callback] →
       StateManager_isOn (ms_manager s) = true)
  ∧ (∀ before event callback,
       calls = before ++ [Manager_off event callback] →
       StateManager_isOn (ms_manager s) = false).
Proof.
  intros s. subst s.
  assert (∀ calls s, ms_events s = ∅ → ms_ran s = [] →
            ms_events (foldl StateManager_call s calls) = ∅
            ∧ ms_ran (foldl StateManager_call s calls) = []) as Hquiet.
  { clear calls. induction calls as [| c calls IH]; intros s He Hr; [done |].
    cbn [foldl]. destruct (StateManager_call_cases s c) as (_ & _ & _ & _ & Hs).
    destruct (Hs He) as [He' Hr']. apply IH; congruence. }
  destruct (Hquiet calls (StateManager_new a storage)) as [He Hr]; [done | done |].
  split_and!; try done.
  - intros before event callback ->. rewrite foldl_app. cbn [foldl].
    apply StateManager_call_cases.
  - intros before serial event callback ->. rewrite foldl_app. cbn [foldl].
    apply StateManager_call_cases.
  - intros before event callback ->. rewrite foldl_app. cbn [foldl].
    apply StateManager_call_cases.
Qed.

(** X12 (toggle events alternate).  A state manager emits ['toggle'] only
    when the state changes: over any calls the payloads alternate, starting
    with the opposite of the initial state, there is at most one per call, and
    the current state is the initial one exactly when their number is even. *)
Theorem toggle_events_alternate
    (a : StateManagerOptionsArg) (storage : Storage) (calls : list ManagerCall) :
  let initial := StateManager_isOn (StateManager_constructor a storage) in
  let s := foldl StateManager_call (StateManager_new a storage) calls in
  let n := length (ms_emitted s) in
  ms_emitted s = map EmitToggle (alternating (negb initial) n)
  ∧ StateManager_isOn (ms_manager s) = (if Nat.even n then initial else negb initial)
  ∧ (n ≤ length calls)%nat.
Proof.
  intros initial s n. subst s n initial.
  assert (∀ calls s k b,
            ms_emitted s = map EmitToggle (alternating (negb b) k) →
            length (ms_emitted s) = k →
            _state (ms_manager s) = (if Nat.even k then b else negb b) →
            let s' := foldl StateManager_call s calls in
            let n := length (ms_emitted s') in
            ms_emitted s' = map EmitToggle (alternating (negb b) n)
            ∧ _state (ms_manager s') = (if Nat.even n then b else negb b)
            ∧ (n ≤ k + length calls)%nat) as Hgen.
  { clear calls. induction calls as [| c calls IH]; intros s k b Hemitted Hlen Hstate.
    - cbn [foldl]. rewrite Hlen. split_and!; [done | done | simpl; lia].
    - cbn [foldl].
      destruct (StateManager_call_cases s c) as (Hstate' & _ & Hemitted' & _).
      cbn zeta in Hstate', Hemitted'.
      match type of Hstate' with _ = ?t => set (target := t) in * end.
      destruct (negb (bool_decide (_ = _))) eqn:Hchanged.
      + apply negb_true_iff, bool_decide_eq_false in Hchanged.
        destruct (IH (StateManager_call s c) (S k) b) as (H1 & H2 & H3).
        * rewrite Hemitted', Hemitted, alternating_snoc, List.map_app. cbn [map].
          do 3 f_equal. rewrite Hstate in Hchanged.
          by destruct (Nat.even k), b, target.
        * rewrite Hemitted', length_app, Hlen. simpl. lia.
        * rewrite Hstate'. rewrite Hstate in Hchanged.
          rewrite Nat.even_succ, <- Nat.negb_even.
          by destruct (Nat.even k), b, target.
        * split_and!; [done | done |]. simpl in H3 |- *. lia.
      + apply negb_false_iff, bool_decide_eq_true in Hchanged.
        destruct (IH (StateManager_call s c) k b) as (H1 & H2 & H3).
        * by rewrite Hemitted', app_nil_r.
        * by rewrite Hemitted', app_nil_r.
        * rewrite Hstate'. congruence.
        * split_and!; [done | done |]. simpl. lia. }
  destruct (Hgen calls (StateManager_new a storage) 0%nat
              (_state (StateManager_constructor a storage))) as (H1 & H2 & H3);
    try done.
Qed.

Lemma persistState_fields sm ls :
  ls_present (_persistState sm ls) = ls_present ls
  ∧ getItem_throws (_persistState sm ls) = getItem_throws ls
  ∧ setItem_throws (_persistState sm ls) = setItem_throws ls.
Proof.
  unfold _persistState. destruct (_ && _); [| done]. by destruct (setItem_throws _ _ _).
Qed.

(** Where the state is not written. *)
Lemma persistState_skipped sm ls :
  sm_statePersistence (sm_options sm) = false ∨ ls_present ls = false
  ∨ (∀ value, setItem_throws ls (sm_storageKey (sm_options sm)) value = true) →
  _persistState sm ls = ls.
Proof.
  unfold _persistState. intros [-> | [-> | Hthrows]]; [done | by rewrite andb_false_r |].
  rewrite Hthrows. by destruct (_ && _).
Qed.

(** X13 (persistence round trip).  With [statePersistence], a [localStorage]
    that is there and whose [getItem] and [setItem] do not throw for the
    storage key: after any calls a new [StateManager] with the same options,
    made on the storage as it is then, is equal to the current one, so the
    state survives a reload.  Without [statePersistence], without a
    [localStorage], or where [setItem] throws for the key (what it throws is
    caught), the storage is never changed, so a reload does not see what the
    calls did; and without [statePersistence], without a [localStorage] or
    where [getItem] throws for the key, the constructor starts from
    [initialState]. *)
Theorem persisted_state_survives_a_reload
    (a : StateManagerOptionsArg) (storage : Storage) (calls : list ManagerCall) :
  let key := default "ovation_state"%string (arg_sm_storageKey a) in
  let s := foldl StateManager_call (StateManager_new a storage) calls in
  (arg_sm_statePersistence a = Some true →
   ls_present storage = true →
   getItem_throws storage key = false →
   (∀ value, setItem_throws storage key value = false) →
   StateManager_constructor a (ms_localStorage s) = ms_manager s)
  ∧ (default false (arg_sm_statePersistence a) = false ∨ ls_present storage = false
     ∨ (∀ value, setItem_throws storage key value = true) →
     ms_localStorage s = storage)
  ∧ (default false (arg_sm_statePersistence a) = false ∨ ls_present storage = false
     ∨ getItem_throws storage key = true →
     StateManager_isOn (StateManager_constructor a storage)
     = default false (arg_sm_initialState a)).
Proof.
  intros key s. subst s. split_and!.
  - intros Hp Hpresent Hget Hset.
    assert (∀ calls s,
              sm_options (ms_manager s) = sm_options (StateManager_constructor a storage) →
              ls_present (ms_localStorage s) = true →
              getItem_throws (ms_localStorage s) = getItem_throws storage →
              setItem_throws (ms_localStorage s) = setItem_throws storage →
              StateManager_constructor a (ms_localStorage s) = ms_manager s →
              StateManager_constructor a (ms_localStorage (foldl StateManager_call s calls))
              = ms_manager (foldl StateManager_call s calls)) as Hgen.
    { clear calls. induction calls as [| c calls IH]; intros s Ho Hpr Hg Hst Hs; [done |].
      cbn [foldl]. destruct (StateManager_call_cases s c) as (Hstate & Ho' & _ & Hls & _).
      cbn zeta in Hstate, Hls.
      match type of Hstate with _ = ?t => set (target := t) in * end.
      destruct (negb (bool_decide (_ = _))) eqn:Hchanged.
      - set (sm' := {| sm_options := sm_options (ms_manager s); _state := target |}) in Hls.
        assert (ms_manager (StateManager_call s c) = sm') as Hm'.
        { destruct (ms_manager (StateManager_call s c)) as [o' st'].
          cbn [sm_options _state] in Hstate, Ho'. by subst o' st'. }
        assert (sm_options (ms_manager s)
                = {| sm_statePersistence := true; sm_storageKey := key;
                     sm_initialState := default false (arg_sm_initialState a) |}) as Ho1.
        { rewrite Ho. unfold StateManager_constructor. cbn [sm_options]. by rewrite Hp. }
        assert (_persistState sm' (ms_localStorage s)
                = setItem key (String_of_bool target) (ms_localStorage s)) as Hstored.
        { unfold _persistState, sm'. cbn [sm_options _state]. rewrite Ho1.
          cbn [sm_statePersistence sm_storageKey]. rewrite Hpr, Hst, Hset. done. }
        apply IH; rewrite ?Hls, ?Hstored; try done; try congruence.
        rewrite Hm'. unfold sm', StateManager_constructor. rewrite Ho1, Hp.
        change (default false (Some true)) with true. fold key. f_equal.
        unfold _getInitialState, setItem.
        cbn [sm_statePersistence sm_storageKey ls_present getItem_throws ls_items].
        rewrite Hpr, Hg, Hget. cbn [andb]. rewrite lookup_insert_eq.
        by destruct target.
      - apply negb_false_iff, bool_decide_eq_true in Hchanged.
        apply IH; rewrite ?Hls; try congruence.
        rewrite Hs.
        destruct (ms_manager (StateManager_call s c)) as [o' st'], (ms_manager s) as [o st].
        cbn [sm_options _state] in *. congruence. }
    by apply Hgen.
  - intros Hskip.
    assert (∀ calls s,
              sm_options (ms_manager s) = sm_options (StateManager_constructor a storage) →
              ls_present (ms_localStorage s) = ls_present storage →
              setItem_throws (ms_localStorage s) = setItem_throws storage →
              ms_localStorage (foldl StateManager_call s calls) = ms_localStorage s)
      as Hgen.
    { clear calls. induction calls as [| c calls IH]; intros s Ho Hpr Hst; [done |].
      cbn [foldl]. destruct (StateManager_call_cases s c) as (_ & Ho' & _ & Hls & _).
      cbn zeta in Hls.
      assert (ms_localStorage (StateManager_call s c) = ms_localStorage s) as Hsame.
      { rewrite Hls. destruct (negb _); [| done]. apply persistState_skipped.
        cbn [sm_options]. rewrite Ho, Hpr, Hst. exact Hskip. }
      rewrite IH; congruence. }
    by rewrite Hgen.
  - unfold StateManager_constructor, StateManager_isOn, _getInitialState.
    cbn [_state sm_statePersistence sm_storageKey sm_initialState]. fold key.
    intros [-> | [-> | ->]]; [done | by rewrite andb_false_r | by destruct (_ && _)].
Qed.

(** A persisted toggle is read back by a new manager; where every write is
    refused, nothing is stored. *)
Lemma persisted_state_survives_a_reload_witness :
  StateManager_constructor persistentManager
    (ms_localStorage
       (foldl StateManager_call (StateManager_new persistentManager ∅) [Manager_toggle]))
  = {| sm_options := sm_options (StateManager_constructor persistentManager ∅);
       _state := true |}
  ∧ ms_localStorage
      (foldl StateManager_call (StateManager_new persistentManager fullStorage)
             [Manager_toggle])
    = fullStorage.
Proof.
  destruct (persisted_state_survives_a_reload persistentManager ∅ [Manager_toggle])
    as (Hkept & _).
  destruct (persisted_state_survives_a_reload persistentManager fullStorage
              [Manager_toggle]) as (_ & Hlost & _).
  split.
  - rewrite Hkept by done. reflexivity.
  - apply Hlost. right. right. reflexivity.
Defined.

End StateManagerFacts.

(** ** The life cycle of the processor *)

Section ProcessorLifeCycle.
#[local] Open Scope Z_scope.

(** X14 (spectra without a positive magnitude).  With a positive lower
    frequency bound (the default is 2000 Hz), a listening processor never
    emits ['clap'] on ticks whose spectrum holds no positive magnitude (such
    as magnitudes in decibels below full scale), however loud and sharp the
    samples are: the dominant frequency of such a spectrum is reported as
    0 Hz.  The clap time stays and the processor keeps listening. *)
Theorem nonpositive_spectra_are_never_claps
    (ap : AudioProcessor) (context : AudioContext) (analyser : AnalyserNode)
    (ticks : list Tick) :
  listening ap context analyser →
  (0 < fst (frequencyRange (options ap)))%R →
  Forall (fun t => Forall (fun x => x <= 0)%R (tick_frequencyData t)) ticks →
  ∃ ap',
    analyzeAll ap ticks = Some (ap', map (fun _ => []) ticks)
    ∧ _lastClapTime ap' = _lastClapTime ap
    ∧ listening ap' context analyser.
Proof.
  revert ap. induction ticks as [| t ticks IH]; intros ap Hl Hrange Hticks.
  - exists ap. by split_and!.
  - apply Forall_cons in Hticks as [Ht Hticks].
    destruct (analyze_listening ap context analyser t Hl) as (spectrum & calls & Hstep).
    rewrite (nonpositive_spectrum_never_claps ap context analyser t Ht Hrange) in Hstep.
    set (ap1 := afterTick _ _ _ _ ap) in Hstep.
    destruct (IH ap1) as (ap' & Hrun & Hlast & Hl'); [exact Hl | exact Hrange | exact Hticks |].
    exists ap'. cbn [analyzeAll]. rewrite Hstep. cbn [mbind option_bind].
    rewrite Hrun. by split_and!.
Qed.

(** Two clap frames with spectra in decibels give no clap. *)
Lemma nonpositive_spectra_are_never_claps_witness :
  ∃ ap',
    analyzeAll startedProcessor [decibelTick 1000 2; decibelTick 2000 3]
      = Some (ap', [[]; []]).
Proof.
  destruct (nonpositive_spectra_are_never_claps startedProcessor grantedContext
              installedAnalyser [decibelTick 1000 2; decibelTick 2000 3]
              startedProcessor_listening)
    as (ap' & Hrun & _).
  - simpl. lra.
  - assert (Forall (fun x => x <= 0)%R decibelSpectrum) as Hlow.
    { apply Forall_app. split.
      - apply Forall_forall. intros x [-> _]%elem_of_replicate. lra.
      - apply Forall_cons. split; [lra | apply Forall_nil_2]. }
    repeat (apply Forall_cons; split; [exact Hlow |]). apply Forall_nil_2.
  - exists ap'. exact Hrun.
Defined.

(** X15 (a failure after the microphone was granted).  When
    [createMediaStreamSource] throws in [_setupAudioProcessing], [start()]
    emits one ['error'] and rethrows with the processor idle, but the granted
    stream stays in [_mediaStream]: [stop()] on the idle processor does
    nothing, so its tracks are not stopped, and a later successful [start()]
    replaces the field with the new stream. *)
Theorem failed_setup_keeps_the_stream
    (b : StartAnswers) (ap : AudioProcessor) (context : AudioContext)
    (stream : MediaStream) (name message : string) :
  _isListening ap = false →
  ans_createAudioContext b = Returned context →
  ans_resume b = Returned () →
  ans_getUserMedia b = Returned stream →
  ans_createMediaStreamSource b = Threw name message →
  ∃ ap',
    AudioProcessor_start b ap = (Threw name message, ap', [ProcError message])
    ∧ _isListening ap' = false
    ∧ _mediaStream ap' = Some stream
    ∧ _microphone ap' = _microphone ap
    ∧ _analyser ap' = _analyser ap
    ∧ _animationFrame ap' = _animationFrame ap
    ∧ AudioProcessor_stop ap' = (ap', [])
    ∧ (∀ b' stream',
         ans_resume b' = Returned () →
         ans_getUserMedia b' = Returned stream' →
         ans_createMediaStreamSource b' = Returned () →
         ∃ ap'',
           AudioProcessor_start b' ap' = (Returned (), ap'', [ProcStart])
           ∧ _mediaStream ap'' = Some stream').
Proof.
  intros Hidle Hc Hr Hm Hs. unfold AudioProcessor_start, startFailed.
  rewrite Hidle, Hc, Hr, Hm, Hs. cbn [requestMicrophoneAccess].
  destruct ap as [o l [[[] rate] |] an mic ms last cd len td fd frame];
    cbn [_audioContext ctx_state sampleRate _isListening] in *; subst l;
    try destruct context as [[] rate'];
    cbn [_audioContext ctx_state sampleRate set_audioContext set_mediaStream
         _isListening _microphone _mediaStream options _analyser
         _lastClapTime _cooldownPeriod _analyserBufferLength _timeData _frequencyData
         _animationFrame];
    (eexists; split; [reflexivity |]);
    (split_and!; [done .. |]);
    intros b' stream' Hr' Hm' Hs';
    cbn [_audioContext ctx_state sampleRate set_audioContext set_mediaStream
         _isListening _microphone _mediaStream options _analyser
         _lastClapTime _cooldownPeriod _analyserBufferLength _timeData _frequencyData
         _animationFrame];
    rewrite ?Hr', Hm', Hs'; cbn [requestMicrophoneAccess]; by eexists.
Qed.

(** The new processor keeps stream 7 when the source node is refused. *)
Lemma failed_setup_keeps_the_stream_witness :
  ∃ ap',
    AudioProcessor_start sourceRefused (AudioProcessor_constructor noProcessorOptions)
      = (Threw "InvalidStateError" "no audio track", ap', [ProcError "no audio track"])
    ∧ _mediaStream ap' = Some {| stream_id := 7 |}
    ∧ AudioProcessor_stop ap' = (ap', []).
Proof.
  destruct (failed_setup_keeps_the_stream sourceRefused
              (AudioProcessor_constructor noProcessorOptions) grantedContext
              {| stream_id := 7 |} "InvalidStateError" "no audio track"
              eq_refl eq_refl eq_refl eq_refl eq_refl)
    as (ap' & Hstart & _ & Hstream & _ & _ & _ & Hstop & _).
  exists ap'. by split_and!.
Defined.

(** X16 (stop and start again).  [stop()] on a listening processor releases
    the source node, the stream and the requested frame, and an [analyze]
    still run afterwards does nothing and requests no frame.  A granted
    [start()] after it does not create or resume an audio context (the one of
    the first start is reused), and keeps the options and the clap time: a
    tick within the cooldown of the last clap before the stop is still no
    clap. *)
Theorem restart_keeps_context_and_cooldown
    (ap : AudioProcessor) (context : AudioContext) (analyser : AnalyserNode)
    (b : StartAnswers) (stream : MediaStream) :
  listening ap context analyser →
  ctx_state context = running →
  ans_getUserMedia b = Returned stream →
  ans_createMediaStreamSource b = Returned () →
  let stopped := (AudioProcessor_stop ap).1 in
  _microphone stopped = None
  ∧ _mediaStream stopped = None
  ∧ _animationFrame stopped = None
  ∧ (∀ t, analyze stopped t = Some (stopped, [], []))
  ∧ ∃ ap',
      AudioProcessor_start b stopped = (Returned (), ap', [ProcStart])
      ∧ _isListening ap' = true
      ∧ _audioContext ap' = Some context
      ∧ _mediaStream ap' = Some stream
      ∧ _animationFrame ap' = Some (ans_requestAnimationFrame b)
      ∧ options ap' = options ap
      ∧ _lastClapTime ap' = _lastClapTime ap
      ∧ (∀ t, tick_now t - _lastClapTime ap <= _cooldownPeriod ap →
           ∃ ap'' calls, analyze ap' t = Some (ap'', [], calls)).
Proof.
  intros (Hon & Hctx & Han) Hrun Hm Hs stopped. subst stopped.
  unfold AudioProcessor_stop. rewrite Hon. cbn [negb fst].
  split_and!; try done.
  unfold AudioProcessor_start.
  cbn [_isListening _audioContext]. rewrite Hctx, Hrun, Hm, Hs.
  cbn [requestMicrophoneAccess].
  eexists. split; [reflexivity |]. split_and!; try done.
  intros t Hnear.
  edestruct (analyze_listening) as (spectrum & calls & Hstep);
    [| rewrite Hstep].
  { split_and!; reflexivity. }
  unfold clapsNow. cbn [_lastClapTime _startAnalysis set_isListening _setupAudioProcessing
                        set_mediaStream _cooldownPeriod].
  rewrite (bool_decide_eq_false_2 (_ > _)) by lia.
  rewrite andb_false_r. by eexists _, _.
Qed.

(** The started processor, stopped and started again, has its context. *)
Lemma restart_keeps_context_and_cooldown_witness :
  ∃ ap',
    AudioProcessor_start microphoneGranted (AudioProcessor_stop startedProcessor).1
      = (Returned (), ap', [ProcStart])
    ∧ _audioContext ap' = Some grantedContext.
Proof.
  destruct (restart_keeps_context_and_cooldown startedProcessor grantedContext
              installedAnalyser microphoneGranted {| stream_id := 7 |}
              startedProcessor_listening eq_refl eq_refl eq_refl)
    as (_ & _ & _ & _ & ap' & Hstart & _ & Hctx & _).
  exists ap'. by split.
Defined.

End ProcessorLifeCycle.

(** ** More on the audio utilities *)

Section MoreAudioUtilsFacts.
#[local] Open Scope R_scope.

(** X21 (dominant frequency).  When some magnitude is positive,
    [calculateDominantFrequency] returns the frequency of the first bin of
    the largest magnitude; when none is, it returns 0 Hz, whatever the
    spectrum (the empty one included). *)
Theorem dominant_frequency_is_the_first_largest_positive_bin
    (frequencyData : list R) (sampleRate fftSize : R) :
  (Exists (fun x => x > 0) frequencyData →
   ∃ bin,
     isMaximalBin frequencyData bin
     ∧ (∀ j, (j < bin)%nat → nth j frequencyData 0 < nth bin frequencyData 0)
     ∧ calculateDominantFrequency frequencyData sampleRate fftSize
       = INR bin * sampleRate / fftSize)
  ∧ (Forall (fun x => x <= 0) frequencyData →
     calculateDominantFrequency frequencyData sampleRate fftSize = 0).
Proof.
  split.
  - intros Hpos. unfold calculateDominantFrequency.
    pose proof (dominantLoop_searches frequencyData [] 0%nat 0) as H. simpl in H.
    destruct H as [(_ & _ & Hlow) | (Hi & Hv & _ & Hle & Hfirst)].
    { left. split_and!; [done | done | intros; lia]. }
    + apply Exists_exists in Hpos as (x & Hin & Hx).
      apply list_elem_of_In, (In_nth _ _ 0) in Hin as (j & Hj & <-).
      specialize (Hlow j Hj). lra.
    + exists (dominantLoop frequencyData 0 0 0).1. split_and!.
      * split; [exact Hi |]. intros j Hj. rewrite <- Hv. by apply Hle.
      * intros j Hj. rewrite <- Hv. by apply Hfirst.
      * reflexivity.
  - intros Hlow. unfold calculateDominantFrequency.
    rewrite (dominantLoop_nonpositive _ _ _ Hlow). simpl. unfold Rdiv.
    by rewrite !Rmult_0_l.
Qed.

(** X22 (sentinel and range of the attack time).  [getAttackTime] returns -1
    exactly when the threshold is positive and every sample is below it in
    absolute value (so always for an empty buffer and a positive threshold);
    any other result lies between 0 and the last index of the buffer, and is
    at most the index of the peak. *)
Theorem attack_time_sentinel_and_range (buffer : list R) (threshold : R) :
  (getAttackTime buffer threshold = (-1)%Z
   ↔ 0 < threshold ∧ Forall (fun x => Rabs x < threshold) buffer)
  ∧ (getAttackTime buffer threshold ≠ (-1)%Z →
     (0 <= getAttackTime buffer threshold <= Z.of_nat (pred (length buffer)))%Z)
  ∧ (∀ peakIndex peakValue,
       isPeak buffer peakIndex peakValue →
       (getAttackTime buffer threshold <= Z.of_nat peakIndex)%Z).
Proof.
  assert ((peakLoop buffer 0 0 0).2 < threshold
          ↔ 0 < threshold ∧ Forall (fun x => Rabs x < threshold) buffer) as Hlow.
  { destruct (peakLoop_bound buffer 0 0 0) as [Hzero Hmax]. split.
    - intros Hlt. split; [lra |]. apply Forall_forall. intros x Hx%list_elem_of_In.
      specialize (Hmax x Hx). lra.
    - intros [Hpos Hall]. destruct buffer as [| x0 buffer]; [simpl; lra |].
      destruct (peakLoop_isPeak (x0 :: buffer)) as (Hi & -> & _); [done |].
      rewrite Forall_forall in Hall. apply Hall, list_elem_of_In, nth_In, Hi. }
  assert ((peakLoop buffer 0 0 0).1 <= pred (length buffer))%nat as Hindex.
  { destruct buffer as [| x0 buffer]; [simpl; lia |].
    destruct (peakLoop_isPeak (x0 :: buffer)) as (Hi & _); [done |]. lia. }
  unfold getAttackTime in *.
  destruct (peakLoop buffer 0 0 0) as [peakIndex peakValue] eqn:Hloop.
  cbn [fst snd] in Hlow, Hindex.
  pose proof (attackLoop_le buffer (threshold * 0.1) peakIndex) as Hwalk.
  split_and!.
  - rewrite <- Hlow. destruct (decide (peakValue < threshold)); [done |].
    split; [lia | done].
  - destruct (decide (peakValue < threshold)); [done |]. lia.
  - intros peakIndex' peakValue' Hpeak.
    assert (buffer ≠ []) as Hne
      by (destruct Hpeak as [Hi _]; destruct buffer; [simpl in Hi; lia | done]).
    pose proof (peakLoop_isPeak buffer Hne) as Hpeak0. rewrite Hloop in Hpeak0.
    destruct (isPeak_unique _ _ _ _ _ Hpeak0 Hpeak) as [<- _]. cbn [fst].
    destruct (decide (peakValue < threshold)); lia.
Qed.

End MoreAudioUtilsFacts.

(** ** More on the pattern machine *)

Section MorePatternMachine.
#[local] Open Scope Z_scope.

Lemma constructedWorld_invariant o w :
  constructedWorld o = Some w → patternInvariant w ∧ cs_options (switch w) = mergeOptions o.
Proof.
  unfold constructedWorld.
  destruct (constructed_switch ∅ o 1) as (x & -> & _ & _ & _ & Hidle & Ho & _).
  intros [= <-]. split; [by left | done].
Qed.

(** X23 (one required clap or fewer).  With [requiredClaps] at most 1 (0 and
    negative values included, which the constructor accepts), the machine is
    always idle, and every clap announces ['clap'] 1 and ['pattern'] 1 and
    toggles the state, without setting a timeout. *)
Theorem every_clap_toggles_where_one_clap_is_required (w : World) (now : Z) :
  patternInvariant w →
  patternRequired w <= 1 →
  idle w
  ∧ (onClap now w).2 = [EmitClap 1; EmitPattern 1; EmitToggle (negb (switchIsOn w))]
  ∧ switchIsOn (onClap now w).1 = negb (switchIsOn w)
  ∧ idle (onClap now w).1
  ∧ nextTimer (onClap now w).1 = nextTimer w
  ∧ patternRequired (onClap now w).1 = patternRequired w.
Proof.
  intros Hinv Hreq.
  assert (idle w) as Hidle.
  { destruct Hinv as [Hidle | (id & due & _ & _ & Hcount)]; [done | lia]. }
  destruct Hidle as [Hcount Htimers].
  assert (patternCount w + 1 >= patternRequired w) as Hge by lia.
  unfold onClap. rewrite (handleClap_completes now w Hinv Hge).
  unfold patternCount in *. rewrite Hcount. cbn [fst snd].
  by split_and!.
Qed.

(** With [requiredClaps: 0] two claps toggle twice. *)
Lemma every_clap_toggles_where_one_clap_is_required_witness :
  ∃ w,
    constructedWorld invalidOptions = Some w
    ∧ (onClap 0 w).2 = [EmitClap 1; EmitPattern 1; EmitToggle false]
    ∧ (onClap 5 (onClap 0 w).1).2 = [EmitClap 1; EmitPattern 1; EmitToggle true].
Proof.
  eexists. split; [reflexivity |].
  split.
  - refine (proj1 (proj2 (every_clap_toggles_where_one_clap_is_required _ 0 _ _))).
    + by left.
    + change (0 <= 1). lia.
  - reflexivity.
Defined.

(** Membership in a list that is given by its elements. *)
Ltac in_list Hin :=
  repeat (apply elem_of_cons in Hin as [Hin | Hin]; [try discriminate Hin |]);
  try (by apply elem_of_nil in Hin).

(** X24 (payloads).  In either state of the pattern machine, what one clap
    or one firing timeout announces is in range: the count of a ['clap'] lies
    between 1 and [requiredClaps] (1 where that is smaller), a ['pattern']
    carries exactly that bound, a ['pattern-canceled'] carries a count of at
    least 1 and below [requiredClaps], and a ['toggle'] carries the flipped
    state and comes with a ['pattern']. *)
Theorem pattern_payloads_are_in_range (w : World) (e : Event) (w' : World)
    (out : list Emitted) :
  patternInvariant w →
  step w e = Some (w', out) →
  (∀ count, EmitClap count ∈ out → 1 <= count <= Z.max 1 (patternRequired w))
  ∧ (∀ count, EmitPattern count ∈ out → count = Z.max 1 (patternRequired w))
  ∧ (∀ count, EmitPatternCanceled count ∈ out → 1 <= count < patternRequired w)
  ∧ (∀ isOn, EmitToggle isOn ∈ out → isOn = negb (switchIsOn w) ∧ ∃ count, EmitPattern count ∈ out).
Proof.
  intros Hinv Hstep.
  assert (patternCount w = 0 ∨ 0 < patternCount w < patternRequired w) as Hcount.
  { destruct Hinv as [[Hc _] | (id & due & _ & _ & Hc)]; [by left | by right]. }
  destruct e as [now | id]; cbn [step] in Hstep.
  - injection Hstep as Hstep. apply (f_equal snd) in Hstep. cbn [snd] in Hstep.
    destruct (onClap_cases now w) as (Hout & _). rewrite Hstep in Hout.
    clear Hstep. subst out.
    case_bool_decide as Hge.
    + split_and!; intros v Hin; in_list Hin; injection Hin as ->; try lia.
      split; [done |]. exists (patternCount w + 1). apply elem_of_cons. right.
      apply elem_of_cons. by left.
    + split_and!; intros v Hin; in_list Hin; injection Hin as ->; lia.
  - apply fireTimer_Some in Hstep as (due & Hid & _ & ->).
    assert (0 < patternCount w < patternRequired w) as Hc.
    { destruct Hinv as [[_ Hnone] | (id0 & due0 & _ & _ & Hc)]; [| done].
      rewrite Hnone in Hid. by rewrite lookup_empty in Hid. }
    rewrite bool_decide_eq_true_2 by lia.
    split_and!; intros v Hin; in_list Hin; injection Hin as ->; lia.
Qed.

(** The first clap of the default switch. *)
Lemma pattern_payloads_are_in_range_witness :
  (onClap 0 defaultWorld).2 = [EmitClap 1]
  ∧ 1 <= 1 <= Z.max 1 (patternRequired defaultWorld).
Proof.
  split; [reflexivity |].
  apply (proj1 (pattern_payloads_are_in_range defaultWorld (ClapDetected 0) _ _
                  (invariant_initial defaultSwitch ∅ 1 eq_refl) eq_refl)).
  apply list_elem_of_singleton. reflexivity.
Defined.

(** X25 (toggles and patterns).  Over any claps and firing timeouts, from any
    world, there are as many ['toggle'] emissions as ['pattern'] emissions,
    and the state in the end is the initial one exactly when that number is
    even. *)
Theorem the_state_changes_with_each_completed_pattern
    (w : World) (events : list Event) (w' : World) (out : list Emitted) :
  run w events = Some (w', out) →
  let patterns := length (List.filter isPattern out) in
  length (List.filter isToggle out) = patterns
  ∧ switchIsOn w' = (if Nat.even patterns then switchIsOn w else negb (switchIsOn w)).
Proof.
  revert w w' out. induction events as [| e events IH]; intros w w' out; cbn [run].
  - intros [= <- <-]. by split.
  - destruct (step w e) as [[w1 out1] |] eqn:Hstep; [| done]. cbn [mbind option_bind].
    destruct (run w1 events) as [[w2 out2] |] eqn:Hrun; [| done]. cbn [mbind option_bind].
    intros [= <- <-]. destruct (IH _ _ _ Hrun) as [Hcount Hstate]. cbn zeta in *.
    rewrite !List.filter_app, !length_app, Hcount, Hstate.
    assert (length (List.filter isToggle out1) = length (List.filter isPattern out1)
            ∧ (length (List.filter isPattern out1) <= 1)%nat
            ∧ switchIsOn w1 = (if Nat.even (length (List.filter isPattern out1))
                               then switchIsOn w else negb (switchIsOn w)))
      as (H1 & Hle & H2).
    { destruct e as [now | id]; cbn [step] in Hstep.
      - injection Hstep as Hstep.
        destruct (onClap_cases now w) as (Hout & Hon & _). rewrite Hstep in Hout, Hon.
        cbn [fst snd] in Hout, Hon. subst out1. rewrite Hon.
        destruct (bool_decide _); simpl; split_and!; (done || lia).
      - apply fireTimer_Some in Hstep as (due & _ & -> & ->).
        destruct (bool_decide _); simpl; split_and!; (done || lia). }
    rewrite H1, H2. split; [done |].
    destruct (length (List.filter isPattern out1)) as [| [| n]]; [done | | lia].
    change (Nat.even 1) with false. cbn [Nat.add].
    rewrite (Nat.even_succ (length _)), <- Nat.negb_even.
    by destruct (Nat.even _), (switchIsOn w).
Qed.

(** One completed pattern switches the new switch, which is on, off. *)
Lemma the_state_changes_with_each_completed_pattern_witness :
  ∃ w',
    run defaultWorld [ClapDetected 0; ClapDetected 400]
      = Some (w', [EmitClap 1; EmitClap 2; EmitPattern 2; EmitToggle false])
    ∧ switchIsOn w' = false.
Proof.
  eexists. split; [reflexivity |].
  exact (proj2 (the_state_changes_with_each_completed_pattern
                  defaultWorld [ClapDetected 0; ClapDetected 400] _ _ eq_refl)).
Defined.

(** X26 (clapInterval).  The option [clapInterval] is never read: with
    another value the pattern machine makes the same steps and the same
    announcements. *)
Theorem clapInterval_has_no_effect (interval : Z) (w : World) (events : list Event) :
  run (withClapInterval interval w) events
  = '(w', out) ← run w events; Some (withClapInterval interval w', out).
Proof.
  revert w. induction events as [| e events IH]; intros w; cbn [run].
  - reflexivity.
  - assert (step (withClapInterval interval w) e
            = '(w1, out1) ← step w e; Some (withClapInterval interval w1, out1)) as ->.
    { destruct e as [now | id]; cbn [step mbind option_bind].
      - f_equal. unfold onClap, _handleClap.
        cbn [withClapInterval switch cs_options requiredClaps clapTimeout _clapCount
             _clapTimer timers _stateManager localStorage nextTimer _audioProcessor].
        destruct (bool_decide _); [| done].
        by destruct (StateManager_toggle _ _) as [[[? ?] ?] ?].
      - unfold fireTimer. cbn [withClapInterval timers].
        by destruct (timers w !! id). }
    destruct (step w e) as [[w1 out1] |]; [| done]. cbn [mbind option_bind].
    rewrite IH. by destruct (run w1 events) as [[w2 out2] |].
Qed.

End MorePatternMachine.

Section TimeoutAndCooldown.
#[local] Open Scope Z_scope.

(** One clap is counted, and its timeout is pending for [due]. *)
Lemma first_clap now w :
  idle w → 2 <= patternRequired w →
  ∃ w1,
    onClap now w = (w1, [EmitClap 1])
    ∧ (∃ id, timers w1 = {[id := now + Z.max 0 (patternTimeout w)]})
    ∧ patternCount w1 = 1
    ∧ cs_options (switch w1) = cs_options (switch w)
    ∧ _stateManager (switch w1) = _stateManager (switch w)
    ∧ _audioProcessor (switch w1) = _audioProcessor (switch w).
Proof.
  intros Hidle Hreq. pose proof Hidle as [Hcount Htimers].
  unfold onClap. rewrite handleClap_accumulates; [| by left | lia].
  unfold patternCount in *. rewrite Hcount.
  eexists. split; [reflexivity |]. split_and!; try done. by eexists.
Qed.

Lemma timeout_fires until w id due :
  timers w = {[id := due]} → due <= until → patternCount w = 1 →
  ∃ w1,
    elapse until w = (w1, [(due, EmitPatternCanceled 1)])
    ∧ idle w1
    ∧ cs_options (switch w1) = cs_options (switch w)
    ∧ _stateManager (switch w1) = _stateManager (switch w)
    ∧ _audioProcessor (switch w1) = _audioProcessor (switch w).
Proof.
  intros Htimers Hdue Hcount. unfold elapse.
  rewrite Htimers, dueBy_singleton, decide_True by done.
  cbn [foldl]. unfold fireDue, fireTimer. cbn [fst snd].
  rewrite Htimers, lookup_singleton_eq, delete_singleton_eq.
  unfold clapTimerCallback. cbn [switch]. unfold patternCount in Hcount.
  rewrite Hcount. rewrite bool_decide_eq_true_2 by lia.
  eexists. split; [reflexivity |]. by split_and!.
Qed.

Lemma claps_after_the_timeout times : ∀ w acc previous cooldown,
  (∃ id, timers w = {[id := previous + Z.max 0 (patternTimeout w)]}) →
  patternCount w = 1 →
  2 <= patternRequired w →
  Z.max 0 (patternTimeout w) <= cooldown →
  apart cooldown (previous :: times) →
  let r := foldl clapAt (w, acc) times in
  r.2 = acc ++ canceledEachTime (Z.max 0 (patternTimeout w)) previous times
  ∧ switchIsOn r.1 = switchIsOn w
  ∧ patternCount r.1 = 1.
Proof.
  induction times as [| t times IH]; intros w acc previous cooldown [id Htimers] Hcount Hreq
    Htimeout Hapart.
  - cbn. by rewrite app_nil_r.
  - destruct Hapart as [Hgap Hapart]. cbn [foldl].
    destruct (timeout_fires t w id _ Htimers ltac:(lia) Hcount)
      as (w1 & Helapse & Hidle & Ho1 & Hs1 & Hp1).
    assert (patternRequired w1 = patternRequired w) as Hr1
      by (unfold patternRequired; by rewrite Ho1).
    assert (patternTimeout w1 = patternTimeout w) as Ht1
      by (unfold patternTimeout; by rewrite Ho1).
    destruct (first_clap t w1 Hidle ltac:(lia))
      as (w2 & Hclap & Hpending & Hcount2 & Ho2 & Hs2 & Hp2).
    assert (patternRequired w2 = patternRequired w) as Hr2
      by (unfold patternRequired; by rewrite Ho2, Ho1).
    assert (patternTimeout w2 = patternTimeout w) as Ht2
      by (unfold patternTimeout; by rewrite Ho2, Ho1).
    assert (clapAt (w, acc) t
            = (w2, acc ++ [(previous + Z.max 0 (patternTimeout w), EmitPatternCanceled 1);
                           (t, EmitClap 1)])) as ->.
    { unfold clapAt. cbn [fst snd]. rewrite Helapse. cbn [fst snd]. by rewrite Hclap. }
    destruct (IH w2 (acc ++ [(previous + Z.max 0 (patternTimeout w), EmitPatternCanceled 1);
                             (t, EmitClap 1)]) t cooldown)
      as (Hlog & Hstate & Hcount'); try done; try lia.
    { by rewrite Ht2, <- Ht1. }
    cbn zeta. rewrite Hlog, Hstate, Ht2. split_and!; [| | done].
    + cbn [canceledEachTime]. by rewrite <- app_assoc.
    + unfold switchIsOn. by rewrite Hs2, Hs1.
Qed.

(** X27 (a timeout within the cooldown).  The processor reports claps more
    than its cooldown apart.  If [clapTimeout] is at most that cooldown (300
    ms) and at least two claps are required, then, with timeouts firing on
    time, no pattern is ever completed: every clap is announced as the first,
    each is followed by ['pattern-canceled'] 1 before the next arrives, and
    the state never changes. *)
Theorem a_timeout_within_the_cooldown_completes_no_pattern
    (w : World) (times : list Z) :
  let cooldown := _cooldownPeriod (_audioProcessor (switch w)) in
  let timeout := Z.max 0 (patternTimeout w) in
  idle w →
  2 <= patternRequired w →
  timeout <= cooldown →
  apart cooldown times →
  (clapsAt times w).2
    = match times with
      | [] => []
      | first :: later => (first, EmitClap 1) :: canceledEachTime timeout first later
      end
  ∧ switchIsOn (clapsAt times w).1 = switchIsOn w
  ∧ Forall (fun announced => isPattern announced.2 = false ∧ isToggle announced.2 = false)
           (clapsAt times w).2.
Proof.
  intros cooldown timeout Hidle Hreq Htimeout Hapart. subst cooldown timeout.
  assert ((clapsAt times w).2
          = match times with
            | [] => []
            | first :: later =>
                (first, EmitClap 1)
                  :: canceledEachTime (Z.max 0 (patternTimeout w)) first later
            end
          ∧ switchIsOn (clapsAt times w).1 = switchIsOn w) as [Hlog Hstate].
  { destruct times as [| first later]; [done |].
    unfold clapsAt. cbn [foldl].
    destruct (first_clap first w Hidle Hreq) as (w1 & Hclap & Hpending & Hcount & Ho & Hs & Hp).
    assert (clapAt (w, []) first = (w1, [(first, EmitClap 1)])) as ->.
    { unfold clapAt. cbn [fst snd]. rewrite elapse_idle by apply Hidle.
      cbn [fst snd]. by rewrite Hclap. }
    assert (patternTimeout w1 = patternTimeout w) as Ht1
      by (unfold patternTimeout; by rewrite Ho).
    destruct (claps_after_the_timeout later w1 [(first, EmitClap 1)] first
                (_cooldownPeriod (_audioProcessor (switch w))))
      as (Hlog & Hstate & _); try done.
    - by rewrite Ht1.
    - unfold patternRequired. by rewrite Ho.
    - by rewrite Ht1.
    - cbn zeta in *. rewrite Hlog, Hstate, Ht1. split; [done |].
      unfold switchIsOn. by rewrite Hs. }
  split_and!; [done | done |]. rewrite Hlog.
  destruct times as [| first later]; [constructor |].
  constructor; [done |]. clear. generalize first.
  induction later as [| t later IH]; intros previous; [constructor |].
  cbn [canceledEachTime]. repeat (constructor; [done |]). apply IH.
Qed.

(** With [clapTimeout: 250], claps 400 ms apart are each canceled. *)
Lemma a_timeout_within_the_cooldown_completes_no_pattern_witness :
  ∃ w,
    constructedWorld hastyOptions = Some w
    ∧ (clapsAt [1000; 1400; 1800] w).2
      = [(1000, EmitClap 1); (1250, EmitPatternCanceled 1); (1400, EmitClap 1);
         (1650, EmitPatternCanceled 1); (1800, EmitClap 1)].
Proof.
  eexists. split; [reflexivity |].
  refine (proj1 (a_timeout_within_the_cooldown_completes_no_pattern _ [1000; 1400; 1800]
                   _ _ _ _)).
  - by split.
  - change (2 <= 2). lia.
  - change (Z.max 0 250 <= 300). lia.
  - change (1400 - 1000 > 300 ∧ 1800 - 1400 > 300 ∧ True). lia.
Defined.

End TimeoutAndCooldown.
